(** * Farewell front end: the client-side cryptographic core

    A shallow embedding of
      - packages/site/lib/bit128.ts   (128-bit hex codec),
      - packages/site/lib/aes.ts      (AES-GCM packing, key bridging),
      - fhevm/internal/RelayerSDKLoader.ts and constants.ts (SDK loader),
      - app/page.tsx                  (the key-share inputs of the page),
      - next.config.js and app/layout.tsx (the base path at build time),
    together with a model of the browser built-ins those files call
    (String, BigInt, parseInt, TextEncoder/TextDecoder, console,
    crypto.getRandomValues, crypto.subtle with AES-GCM, URL, fetch).

    Conventions.  A BigInt is a [Z].  A byte is a [Z] in [0, 256) and a
    [Uint8Array] is a [list Z] of such bytes; every store into a typed
    array reduces modulo 256 as the platform does.  Text that only ever
    crosses the hex boundary is a [string] (code units below 256); text
    handed to [TextEncoder] is a list of UTF-16 code units.  A function
    that may throw returns a [Result]; an [async] function that touches
    the console, the entropy source or [crypto.subtle] is a state
    transformer over [World]. *)

From Stdlib Require Import ZArith List String Ascii Bool Lia.
Import ListNotations.
Open Scope string_scope.
Open Scope list_scope.
Open Scope Z_scope.

(** JavaScript's [+] on strings *)
Infix "+++" := String.append (at level 60, right associativity).

Ltac dlia := Z.to_euclidean_division_equations; lia.

(** ** Thrown values and results *)

(** What a [catch] clause can observe of a thrown value: its [name]
    ("Error" for [new Error(..)], the DOMException name for platform
    failures) and its [message]. *)
Record Exn : Type := mkExn { exn_name : string; exn_message : string }.

Definition Error (msg : string) : Exn := mkExn "Error" msg.
Definition SyntaxError (msg : string) : Exn := mkExn "SyntaxError" msg.
Definition DOMException (name msg : string) : Exn := mkExn name msg.

Inductive Result (A : Type) : Type :=
| Ok (a : A)
| Throw (e : Exn).
Arguments Ok {A} a.
Arguments Throw {A} e.

Definition rbind {A B} (r : Result A) (k : A -> Result B) : Result B :=
  match r with
  | Ok a => k a
  | Throw e => Throw e
  end.

Notation "'let?' x ':=' r 'in' k" := (rbind r (fun x => k))
  (at level 10, x name, r at level 100, k at level 200).

(** ** String built-ins (code units below 256) *)

Definition charCode (c : ascii) : Z := Z.of_N (N_of_ascii c).
Definition fromCharCode (n : Z) : ascii := ascii_of_N (Z.to_N n).

(** ECMAScript WhiteSpace and LineTerminator code points below 256:
    TAB, LF, VT, FF, CR, SP and NBSP. *)
Definition isWhiteSpace (c : ascii) : bool :=
  let n := charCode c in
  ((9 <=? n) && (n <=? 13)) || (n =? 32) || (n =? 160).

Fixpoint trimStart (s : string) : string :=
  match s with
  | EmptyString => EmptyString
  | String c r => if isWhiteSpace c then trimStart r else s
  end.

Fixpoint trimEnd (s : string) : string :=
  match s with
  | EmptyString => EmptyString
  | String c r =>
      match trimEnd r with
      | EmptyString => if isWhiteSpace c then EmptyString else String c EmptyString
      | r' => String c r'
      end
  end.

(** [String.prototype.trim] *)
Definition trim (s : string) : string := trimEnd (trimStart s).

(** Lower-casing of one code unit below 256: A-Z and the Latin-1 capitals
    U+00C0..U+00DE (but not the multiplication sign U+00D7). *)
Definition lowerChar (c : ascii) : ascii :=
  let n := charCode c in
  if ((65 <=? n) && (n <=? 90)) || ((192 <=? n) && (n <=? 222) && negb (n =? 215))
  then fromCharCode (n + 32) else c.

(** [String.prototype.toLowerCase] *)
Fixpoint toLowerCase (s : string) : string :=
  match s with
  | EmptyString => EmptyString
  | String c r => String (lowerChar c) (toLowerCase r)
  end.

(** [String.prototype.startsWith] *)
Fixpoint startsWith (s p : string) {struct p} : bool :=
  match p, s with
  | EmptyString, _ => true
  | String _ _, EmptyString => false
  | String a p', String b s' => Ascii.eqb a b && startsWith s' p'
  end.

(** [s.slice(n)] for a non-negative [n] *)
Fixpoint slice (n : nat) (s : string) : string :=
  match n, s with
  | O, _ => s
  | S _, EmptyString => EmptyString
  | S n', String _ r => slice n' r
  end.

(** [s.substr(start, len)] for non-negative arguments *)
Fixpoint take (n : nat) (s : string) : string :=
  match n, s with
  | O, _ => EmptyString
  | S _, EmptyString => EmptyString
  | S n', String c r => String c (take n' r)
  end.

Definition substr (start len : nat) (s : string) : string :=
  take len (slice start s).

(** [c.repeat(n)] for a one-character string *)
Fixpoint repeatChar (c : ascii) (n : nat) : string :=
  match n with
  | O => EmptyString
  | S n' => String c (repeatChar c n')
  end.

Fixpoint forallb_string (p : ascii -> bool) (s : string) : bool :=
  match s with
  | EmptyString => true
  | String c r => p c && forallb_string p r
  end.

(** ** Hexadecimal digits *)

(** The digit character of [Number.prototype.toString(16)] and
    [BigInt.prototype.toString(16)]: lowercase. *)
Definition hexDigit (d : Z) : ascii :=
  if d <? 10 then fromCharCode (48 + d) else fromCharCode (87 + d).

(** The value of a radix-16 digit in either case, as [parseInt] and the
    BigInt literal grammar read it. *)
Definition hexValue (c : ascii) : option Z :=
  let n := charCode c in
  if (48 <=? n) && (n <=? 57) then Some (n - 48)
  else if (97 <=? n) && (n <=? 102) then Some (n - 87)
  else if (65 <=? n) && (n <=? 70) then Some (n - 55)
  else None.

(** A character that is a hexadecimal digit in either case *)
Definition isHexChar (c : ascii) : bool :=
  match hexValue c with Some _ => true | None => false end.

(** The character class [[0-9a-f]] *)
Definition isLowerHex (c : ascii) : bool :=
  let n := charCode c in
  ((48 <=? n) && (n <=? 57)) || ((97 <=? n) && (n <=? 102)).

(** [/^[0-9a-f]+$/.test(s)] *)
Definition test_lower_hex (s : string) : bool :=
  match s with
  | EmptyString => false
  | _ => forallb_string isLowerHex s
  end.

(** Digits of a non-negative integer, most significant first, by repeated
    division; [fuel] bounds the number of digits. *)
Fixpoint digitsOf (radix : Z) (fuel : nat) (x : Z) : string :=
  match fuel with
  | O => EmptyString
  | S f =>
      if x <? radix then String (hexDigit x) EmptyString
      else digitsOf radix f (x / radix) +++ String (hexDigit (x mod radix)) EmptyString
  end.

Definition digits16 : nat -> Z -> string := digitsOf 16.

Definition digitFuel (x : Z) : nat := S (Z.to_nat (Z.log2 x)).

(** [x.toString(16)] for a BigInt or an integral Number *)
Definition toString16 (x : Z) : string :=
  if x <? 0 then String "-" (digits16 (digitFuel (- x)) (- x))
  else digits16 (digitFuel x) x.

(** [String(n)] for a non-negative integral Number such as a length *)
Definition toString10 (n : nat) : string :=
  digitsOf 10 (digitFuel (Z.of_nat n)) (Z.of_nat n).

(** [s.padStart(n, "0")] *)
Definition padStart0 (n : nat) (s : string) : string :=
  repeatChar "0" (n - String.length s) +++ s.

Fixpoint parseDigits (radix : Z) (acc : Z) (s : string) : option Z :=
  match s with
  | EmptyString => Some acc
  | String c r =>
      match hexValue c with
      | Some d => if d <? radix then parseDigits radix (acc * radix + d) r else None
      | None => None
      end
  end.

(** [BigInt(text)]: StringToBigInt.  Surrounding white space is ignored,
    the empty text is zero, [0x]/[0o]/[0b] select the radix and need at
    least one digit, otherwise an optionally signed decimal; anything
    else is a SyntaxError. *)
Definition BigInt_of_string (text : string) : Result Z :=
  let bad := Throw (SyntaxError ("Cannot convert " +++ text +++ " to a BigInt")) in
  let nonempty radix body :=
    match body with
    | EmptyString => bad
    | _ => match parseDigits radix 0 body with Some v => Ok v | None => bad end
    end in
  let t := trim text in
  match t with
  | EmptyString => Ok 0
  | String "0" (String p body) =>
      if orb (Ascii.eqb p "x") (Ascii.eqb p "X") then nonempty 16 body
      else if orb (Ascii.eqb p "o") (Ascii.eqb p "O") then nonempty 8 body
      else if orb (Ascii.eqb p "b") (Ascii.eqb p "B") then nonempty 2 body
      else nonempty 10 t
  | String "-" body =>
      match nonempty 10 body with Ok v => Ok (- v) | Throw e => Throw e end
  | String "+" body => nonempty 10 body
  | _ => nonempty 10 t
  end.

(** The longest prefix of radix-16 digits, read as a number; [None] when
    there is no digit. *)
Fixpoint hexPrefix (acc : option Z) (s : string) : option Z :=
  match s with
  | EmptyString => acc
  | String c r =>
      match hexValue c with
      | Some d => hexPrefix (Some (match acc with Some a => a * 16 + d | None => d end)) r
      | None => acc
      end
  end.

(** [parseInt(s, 16)]; [None] is NaN.  Leading white space is skipped,
    then an optional sign and an optional [0x] or [0X]; whatever follows
    the digits is ignored. *)
Definition parseInt16 (s : string) : option Z :=
  let s1 := trimStart s in
  let '(negative, s2) :=
    match s1 with
    | String "-" r => (true, r)
    | String "+" r => (false, r)
    | _ => (false, s1)
    end in
  let s3 :=
    match s2 with
    | String "0" (String p r) =>
        if orb (Ascii.eqb p "x") (Ascii.eqb p "X") then r else s2
    | _ => s2
    end in
  match hexPrefix None s3 with
  | Some v => Some (if negative then - v else v)
  | None => None
  end.


(** ** Bytes and typed arrays *)

(** The elements of a [Uint8Array] *)
Definition is_byte (b : Z) : Prop := 0 <= b < 256.

(** ToUint8: what a store into a [Uint8Array] keeps of an integral
    Number; NaN is stored as zero. *)
Definition toUint8 (n : option Z) : Z :=
  match n with
  | Some v => v mod 256
  | None => 0
  end.

(** [new Uint8Array(n)]: [n] zero bytes *)
Definition newUint8Array (n : nat) : list Z := repeat 0 n.

(** [out[i] = x] on a typed array: a write past the end is ignored. *)
Fixpoint setAt (i : nat) (x : Z) (out : list Z) : list Z :=
  match out, i with
  | [], _ => []
  | _ :: t, O => x :: t
  | h :: t, S j => h :: setAt j x t
  end.

Definition store8 (out : list Z) (i : nat) (x : Z) : list Z :=
  setAt i (toUint8 (Some x)) out.

(** The big-endian value of a byte sequence (Horner's rule) *)
Definition be_value (bs : list Z) : Z :=
  fold_left (fun v b => v * 256 + b) bs 0.

(** The [n] low-order bytes of [x], most significant first *)
Fixpoint bytes_be (n : nat) (x : Z) : list Z :=
  match n with
  | O => []
  | S i => bytes_be i (x / 256) ++ [x mod 256]
  end.

(** Byte-wise exclusive or, as long as the shorter argument *)
Fixpoint xor_bytes (a b : list Z) : list Z :=
  match a, b with
  | x :: a', y :: b' => Z.lxor x y :: xor_bytes a' b'
  | _, _ => []
  end.

(** [n] at a time *)
Fixpoint chunks (fuel n : nat) (l : list Z) : list (list Z) :=
  match fuel, l with
  | O, _ => []
  | _, [] => []
  | S f, _ => firstn n l :: chunks f n (skipn n l)
  end.

Fixpoint eqb_bytes (a b : list Z) : bool :=
  match a, b with
  | [], [] => true
  | x :: a', y :: b' => (x =? y) && eqb_bytes a' b'
  | _, _ => false
  end.

(** * The platform's AES-GCM (FIPS 197, NIST SP 800-38D)

    [crypto.subtle] is not code of this repository; it is modelled by
    the algorithm the Web Cryptography API prescribes for "AES-GCM" so
    that what the repository's functions return can be computed. *)
Module AES.

(** Multiplication by [x] in GF(2^8) modulo x^8+x^4+x^3+x+1 *)
Definition xtime (b : Z) : Z :=
  let s := (2 * b) mod 256 in
  if 128 <=? b then Z.lxor s 27 else s.

Fixpoint gmul_loop (n : nat) (a b acc : Z) : Z :=
  match n with
  | O => acc
  | S n' =>
      gmul_loop n' (xtime a) (b / 2) (if Z.odd b then Z.lxor acc a else acc)
  end.

Definition gmul (a b : Z) : Z := gmul_loop 8 a b 0.

(** The multiplicative inverse, [a^254], with [0] mapped to [0] *)
Definition ginv (a : Z) : Z :=
  let a2 := gmul a a in
  let a4 := gmul a2 a2 in
  let a8 := gmul a4 a4 in
  let a16 := gmul a8 a8 in
  let a32 := gmul a16 a16 in
  let a64 := gmul a32 a32 in
  let a128 := gmul a64 a64 in
  gmul a128 (gmul a64 (gmul a32 (gmul a16 (gmul a8 (gmul a4 a2))))).

Definition rotl8 (b : Z) (k : Z) : Z :=
  Z.lor (Z.shiftl b k mod 256) (Z.shiftr b (8 - k)).

Definition sbox_of (a : Z) : Z :=
  let x := ginv a in
  Z.lxor (Z.lxor (Z.lxor (Z.lxor (Z.lxor x (rotl8 x 1)) (rotl8 x 2)) (rotl8 x 3))
                 (rotl8 x 4)) 99.

Definition sbox_table : list Z :=
  Eval vm_compute in map (fun i => sbox_of (Z.of_nat i)) (seq 0 256).

Definition sbox (b : Z) : Z := nth (Z.to_nat b) sbox_table 0.

Definition subBytes (st : list Z) : list Z := map sbox st.

(** The state is held column by column, as the input block is read:
    byte [r + 4c] is row [r] of column [c]. *)
Definition shiftRows (st : list Z) : list Z :=
  map (fun i => nth ((i mod 4) + 4 * (((i / 4) + (i mod 4)) mod 4))%nat st 0)
      (seq 0 16).

Definition mixColumn (col : list Z) : list Z :=
  match col with
  | [a; b; c; d] =>
      [ Z.lxor (Z.lxor (Z.lxor (gmul a 2) (gmul b 3)) c) d;
        Z.lxor (Z.lxor (Z.lxor a (gmul b 2)) (gmul c 3)) d;
        Z.lxor (Z.lxor (Z.lxor a b) (gmul c 2)) (gmul d 3);
        Z.lxor (Z.lxor (Z.lxor (gmul a 3) b) c) (gmul d 2) ]
  | _ => col
  end.

Definition mixColumns (st : list Z) : list Z :=
  List.concat (map mixColumn (chunks 4 4 st)).

Definition rotWord (w : list Z) : list Z :=
  match w with
  | a :: t => t ++ [a]
  | [] => []
  end.

Fixpoint rcon (i : nat) : Z :=
  match i with
  | O => 0
  | S O => 1
  | S j => xtime (rcon j)
  end.

(** Key expansion: word [i] from words [i-1] and [i-Nk] *)
Fixpoint expand (fuel Nk i : nat) (w : list (list Z)) : list (list Z) :=
  match fuel with
  | O => w
  | S f =>
      let prev := nth (i - 1) w [] in
      let temp :=
        if (i mod Nk =? 0)%nat
        then xor_bytes (map sbox (rotWord prev)) [rcon (i / Nk); 0; 0; 0]
        else if ((6 <? Nk) && (i mod Nk =? 4))%nat then map sbox prev
        else prev in
      expand f Nk (S i) (w ++ [xor_bytes (nth (i - Nk) w []) temp])
  end.

Definition keyExpansion (key : list Z) : list (list Z) :=
  let Nk := (List.length key / 4)%nat in
  let Nr := (Nk + 6)%nat in
  map (@List.concat Z)
      (map (fun r => firstn 4 (skipn (4 * r) (expand (4 * (Nr + 1) - Nk) Nk Nk
                                                   (chunks Nk 4 key))))
           (seq 0 (Nr + 1))).

Fixpoint rounds (rks : list (list Z)) (st : list Z) : list Z :=
  match rks with
  | [] => st
  | [last] => xor_bytes (shiftRows (subBytes st)) last
  | rk :: rest => rounds rest (xor_bytes (mixColumns (shiftRows (subBytes st))) rk)
  end.

(** The forward cipher on one 16-byte block *)
Definition cipher (key block : list Z) : list Z :=
  match keyExpansion key with
  | rk0 :: rest => rounds rest (xor_bytes block rk0)
  | [] => block
  end.

(** The forward cipher on a block held as a 128-bit integer *)
Definition E (key : list Z) (block : Z) : Z :=
  be_value (cipher key (bytes_be 16 block)) mod 2 ^ 128.

End AES.

Module GCM.

(** The reduction constant [R = 11100001 || 0^120] *)
Definition R : Z := 225 * 2 ^ 120.

(** Multiplication in GF(2^128); bit [i] of a block is counted from the
    left, so it is binary digit [127 - i] of the block's integer. *)
Fixpoint gf_mul_loop (n : nat) (i : Z) (X V acc : Z) : Z :=
  match n with
  | O => acc
  | S n' =>
      gf_mul_loop n' (i + 1) X
                  (if Z.odd V then Z.lxor (V / 2) R else V / 2)
                  (if Z.testbit X (127 - i) then Z.lxor acc V else acc)
  end.

Definition gf_mul (X Y : Z) : Z := gf_mul_loop 128 0 X Y 0.

Definition ghash (H : Z) (blocks : list Z) : Z :=
  fold_left (fun Y X => gf_mul (Z.lxor Y X) H) blocks 0.

(** A byte string as 128-bit blocks, the last one padded with zeros *)
Definition blocks_of (bs : list Z) : list Z :=
  map (fun b => be_value (b ++ repeat 0 (16 - List.length b)))
      (chunks (List.length bs) 16 bs).

Definition bit_length (bs : list Z) : Z := 8 * Z.of_nat (List.length bs).

(** The pre-counter block *)
Definition J0 (H : Z) (iv : list Z) : Z :=
  if (List.length iv =? 12)%nat then be_value iv * 2 ^ 32 + 1
  else ghash H (blocks_of iv ++ [bit_length iv]).

Definition inc32 (X : Z) : Z := (X / 2 ^ 32) * 2 ^ 32 + (X + 1) mod 2 ^ 32.

Fixpoint keystream (key : list Z) (cb : Z) (nblocks : nat) : list Z :=
  match nblocks with
  | O => []
  | S n => bytes_be 16 (AES.E key cb) ++ keystream key (inc32 cb) n
  end.

(** GCTR: the data xored with the cipher of successive counter blocks *)
Definition gctr (key : list Z) (icb : Z) (data : list Z) : list Z :=
  xor_bytes data (keystream key icb ((List.length data + 15) / 16)).

Definition tag (key : list Z) (iv aad c : list Z) (tagBytes : nat) : list Z :=
  let H := AES.E key 0 in
  let s := ghash H (blocks_of aad ++ blocks_of c
                      ++ [bit_length aad * 2 ^ 64 + bit_length c]) in
  firstn tagBytes (bytes_be 16 (Z.lxor s (AES.E key (J0 H iv)))).

(** Authenticated encryption: the ciphertext followed by the tag *)
Definition seal (key iv aad : list Z) (tagBytes : nat) (pt : list Z) : list Z :=
  let c := gctr key (inc32 (J0 (AES.E key 0) iv)) pt in
  c ++ tag key iv aad c tagBytes.

(** Authenticated decryption: [None] when the input is shorter than a
    tag or the tag does not verify. *)
Definition unseal (key iv aad : list Z) (tagBytes : nat) (data : list Z)
  : option (list Z) :=
  if (List.length data <? tagBytes)%nat then None
  else
    let n := (List.length data - tagBytes)%nat in
    let c := firstn n data in
    if eqb_bytes (skipn n data) (tag key iv aad c tagBytes)
    then Some (gctr key (inc32 (J0 (AES.E key 0) iv)) c)
    else None.

End GCM.

(** ** TextEncoder and TextDecoder (WHATWG Encoding, UTF-8)

    The argument of [TextEncoder.encode] and the result of
    [TextDecoder.decode] are JavaScript strings: lists of UTF-16 code
    units. *)

Definition isHighSurrogate (u : Z) : bool := (55296 <=? u) && (u <=? 56319).
Definition isLowSurrogate (u : Z) : bool := (56320 <=? u) && (u <=? 57343).

(** [String.prototype.isWellFormed]: every code unit is 16 bits wide and
    no surrogate is left unpaired. *)
Fixpoint isWellFormed (s : list Z) : bool :=
  match s with
  | [] => true
  | u :: rest =>
      (0 <=? u) && (u <? 65536) &&
      (if isHighSurrogate u then
         match rest with
         | v :: rest' => isLowSurrogate v && isWellFormed rest'
         | [] => false
         end
       else negb (isLowSurrogate u) && isWellFormed rest)
  end.

(** Conversion to a USVString: the scalar values of the string, each
    unpaired surrogate replaced by U+FFFD. *)
Fixpoint toScalars (s : list Z) : list Z :=
  match s with
  | [] => []
  | u :: rest =>
      if isHighSurrogate u then
        match rest with
        | v :: rest' =>
            if isLowSurrogate v
            then (65536 + (u - 55296) * 1024 + (v - 56320)) :: toScalars rest'
            else 65533 :: toScalars rest
        | [] => [65533]
        end
      else if isLowSurrogate u then 65533 :: toScalars rest
      else u :: toScalars rest
  end.

(** The code units of a scalar value *)
Definition fromScalar (c : Z) : list Z :=
  if c <? 65536 then [c]
  else [55296 + (c - 65536) / 1024; 56320 + (c - 65536) mod 1024].

(** The UTF-8 encoder's bytes for one scalar value *)
Definition utf8_encode_scalar (c : Z) : list Z :=
  if c <? 128 then [c]
  else if c <? 2048 then [192 + c / 64; 128 + c mod 64]
  else if c <? 65536
       then [224 + c / 4096; 128 + (c / 64) mod 64; 128 + c mod 64]
       else [240 + c / 262144; 128 + (c / 4096) mod 64;
             128 + (c / 64) mod 64; 128 + c mod 64].

(** [new TextEncoder().encode(s)] *)
Definition TextEncoder_encode (s : list Z) : list Z :=
  flat_map utf8_encode_scalar (toScalars s).

(** The UTF-8 decoder's state between bytes of one sequence *)
Record Utf8State : Type := mkUtf8State {
  u_code_point : Z;
  u_bytes_needed : nat;
  u_bytes_seen : nat;
  u_lower : Z;
  u_upper : Z
}.

Inductive Lead : Type :=
| LeadEmit (c : Z)
| LeadStart (st : Utf8State)
| LeadError.

(** A byte read when no sequence is open *)
Definition lead (b : Z) : Lead :=
  if b <=? 127 then LeadEmit b
  else if (194 <=? b) && (b <=? 223)
  then LeadStart (mkUtf8State (b mod 32) 1 0 128 191)
  else if (224 <=? b) && (b <=? 239)
  then LeadStart (mkUtf8State (b mod 16) 2 0
                              (if b =? 224 then 160 else 128)
                              (if b =? 237 then 159 else 191))
  else if (240 <=? b) && (b <=? 244)
  then LeadStart (mkUtf8State (b mod 8) 3 0
                              (if b =? 240 then 144 else 128)
                              (if b =? 244 then 143 else 191))
  else LeadError.

(** The UTF-8 decoder in replacement mode: a malformed sequence yields
    U+FFFD, and the byte that broke it is read again as a lead byte. *)
Fixpoint utf8_decode (st : option Utf8State) (bs : list Z) : list Z :=
  match bs with
  | [] => match st with None => [] | Some _ => [65533] end
  | b :: rest =>
      let fresh :=
        match lead b with
        | LeadEmit c => c :: utf8_decode None rest
        | LeadStart s => utf8_decode (Some s) rest
        | LeadError => 65533 :: utf8_decode None rest
        end in
      match st with
      | None => fresh
      | Some s =>
          if (u_lower s <=? b) && (b <=? u_upper s) then
            let cp := u_code_point s * 64 + b mod 64 in
            if (S (u_bytes_seen s) =? u_bytes_needed s)%nat
            then cp :: utf8_decode None rest
            else utf8_decode
                   (Some (mkUtf8State cp (u_bytes_needed s) (S (u_bytes_seen s))
                                      128 191))
                   rest
          else 65533 :: fresh
      end
  end.

(** A leading byte order mark is not part of the decoded text
    ([ignoreBOM] is false by default). *)
Definition stripBOM (bs : list Z) : list Z :=
  match bs with
  | a :: b :: c :: rest =>
      if (a =? 239) && (b =? 187) && (c =? 191) then rest else bs
  | _ => bs
  end.

(** [new TextDecoder().decode(bytes)] *)
Definition TextDecoder_decode (bytes : list Z) : list Z :=
  flat_map fromScalar (utf8_decode None (stripBOM bytes)).

(** The code units of a text below 256 *)
Definition codeUnits (s : string) : list Z :=
  map charCode (list_ascii_of_string s).

(** * The browser: console, entropy and crypto.subtle *)

Inductive KeyUsage : Type := UsageEncrypt | UsageDecrypt.

Definition eqb_usage (a b : KeyUsage) : bool :=
  match a, b with
  | UsageEncrypt, UsageEncrypt => true
  | UsageDecrypt, UsageDecrypt => true
  | _, _ => false
  end.

(** An AES-GCM [CryptoKey]: the key material and the [extractable] and
    [usages] slots. *)
Record CryptoKey : Type := mkCryptoKey {
  key_material : list Z;
  key_extractable : bool;
  key_usages : list KeyUsage
}.

Definition hasUsage (u : KeyUsage) (k : CryptoKey) : bool :=
  existsb (eqb_usage u) (key_usages k).

Inductive ConsoleArg : Type :=
| ArgText (s : string)
| ArgExn (e : Exn).

Inductive ConsoleLevel : Type := LevelLog | LevelError.

Record ConsoleEntry : Type := mkEntry {
  entry_level : ConsoleLevel;
  entry_args : list ConsoleArg
}.

Inductive SubtleOp : Type :=
| OpGenerateKey
| OpImportKey
| OpExportKey
| OpEncrypt
| OpDecrypt.

(** What the code can affect or observe outside its arguments: the
    entropy source (a tape of bytes and how far it has been read), the
    console, and the operations requested of [crypto.subtle]. *)
Record World : Type := mkWorld {
  entropy : nat -> Z;
  cursor : nat;
  console : list ConsoleEntry;
  subtle_ops : list SubtleOp
}.

(** An [async] function body (every [await] is sequencing) *)
Definition Async (A : Type) : Type := World -> Result A * World.

Definition ret {A} (a : A) : Async A := fun w => (Ok a, w).

Definition throw {A} (e : Exn) : Async A := fun w => (Throw e, w).

Definition bind {A B} (m : Async A) (k : A -> Async B) : Async B :=
  fun w =>
    match m w with
    | (Ok a, w') => k a w'
    | (Throw e, w') => (Throw e, w')
    end.

(** [try { m } catch (e) { handler e }] *)
Definition try_catch {A} (m : Async A) (handler : Exn -> Async A) : Async A :=
  fun w =>
    match m w with
    | (Ok a, w') => (Ok a, w')
    | (Throw e, w') => handler e w'
    end.

Notation "'let!' x ':=' m 'in' k" := (bind m (fun x => k))
  (at level 10, x name, m at level 100, k at level 200).
Notation "m ';;' k" := (bind m (fun _ => k))
  (at level 100, k at level 200, right associativity).

(** A pure function that may throw, inside an [async] body *)
Definition lift {A} (r : Result A) : Async A := fun w => (r, w).

Definition addConsole (entry : ConsoleEntry) (w : World) : World :=
  mkWorld (entropy w) (cursor w) (console w ++ [entry]) (subtle_ops w).

Definition addOp (op : SubtleOp) (w : World) : World :=
  mkWorld (entropy w) (cursor w) (console w) (subtle_ops w ++ [op]).

Definition advance (n : nat) (w : World) : World :=
  mkWorld (entropy w) (cursor w + n) (console w) (subtle_ops w).

Definition console_write (lvl : ConsoleLevel) (args : list ConsoleArg) : Async unit :=
  fun w => (Ok tt, addConsole (mkEntry lvl args) w).

Definition console_log : list ConsoleArg -> Async unit := console_write LevelLog.
Definition console_error : list ConsoleArg -> Async unit := console_write LevelError.

(** The next [n] bytes of the entropy tape *)
Definition draw (n : nat) (w : World) : list Z :=
  map (fun i => entropy w (cursor w + i)%nat mod 256) (seq 0 n).

(** [crypto.getRandomValues(new Uint8Array(n))] *)
Definition getRandomValues (n : nat) : Async (list Z) :=
  fun w =>
    if 65536 <? Z.of_nat n then (Throw (DOMException "QuotaExceededError" ""), w)
    else (Ok (draw n w), advance n w).

(** An operation is asked of [crypto.subtle]. *)
Definition request (op : SubtleOp) : Async unit :=
  fun w => (Ok tt, addOp op w).

Definition validKeyLength (bits : Z) : bool :=
  (bits =? 128) || (bits =? 192) || (bits =? 256).

(** [crypto.subtle.generateKey({name: "AES-GCM", length}, extractable, usages)] *)
Definition subtle_generateKey (length : Z) (extractable : bool)
           (usages : list KeyUsage) : Async CryptoKey :=
  request OpGenerateKey ;;
  if negb (validKeyLength length) then throw (DOMException "OperationError" "")
  else match usages with
       | [] => throw (SyntaxError "")
       | _ =>
           let! material := getRandomValues (Z.to_nat (length / 8)) in
           ret (mkCryptoKey material extractable usages)
       end.

(** The "raw" import of an AES-GCM key *)
Definition importRaw (keyData : list Z) (extractable : bool)
           (usages : list KeyUsage) : Result CryptoKey :=
  if negb (validKeyLength (8 * Z.of_nat (List.length keyData)))
  then Throw (DOMException "DataError" "")
  else match usages with
       | [] => Throw (SyntaxError "")
       | _ => Ok (mkCryptoKey keyData extractable usages)
       end.

(** [crypto.subtle.importKey("raw", keyData, {name: "AES-GCM"}, extractable, usages)] *)
Definition subtle_importKey (keyData : list Z) (extractable : bool)
           (usages : list KeyUsage) : Async CryptoKey :=
  request OpImportKey ;; lift (importRaw keyData extractable usages).

(** The "raw" export of a key *)
Definition exportRaw (key : CryptoKey) : Result (list Z) :=
  if key_extractable key then Ok (key_material key)
  else Throw (DOMException "InvalidAccessError" "").

(** [crypto.subtle.exportKey("raw", key)] *)
Definition subtle_exportKey (key : CryptoKey) : Async (list Z) :=
  request OpExportKey ;; lift (exportRaw key).

Definition validTagLength (bits : Z) : bool :=
  (bits =? 32) || (bits =? 64) || (bits =? 96) || (bits =? 104) ||
  (bits =? 112) || (bits =? 120) || (bits =? 128).

Definition orEmpty (aad : option (list Z)) : list Z :=
  match aad with Some a => a | None => [] end.

(** The AES-GCM encrypt operation.  [tagLength] is an octet, and a value
    that is none is a TypeError before anything else is looked at.  The
    size limits of the algorithm (2^39 - 256 bytes of data, 2^64 - 1
    bytes of [iv] or [additionalData]) lie beyond any typed array and are
    left out. *)
Definition aesGcmEncrypt (iv : list Z) (aad : option (list Z)) (tagLength : Z)
           (key : CryptoKey) (data : list Z) : Result (list Z) :=
  if (tagLength <? 0) || (255 <? tagLength) then Throw (mkExn "TypeError" "")
  else if negb (hasUsage UsageEncrypt key) then Throw (DOMException "InvalidAccessError" "")
  else if negb (validTagLength tagLength) then Throw (DOMException "OperationError" "")
  else Ok (GCM.seal (key_material key) iv (orEmpty aad) (Z.to_nat (tagLength / 8)) data).

(** [crypto.subtle.encrypt({name: "AES-GCM", iv, additionalData, tagLength}, key, data)] *)
Definition subtle_encrypt (iv : list Z) (aad : option (list Z)) (tagLength : Z)
           (key : CryptoKey) (data : list Z) : Async (list Z) :=
  request OpEncrypt ;; lift (aesGcmEncrypt iv aad tagLength key data).

(** The AES-GCM decrypt operation: an input shorter than the tag and a
    tag that does not verify are both an OperationError. *)
Definition aesGcmDecrypt (iv : list Z) (aad : option (list Z)) (tagLength : Z)
           (key : CryptoKey) (data : list Z) : Result (list Z) :=
  if (tagLength <? 0) || (255 <? tagLength) then Throw (mkExn "TypeError" "")
  else if negb (hasUsage UsageDecrypt key) then Throw (DOMException "InvalidAccessError" "")
  else if negb (validTagLength tagLength) then Throw (DOMException "OperationError" "")
  else match GCM.unseal (key_material key) iv (orEmpty aad)
                        (Z.to_nat (tagLength / 8)) data with
       | Some pt => Ok pt
       | None => Throw (DOMException "OperationError" "")
       end.

(** [crypto.subtle.decrypt({name: "AES-GCM", iv, additionalData, tagLength}, key, data)] *)
Definition subtle_decrypt (iv : list Z) (aad : option (list Z)) (tagLength : Z)
           (key : CryptoKey) (data : list Z) : Async (list Z) :=
  request OpDecrypt ;; lift (aesGcmDecrypt iv aad tagLength key data).

(** ** Typed-array views *)

(** A [Uint8Array] as a window on an [ArrayBuffer] *)
Record Uint8ArrayView : Type := mkView {
  buffer : list Z;
  byteOffset : nat;
  byteLength : nat
}.

(** The bytes a view shows *)
Definition contents (v : Uint8ArrayView) : list Z :=
  firstn (byteLength v) (skipn (byteOffset v) (buffer v)).

(** A view lies inside its buffer. *)
Definition view_ok (v : Uint8ArrayView) : Prop :=
  (byteOffset v + byteLength v <= List.length (buffer v))%nat.

(** [new Uint8Array(bytes)]: a view of a buffer of its own *)
Definition viewOf (bytes : list Z) : Uint8ArrayView :=
  mkView bytes 0 (List.length bytes).

(** * packages/site/lib/bit128.ts *)
Module Bit128.

Definition mask_literal : string := "0xffffffffffffffffffffffffffffffff".

(** What [hex16ToBigint] validates: the input trimmed, lower-cased and
    without one leading [0x] (its local [s]). *)
Definition body (hex : string) : string :=
  let h := toLowerCase (trim hex) in
  if startsWith h "0x" then slice 2 h else h.

Definition hex16ToBigint (hex : string) : Result Z :=
  let h := toLowerCase (trim hex) in
  let s := if startsWith h "0x" then slice 2 h else h in
  if (String.length s =? 0)%nat then Ok 0
  else if negb (test_lower_hex s) then Throw (Error "Invalid hex")
  else if (32 <? String.length s)%nat then Throw (Error "Too many hex digits for 128-bit")
  else
    let? v := BigInt_of_string ("0x" +++ s) in
    let? mask := BigInt_of_string mask_literal in
    Ok (Z.land v mask).

Definition bigintToHex16 (v : Z) : Result string :=
  let? mask := BigInt_of_string mask_literal in
  let x := Z.land v mask in
  let s := toString16 x in
  let s := if (String.length s <? 32)%nat
           then repeatChar "0" (32 - String.length s) +++ s else s in
  Ok ("0x" +++ s).

(** [for (const b of bytes) s += b.toString(16).padStart(2, "0")] on
    16 bytes of [crypto.getRandomValues] *)
Definition randomHex16 : Async string :=
  let! bytes := getRandomValues 16 in
  let s := fold_left (fun s b => s +++ padStart0 2 (toString16 b)) bytes EmptyString in
  ret ("0x" +++ s).

End Bit128.


(** * packages/site/lib/aes.ts

    The sources hold three copies of this file.  [Aes] has what is
    written the same way in all of them; [AesV1] is the first copy
    (aes.ts, first document), [AesV2] the second (aes.ts, second
    document), [AesV3] the third (the copy next to the page component). *)
Module Aes.

(** [for (const x of b) s += x.toString(16).padStart(2, "0")] *)
Definition bytesToHex (b : list Z) : string :=
  let s := fold_left (fun s x => s +++ padStart0 2 (toString16 x)) b EmptyString in
  "0x" +++ s.

(** [out.set(src, offset)] for a source that fits *)
Definition setFrom (out src : list Z) (offset : nat) : list Z :=
  firstn offset out ++ src ++ skipn (offset + List.length src) out.

Definition concat (a b : list Z) : list Z :=
  let out := newUint8Array (List.length a + List.length b) in
  let out := setFrom out a 0 in
  setFrom out b (List.length a).

Definition aes128Gen : Async CryptoKey :=
  subtle_generateKey 128 true [UsageEncrypt; UsageDecrypt].

(** [for (let i = 0; i < out.length; i++) out[i] = parseInt(h.substr(i * 2, 2), 16)] *)
Definition fillFromHex (h : string) (out : list Z) : list Z :=
  fold_left (fun out i => setAt i (toUint8 (parseInt16 (substr (i * 2) 2 h))) out)
            (seq 0 (List.length out)) out.

(** [for (const b of k) v = (v << 8n) | BigInt(b)] *)
Definition key16ToBigint (k : list Z) : Z :=
  fold_left (fun v b => Z.lor (Z.shiftl v 8) b) k 0.

(** [for (let i = 15; i >= 0; i--) { out[i] = Number(v & 0xffn); v >>= 8n }],
    with [n] the number of indices still to fill. *)
Fixpoint bigintToKey16_loop (n : nat) (v : Z) (out : list Z) : list Z :=
  match n with
  | O => out
  | S i => bigintToKey16_loop i (Z.shiftr v 8) (store8 out i (Z.land v 255))
  end.

Definition bigintToKey16 (v : Z) : list Z :=
  bigintToKey16_loop 16 v (newUint8Array 16).

End Aes.

Module AesV1.

Definition hexToBytes (hex : string) : list Z :=
  let h := slice 2 hex in
  let out := newUint8Array (String.length h / 2) in
  Aes.fillFromHex h out.

Definition aesImportRaw16 (raw : Uint8ArrayView) : Async CryptoKey :=
  if negb (byteLength raw =? 16)%nat then throw (Error "Key must be 16 bytes")
  else
    let keyData :=
      if ((byteOffset raw =? 0) && (byteLength raw =? List.length (buffer raw)))%nat
      then buffer raw
      else contents raw in
    subtle_importKey keyData true [UsageEncrypt; UsageDecrypt].

Definition aesExportRaw16 (key : CryptoKey) : Async (list Z) :=
  let! raw := subtle_exportKey key in
  if negb (List.length raw =? 16)%nat then throw (Error "Exported key not 16 bytes")
  else ret raw.

Definition encryptUtf8AesGcmPacked (s : list Z) (key : CryptoKey) : Async string :=
  let! iv := getRandomValues 12 in
  let pt := TextEncoder_encode s in
  let! ct := subtle_encrypt iv None 128 key pt in
  ret (Aes.bytesToHex (Aes.concat iv ct)).

Definition decryptUtf8AesGcmPacked (packed : string) (key : CryptoKey)
  : Async (list Z) :=
  let data := hexToBytes packed in
  if (List.length data <? 12)%nat then throw (Error "cipher too short")
  else
    let iv := firstn 12 data in
    let ct := skipn 12 data in
    let! pt := subtle_decrypt iv None 128 key ct in
    ret (TextDecoder_decode pt).

End AesV1.

(** What the second and third copies write the same way *)
Module AesV23.

Definition bufToHex (buf : list Z) : string :=
  String.concat EmptyString (map (fun x => padStart0 2 (toString16 x)) buf).

Definition printKeyHex (key : CryptoKey) : Async unit :=
  let! raw := subtle_exportKey key in
  console_log [ArgText "Key (hex):"; ArgText (bufToHex raw)].

Definition strip0x (hex : string) : string :=
  if startsWith hex "0x" then slice 2 hex else hex.

Definition hexToBytes (hex : string) : Result (list Z) :=
  let clean := strip0x hex in
  if negb (String.length clean mod 2 =? 0)%nat
  then Throw (Error "hex string has odd length")
  else
    let out := newUint8Array (String.length clean / 2) in
    Ok (Aes.fillFromHex clean out).

(** [data.length < 12 + tagLengthBits / 8], both sides multiplied by 8 *)
Definition tooShort (data : list Z) (tagLengthBits : Z) : bool :=
  8 * Z.of_nat (List.length data) <? 8 * 12 + tagLengthBits.

(** The [catch] clause of [decryptUtf8AesGcmPacked]; an empty [name] is
    falsy. *)
Definition decryptFailed (e : Exn) : Async (list Z) :=
  let named := negb (String.eqb (exn_name e) EmptyString) in
  console_error [ArgText "[AES-GCM decrypt] failed:";
                 (if named then ArgText (exn_name e) else ArgExn e);
                 ArgExn e] ;;
  throw (Error (if named
                then "AES-GCM decrypt failed: " +++ exn_name e
                       +++ " (likely key/IV/tag/AAD mismatch)"
                else "AES-GCM decrypt failed (likely key/IV/tag/AAD mismatch)")).

End AesV23.

Module AesV2.

Definition encryptUtf8AesGcmPacked (s : list Z) (key : CryptoKey) : Async string :=
  AesV23.printKeyHex key ;;
  let! iv := getRandomValues 12 in
  let pt := TextEncoder_encode s in
  let! ct := subtle_encrypt iv None 128 key pt in
  ret (Aes.bytesToHex (Aes.concat iv ct)).

Definition aesImportRaw16 (raw : Uint8ArrayView) : Async CryptoKey :=
  let view := raw in
  if negb (byteLength view =? 16)%nat
  then throw (Error ("AES-128 key must be 16 bytes, got " +++ toString10 (byteLength view)))
  else subtle_importKey (contents view) true [UsageEncrypt; UsageDecrypt].

Definition aesExportRaw16 : CryptoKey -> Async (list Z) := AesV1.aesExportRaw16.

Definition decryptUtf8AesGcmPacked (packed : string) (key : CryptoKey)
           (aad : option (list Z)) (tagLengthBits : Z) : Async (list Z) :=
  try_catch
    (console_log [ArgText "AES-GCM decrypt:"; ArgText packed] ;;
     AesV23.printKeyHex key ;;
     let! data := lift (AesV23.hexToBytes packed) in
     if AesV23.tooShort data tagLengthBits
     then throw (Error "cipher too short (missing IV or tag)")
     else
       let iv := firstn 12 data in
       let ctAndTag := skipn 12 data in
       let! pt := subtle_decrypt iv aad tagLengthBits key ctAndTag in
       ret (TextDecoder_decode pt))
    AesV23.decryptFailed.

End AesV2.

Module AesV3.

Definition encryptUtf8AesGcmPacked : list Z -> CryptoKey -> Async string :=
  AesV1.encryptUtf8AesGcmPacked.

(** [raw] is an [ArrayBuffer] ([inl]) or a [Uint8Array] ([inr]). *)
Definition aesImportRaw16 (raw : list Z + Uint8ArrayView) : Async CryptoKey :=
  let! ab :=
    match raw with
    | inl buf =>
        if negb (List.length buf =? 16)%nat
        then throw (Error ("AES-128 key must be 16 bytes, got "
                             +++ toString10 (List.length buf)))
        else ret buf
    | inr view =>
        if negb (byteLength view =? 16)%nat
        then throw (Error ("AES-128 key must be 16 bytes, got "
                             +++ toString10 (byteLength view)))
        else ret (Aes.setFrom (newUint8Array 16) (contents view) 0)
    end in
  subtle_importKey ab false [UsageEncrypt; UsageDecrypt].

(** [toArrayBuffer]: the bytes, in a buffer of their own *)
Definition toArrayBuffer (v : list Z) : list Z :=
  Aes.setFrom (newUint8Array (List.length v)) v 0.

Definition decryptUtf8AesGcmPacked (packed : string) (key : CryptoKey)
           (aad : option (list Z)) (tagLengthBits : Z) : Async (list Z) :=
  try_catch
    (let! data := lift (AesV23.hexToBytes packed) in
     if AesV23.tooShort data tagLengthBits
     then throw (Error "cipher too short (missing IV or tag)")
     else
       let ivBytes := firstn 12 data in
       let ctAndTagBytes := skipn 12 data in
       let ivAB := toArrayBuffer ivBytes in
       let ctAndTagAB := toArrayBuffer ctAndTagBytes in
       let aadAB := option_map toArrayBuffer aad in
       let! pt := subtle_decrypt ivAB aadAB tagLengthBits key ctAndTagAB in
       ret (TextDecoder_decode pt))
    AesV23.decryptFailed.

End AesV3.

(** * fhevm/internal/constants.ts and RelayerSDKLoader.ts *)

(** ** More string built-ins *)

(** [s.includes(p)] *)
Fixpoint includes (s p : string) : bool :=
  startsWith s p ||
  match s with
  | EmptyString => false
  | String _ r => includes r p
  end.

(** [s.endsWith(p)] *)
Definition endsWith (s p : string) : bool :=
  (String.length p <=? String.length s)%nat &&
  String.eqb (slice (String.length s - String.length p) s) p.

(** [s.replace(p, r)] for a string pattern: the first occurrence only *)
Fixpoint replaceFirst (s p r : string) : string :=
  if startsWith s p then r +++ slice (String.length p) s
  else match s with
       | EmptyString => EmptyString
       | String c s' => String c (replaceFirst s' p r)
       end.

(** [s.replace(/^\//, "")] *)
Definition dropLeadingSlash (s : string) : string :=
  match s with
  | String "/" r => r
  | _ => s
  end.

(** ** JavaScript values, as far as the SDK's shape is checked *)

#[local] Unset Elimination Schemes.
Inductive JsValue : Type :=
| JsUndefined
| JsNull
| JsBoolean (b : bool)
| JsNumber (n : Z)
| JsString (s : string)
| JsFunction
| JsObject (props : list (string * JsValue)).
#[local] Set Elimination Schemes.

(** [typeof v] *)
Definition typeOf (v : JsValue) : string :=
  match v with
  | JsUndefined => "undefined"
  | JsNull => "object"
  | JsBoolean _ => "boolean"
  | JsNumber _ => "number"
  | JsString _ => "string"
  | JsFunction => "function"
  | JsObject _ => "object"
  end.

(** [name in obj] and [obj[name]] on the properties of an object *)
Fixpoint lookupProp (name : string) (props : list (string * JsValue)) : option JsValue :=
  match props with
  | [] => None
  | (k, v) :: rest => if String.eqb k name then Some v else lookupProp name rest
  end.

(** The parts of a parsed URL that the loader reads *)
Record URLRecord : Type := mkURL {
  url_href : string;
  url_origin : string;
  url_pathname : string;
  url_search : string;
  url_hash : string
}.

Section Loader.

(** [new URL(url, base)] of the platform; [None] when it throws a
    TypeError. *)
Variable URL_new : string -> option string -> option URLRecord.

(** Everything of a [Request] but its URL, and the [init] argument of
    [fetch] *)
Variable RequestInit : Type.

Record Request : Type := mkRequest {
  request_url : string;
  request_init : RequestInit
}.

(** [fetch]'s first argument: [RequestInfo | URL] *)
Inductive FetchInput : Type :=
| InputString (s : string)
| InputURL (u : URLRecord)
| InputRequest (r : Request).

(** [window.fetch]: the platform's own function, or the loader's wrapper
    closed over [basePath] and the function it replaced. *)
Inductive FetchImpl : Type :=
| NativeFetch
| PatchedFetch (basePath : string) (originalFetch : FetchImpl).

(** [WebAssembly.instantiateStreaming], likewise *)
Inductive InstantiateImpl : Type :=
| NativeInstantiate
| PatchedInstantiate (basePath : string) (originalInstantiateStreaming : InstantiateImpl).

(** The browser page, as the loader sees it *)
Record Page : Type := mkPage {
  location_pathname : string;
  location_origin : string;
  document_baseURI : string;
  window_fetch : FetchImpl;
  instantiateStreaming : InstantiateImpl;
  window_relayerSDK : option JsValue;
  script_srcs : list string
}.

(** Where the loader runs: [process.env.NODE_ENV], the [window] (none on
    the server), the console, and what the [trace] function was told. *)
Record Host : Type := mkHost {
  NODE_ENV : string;
  window : option Page;
  host_console : list string;
  host_traced : list string
}.

Definition logLine (line : string) (h : Host) : Host :=
  mkHost (NODE_ENV h) (window h) (host_console h ++ [line]) (host_traced h).

Definition setWindow (page : Page) (h : Host) : Host :=
  mkHost (NODE_ENV h) (Some page) (host_console h) (host_traced h).

(** [trace?.(message)] for each message *)
Definition traceAll (enabled : bool) (messages : list string) (h : Host) : Host :=
  if enabled
  then mkHost (NODE_ENV h) (window h) (host_console h) (host_traced h ++ messages)
  else h.

(** [getBasePath()] *)
Definition getBasePath (h : Host) : string :=
  match window h with
  | None => if String.eqb (NODE_ENV h) "production" then "/farewell" else ""
  | Some page =>
      let pathname := location_pathname page in
      if startsWith pathname "/farewell" then "/farewell" else ""
  end.

Definition getSDKCDNUrl (h : Host) : string :=
  getBasePath h +++ "/relayer-sdk/relayer-sdk-js.umd.cjs".

(** What a call of the wrapper around [fetch] comes to *)
Inductive FetchOutcome : Type :=
| CallNative (input : FetchInput) (init : option RequestInit) (log : list string)
| RejectTypeError (log : list string).

(** The [url] the wrapper reads off its input *)
Definition inputUrl (input : FetchInput) : string :=
  match input with
  | InputString s => s
  | InputURL u => url_href u
  | InputRequest r => request_url r
  end.

(** [url && (url.endsWith(".wasm") || url.includes(".wasm"))] *)
Definition isWasmUrl (url : string) : bool :=
  negb (String.eqb url EmptyString) && (endsWith url ".wasm" || includes url ".wasm").

Inductive PatchStep : Type :=
| Rewrite (input : FetchInput) (line : string)
| PassThrough
| Fail.

(** One call of the wrapper around [fetch], up to the call of
    [originalFetch]. *)
Definition patchedFetchStep (basePath origin baseURI : string) (input : FetchInput)
  : PatchStep :=
  let url := inputUrl input in
  if isWasmUrl url then
    match URL_new url (Some origin) with
    | None => Fail
    | Some urlObj =>
        if startsWith (url_pathname urlObj) "/"
           && negb (startsWith (url_pathname urlObj) basePath)
        then
          let newPath := basePath +++ url_pathname urlObj in
          let newUrl := url_origin urlObj +++ newPath +++ url_search urlObj
                                          +++ url_hash urlObj in
          let line := "[RelayerSDKLoader] Rewriting WASM fetch: " +++ url
                                                                  +++ " -> " +++ newUrl in
          match input with
          | InputRequest r =>
              match URL_new newUrl (Some baseURI) with
              | Some u => Rewrite (InputRequest (mkRequest (url_href u) (request_init r))) line
              | None => Fail
              end
          | InputURL _ =>
              match URL_new newUrl None with
              | Some u => Rewrite (InputURL u) line
              | None => Fail
              end
          | InputString _ => Rewrite (InputString newUrl) line
          end
        else PassThrough
    end
  else PassThrough.

(** A call of [window.fetch(input, init)] on a page with the given
    [location.origin] and base URI; [log] collects the console lines. *)
Fixpoint callFetch (f : FetchImpl) (origin baseURI : string) (input : FetchInput)
         (init : option RequestInit) (log : list string) : FetchOutcome :=
  match f with
  | NativeFetch => CallNative input init log
  | PatchedFetch basePath originalFetch =>
      match patchedFetchStep basePath origin baseURI input with
      | Rewrite input' line =>
          callFetch originalFetch origin baseURI input' init (log ++ [line])
      | PassThrough => callFetch originalFetch origin baseURI input init log
      | Fail => RejectTypeError log
      end
  end.

(** The wrapper around [instantiateStreaming]: the URL it fetches anew
    for a response from [url], if any. *)
Definition patchedInstantiateRefetch (basePath origin url : string) : option string :=
  if isWasmUrl url then
    if negb (includes url basePath) then
      let wasmPath := dropLeadingSlash (replaceFirst url origin "") in
      Some (basePath +++ "/" +++ wasmPath)
    else None
  else None.

(** A [RelayerSDKLoader] instance: its [_wasmPatchApplied] field and
    whether a [trace] function was given. *)
Record RelayerSDKLoader : Type := mkLoader {
  wasmPatchApplied : bool;
  has_trace : bool
}.

(** [new RelayerSDKLoader(options)] *)
Definition newLoader (trace : bool) : RelayerSDKLoader := mkLoader false trace.

(** [_patchWasmLoading()], called where there is a [window] *)
Definition patchWasmLoading (this : RelayerSDKLoader) (h : Host)
  : RelayerSDKLoader * Host :=
  if wasmPatchApplied this then (this, h)
  else
    let this := mkLoader true (has_trace this) in
    let basePath := getBasePath h in
    if String.eqb basePath EmptyString then (this, h)
    else
      match window h with
      | None => (this, h)
      | Some page =>
          (this,
           setWindow (mkPage (location_pathname page) (location_origin page)
                             (document_baseURI page)
                             (PatchedFetch basePath (window_fetch page))
                             (PatchedInstantiate basePath (instantiateStreaming page))
                             (window_relayerSDK page) (script_srcs page))
                     h)
      end.

(** [objHasProperty(obj, propertyName, propertyType, trace)]: the answer
    and what is traced *)
Definition objHasProperty (obj : JsValue) (propertyName propertyType : string)
  : bool * list string :=
  match obj with
  | JsObject props =>
      match lookupProp propertyName props with
      | None => (false, ["RelayerSDKLoader: missing " +++ propertyName +++ "."])
      | Some value =>
          match value with
          | JsNull | JsUndefined =>
              (false, ["RelayerSDKLoader: " +++ propertyName +++ " is null or undefined."])
          | _ =>
              if negb (String.eqb (typeOf value) propertyType)
              then (false, ["RelayerSDKLoader: " +++ propertyName +++ " is not a "
                                                 +++ propertyType +++ "."])
              else (true, [])
          end
      end
  | _ => (false, [])
  end.

(** [isFhevmRelayerSDKType(o, trace)] *)
Definition isFhevmRelayerSDKType (o : JsValue) : bool * list string :=
  match o with
  | JsUndefined => (false, ["RelayerSDKLoader: relayerSDK is undefined"])
  | JsNull => (false, ["RelayerSDKLoader: relayerSDK is null"])
  | JsObject props =>
      let '(ok1, t1) := objHasProperty o "initSDK" "function" in
      if negb ok1 then (false, t1 ++ ["RelayerSDKLoader: relayerSDK.initSDK is invalid"])
      else
        let '(ok2, t2) := objHasProperty o "createInstance" "function" in
        if negb ok2
        then (false, t2 ++ ["RelayerSDKLoader: relayerSDK.createInstance is invalid"])
        else
          let '(ok3, t3) := objHasProperty o "SepoliaConfig" "object" in
          if negb ok3
          then (false, t3 ++ ["RelayerSDKLoader: relayerSDK.SepoliaConfig is invalid"])
          else
            match lookupProp "__initialized__" props with
            | Some (JsBoolean _) | None => (true, [])
            | Some _ => (false, ["RelayerSDKLoader: relayerSDK.__initialized__ is invalid"])
            end
  | _ => (false, ["RelayerSDKLoader: relayerSDK is not an object"])
  end.

(** [isFhevmWindowType(win, trace)]; the inner check is made without
    [trace]. *)
Definition isFhevmWindowType (win : option Page) : bool * list string :=
  match win with
  | None => (false, ["RelayerSDKLoader: window object is undefined"])
  | Some page =>
      match window_relayerSDK page with
      | None => (false, ["RelayerSDKLoader: window does not contain 'relayerSDK' property"])
      | Some sdk => (fst (isFhevmRelayerSDKType sdk), [])
      end
  end.

(** [isLoaded()] *)
Definition isLoaded (this : RelayerSDKLoader) (h : Host) : Result bool * Host :=
  match window h with
  | None => (Throw (Error "RelayerSDKLoader: can only be used in the browser."), h)
  | Some _ =>
      let '(ok, messages) := isFhevmWindowType (window h) in
      (Ok ok, traceAll (has_trace this) messages h)
  end.

(** How a call of [load()] ends, before any event of an injected script *)
Inductive LoadResult : Type :=
| Resolved
| Rejected (message : string)
| Thrown (message : string)
| ScriptPending (src : string).

(** [load()] *)
Definition load (this : RelayerSDKLoader) (h : Host)
  : LoadResult * RelayerSDKLoader * Host :=
  let h := logLine "[RelayerSDKLoader] load..." h in
  match window h with
  | None =>
      (Rejected "RelayerSDKLoader: can only be used in the browser.", this,
       logLine "[RelayerSDKLoader] window === undefined" h)
  | Some _ =>
      let '(this, h) := patchWasmLoading this h in
      match window h with
      | None => (Rejected "RelayerSDKLoader: can only be used in the browser.", this, h)
      | Some page =>
          match window_relayerSDK page with
          | Some sdk =>
              let '(ok, messages) := isFhevmRelayerSDKType sdk in
              let h := traceAll (has_trace this) messages h in
              if negb ok
              then (Thrown "RelayerSDKLoader: Unable to load FHEVM Relayer SDK", this,
                    logLine "[RelayerSDKLoader] window.relayerSDK === undefined" h)
              else (Resolved, this, h)
          | None =>
              let sdkUrl := getSDKCDNUrl h in
              if existsb (String.eqb sdkUrl) (script_srcs page)
              then
                let '(ok, messages) := isFhevmWindowType (window h) in
                let h := traceAll (has_trace this) messages h in
                if negb ok
                then (Rejected "RelayerSDKLoader: window object does not contain a valid relayerSDK object.",
                      this, h)
                else (Resolved, this, h)
              else
                let h := logLine "[RelayerSDKLoader] add script to DOM..." h in
                let h := setWindow (mkPage (location_pathname page) (location_origin page)
                                           (document_baseURI page)
                                           (window_fetch page) (instantiateStreaming page)
                                           (window_relayerSDK page)
                                           (script_srcs page ++ [sdkUrl]))
                                   h in
                (ScriptPending sdkUrl, this, logLine "[RelayerSDKLoader] script added!" h)
          end
      end
  end.

(** The injected script's [onload] handler settles the promise. *)
Definition scriptOnLoad (this : RelayerSDKLoader) (sdkUrl : string) (h : Host)
  : LoadResult * Host :=
  let '(ok, messages) := isFhevmWindowType (window h) in
  let h := traceAll (has_trace this) messages h in
  if negb ok
  then (Rejected ("RelayerSDKLoader: Relayer SDK script has been successfully loaded from "
                    +++ sdkUrl +++ ", however, the window.relayerSDK object is invalid."),
        logLine "[RelayerSDKLoader] script onload FAILED..." h)
  else (Resolved, h).

(** The injected script's [onerror] handler rejects it. *)
Definition scriptOnError (sdkUrl : string) (h : Host) : LoadResult * Host :=
  (Rejected ("RelayerSDKLoader: Failed to load Relayer SDK from " +++ sdkUrl),
   logLine "[RelayerSDKLoader] script onerror... " h).

(** The number of loader wrappers around [fetch] and around
    [instantiateStreaming] *)
Fixpoint fetchWrappers (f : FetchImpl) : nat :=
  match f with
  | NativeFetch => O
  | PatchedFetch _ g => S (fetchWrappers g)
  end.

Fixpoint instantiateWrappers (f : InstantiateImpl) : nat :=
  match f with
  | NativeInstantiate => O
  | PatchedInstantiate _ g => S (instantiateWrappers g)
  end.

Definition pageFetchWrappers (h : Host) : nat :=
  match window h with
  | Some page => fetchWrappers (window_fetch page)
  | None => O
  end.

Definition pageInstantiateWrappers (h : Host) : nat :=
  match window h with
  | Some page => instantiateWrappers (instantiateStreaming page)
  | None => O
  end.

(** A page session: [load()] is called on the loader at each listed
    index of [loaders], in turn. *)
Fixpoint session (calls : list nat) (loaders : list RelayerSDKLoader) (h : Host)
  : list RelayerSDKLoader * Host :=
  match calls with
  | [] => (loaders, h)
  | i :: rest =>
      match nth_error loaders i with
      | None => session rest loaders h
      | Some this =>
          let '(_, this', h') := load this h in
          session rest (firstn i loaders ++ this' :: skipn (S i) loaders) h'
      end
  end.

End Loader.

Arguments InputString {RequestInit} s.
Arguments InputURL {RequestInit} u.
Arguments CallNative {RequestInit} input init log.
Arguments RejectTypeError {RequestInit} log.

(** A reading of path-absolute references (a path starting with one
    slash, then an optional query and fragment) against a base origin,
    on which nothing needs normalising; it stands for the platform's
    parser where a result is evaluated on such a reference. *)
Fixpoint splitAt (stop : ascii -> bool) (s : string) : string * string :=
  match s with
  | EmptyString => (EmptyString, EmptyString)
  | String c r =>
      if stop c then (EmptyString, s)
      else let '(a, b) := splitAt stop r in (String c a, b)
  end.

Definition pathAbsoluteURL (url : string) (base : option string) : option URLRecord :=
  match url, base with
  | String "/" _, Some origin =>
      let '(path, rest) := splitAt (fun c => Ascii.eqb c "?" || Ascii.eqb c "#") url in
      let '(query, fragment) := splitAt (fun c => Ascii.eqb c "#") rest in
      Some (mkURL (origin +++ url) origin path query fragment)
  | _, _ => None
  end.

(** The loaders that have not yet run [_patchWasmLoading] *)
Definition unpatched (loaders : list RelayerSDKLoader) : nat :=
  List.length (filter (fun l => negb (wasmPatchApplied l)) loaders).

(** * Notions used to state the results *)

(** The two lowercase hex digits of a byte *)
Definition hex2 (x : Z) : string := padStart0 2 (toString16 x).

(** The hex digits of a byte sequence, two per byte *)
Fixpoint hexPairs (b : list Z) : string :=
  match b with
  | [] => EmptyString
  | x :: r => hex2 x +++ hexPairs r
  end.

(** A byte is written as two lowercase digits that [parseInt] reads back. *)
Definition byte_hex_ok (x : Z) : bool :=
  match hex2 x with
  | String c1 (String c2 EmptyString) =>
      isLowerHex c1 && isLowerHex c2 &&
      match parseInt16 (hex2 x) with
      | Some v => v =? x
      | None => false
      end
  | _ => false
  end.

Definition isDecryptOp (op : SubtleOp) : bool :=
  match op with
  | OpDecrypt => true
  | _ => false
  end.

(** The string begins with U+FEFF. *)
Definition startsWithBOM (s : list Z) : bool :=
  match s with
  | u :: _ => u =? 65279
  | [] => false
  end.

(** A Unicode scalar value *)
Definition isScalar (c : Z) : bool :=
  (0 <=? c) && (c <? 1114112) && negb ((55296 <=? c) && (c <=? 57343)).

(** ** Proof automation *)

(** A fact about one character, checked on all 256 of them *)
Ltac by_ascii c :=
  destruct c as [[] [] [] [] [] [] [] []]; try reflexivity; try discriminate.

(** Decide the integer comparisons of the goal that linear arithmetic
    settles. *)
Ltac ztest :=
  repeat match goal with
         | |- context [?a <=? ?b] =>
             first [ rewrite (proj2 (Z.leb_le a b)) by lia
                   | rewrite (proj2 (Z.leb_gt a b)) by lia ]
         | |- context [?a <? ?b] =>
             first [ rewrite (proj2 (Z.ltb_lt a b)) by lia
                   | rewrite (proj2 (Z.ltb_ge a b)) by lia ]
         | |- context [?a =? ?b] =>
             first [ rewrite (proj2 (Z.eqb_eq a b)) by lia
                   | rewrite (proj2 (Z.eqb_neq a b)) by lia ]
         end;
  cbn [andb orb negb].


(** * app/page.tsx: the key-share inputs of the [Farewell] component *)

(** [v.replace(/[^0-9a-f]/g, "")] *)
Fixpoint keepLowerHex (v : string) : string :=
  match v with
  | EmptyString => EmptyString
  | String c r => if isLowerHex c then String c (keepLowerHex r) else keepLowerHex r
  end.

Module FarewellPage.

(** The component state behind the two inputs, [sHex] and [sPrimeHex] *)
Record KeyShares : Type := mkKeyShares {
  sHex : string;
  sPrimeHex : string
}.

(** [useState("0x")] for both *)
Definition initialShares : KeyShares := mkKeyShares "0x" "0x".

Definition setSHex (v : string) (st : KeyShares) : KeyShares :=
  mkKeyShares v (sPrimeHex st).

Definition setSPrimeHex (v : string) (st : KeyShares) : KeyShares :=
  mkKeyShares (sHex st) v.

Definition handleRandSPrime (st : KeyShares) : Async KeyShares :=
  let! r := Bit128.randomHex16 in
  ret (setSPrimeHex r st).

Definition handleRandS (st : KeyShares) : Async KeyShares :=
  let! r := Bit128.randomHex16 in
  ret (setSHex r st).

(** The memoised [xorHex]: a function of the two shares; whatever is
    thrown on the way gives ["0x"]. *)
Definition xorHex (st : KeyShares) : string :=
  match (let? a := Bit128.hex16ToBigint (sPrimeHex st) in
         let? b := Bit128.hex16ToBigint (sHex st) in
         Bit128.bigintToHex16 (Z.lxor a b)) with
  | Ok r => r
  | Throw _ => "0x"
  end.

(** [handleSChange(e)], with [value] for [e.target.value] *)
Definition handleSChange (value : string) (st : KeyShares) : KeyShares :=
  let v := toLowerCase (trim value) in
  let v := if negb (startsWith v "0x") then "0x" +++ v else v in
  let v := keepLowerHex v in
  let v := if (64 <? String.length v)%nat then take 64 v else v in
  setSHex ("0x" +++ v) st.

Definition handleSPrimeChange (value : string) (st : KeyShares) : KeyShares :=
  let v := toLowerCase (trim value) in
  let v := if negb (startsWith v "0x") then "0x" +++ v else v in
  let v := keepLowerHex v in
  let v := if (64 <? String.length v)%nat then take 64 v else v in
  setSPrimeHex ("0x" +++ v) st.

Definition clampHex128Input (raw : string) : string :=
  let v := toLowerCase (trim raw) in
  let v := if startsWith v "0x" then slice 2 v else v in
  let v := keepLowerHex v in
  let v := if (64 <? String.length v)%nat then take 64 v else v in
  "0x" +++ v.

(** [handlePasteClamp(e, setter)], with [text] for the clipboard's text;
    the default insertion is prevented, so that the setter alone changes
    the state. *)
Definition handlePasteClamp (text : string)
           (setter : string -> KeyShares -> KeyShares) (st : KeyShares) : KeyShares :=
  setter (clampHex128Input text) st.

End FarewellPage.

(** * next.config.js and app/layout.tsx: the base path at build time *)

Module NextConfig.

Record Config : Type := mkConfig {
  output : string;
  distDir : string;
  images_unoptimized : bool;
  basePath : string;
  assetPrefix : string;
  trailingSlash : bool
}.

(** [process.env.NODE_ENV === 'production'] *)
Definition isProd (node_env : string) : bool := String.eqb node_env "production".

Definition nextConfig (node_env : string) : Config :=
  mkConfig "export" "out" true
           (if isProd node_env then "/farewell" else "")
           (if isProd node_env then "/farewell/" else "")
           true.

End NextConfig.

Module Layout.

Definition prefix (node_env : string) : string :=
  if String.eqb node_env "production" then "/farewell" else "".

End Layout.

(** A reading of references on the page's own origin, either
    path-absolute or written out with the origin in front; it stands for
    the platform's parser where a result is evaluated on such a
    reference. *)
Definition sameOriginURL (url : string) (base : option string) : option URLRecord :=
  match base with
  | Some origin =>
      if startsWith url origin
      then pathAbsoluteURL (slice (String.length origin) url) base
      else pathAbsoluteURL url base
  | None => None
  end.

(** constants.ts: the constant [SDK_CDN_URL], evaluated when the module
    is loaded on the host [h] *)
Definition SDK_CDN_URL (h : Host) : string :=
  match window h with
  | Some _ => getSDKCDNUrl h
  | None => "/relayer-sdk/relayer-sdk-js.umd.cjs"
  end.

(** The two digits of a byte, read as a number in base 16, are the byte. *)
Definition byte_digits_ok (x : Z) : bool :=
  match parseDigits 16 0 (hex2 x) with
  | Some v => v =? x
  | None => false
  end.

(** The bytes that [hexToBytes] reads off a text, two characters at a
    time; a last odd character is left out. *)
Fixpoint decodePairs (h : string) : list Z :=
  match h with
  | String c1 (String c2 r) =>
      toUint8 (parseInt16 (String c1 (String c2 EmptyString))) :: decodePairs r
  | _ => []
  end.

(** The hexadecimal digits of either case *)
Definition hexChars : list ascii :=
  list_ascii_of_string "0123456789abcdefABCDEF".

(** Two hex digits are read as a byte whose hex text is the two digits
    in lowercase. *)
Definition pair_ok (c1 c2 : ascii) : bool :=
  String.eqb (hex2 (toUint8 (parseInt16 (String c1 (String c2 EmptyString)))))
             (String (lowerChar c1) (String (lowerChar c2) EmptyString)).

(** * Facts about the string built-ins *)

Lemma append_assoc_s (a b c : string) : (a +++ b) +++ c = a +++ (b +++ c).
Proof. induction a; simpl; congruence. Qed.

Lemma length_append (a b : string) :
  String.length (a +++ b) = (String.length a + String.length b)%nat.
Proof. induction a; simpl; congruence. Qed.

Lemma length_repeatChar c n : String.length (repeatChar c n) = n.
Proof. induction n; simpl; congruence. Qed.

Lemma forallb_string_append p a b :
  forallb_string p (a +++ b) = forallb_string p a && forallb_string p b.
Proof. induction a; simpl; [reflexivity|]. rewrite IHa, andb_assoc. reflexivity. Qed.

Lemma forallb_string_impl (p q : ascii -> bool) s :
  (forall c, p c = true -> q c = true) ->
  forallb_string p s = true -> forallb_string q s = true.
Proof.
  intros Hpq. induction s; simpl; [reflexivity|].
  rewrite !andb_true_iff. intros [? ?]. auto.
Qed.

Lemma isHexChar_not_space c : isHexChar c = true -> isWhiteSpace c = false.
Proof. by_ascii c. Qed.

Lemma isHexChar_lower c : isHexChar c = true -> isLowerHex (lowerChar c) = true.
Proof. by_ascii c. Qed.

Lemma isHexChar_lower_value c :
  isHexChar c = true -> hexValue (lowerChar c) = hexValue c.
Proof. by_ascii c. Qed.

Lemma isLowerHex_isHexChar c : isLowerHex c = true -> isHexChar c = true.
Proof. by_ascii c. Qed.

Lemma isLowerHex_lower c : isLowerHex c = true -> lowerChar c = c.
Proof. by_ascii c. Qed.

Lemma isLowerHex_not_x c : isLowerHex c = true -> Ascii.eqb "x" c = false.
Proof. by_ascii c. Qed.

Lemma hexValue_range c d : hexValue c = Some d -> 0 <= d < 16.
Proof.
  unfold hexValue. intros H.
  repeat match type of H with
         | (if ?b then _ else _) = _ => destruct b eqn:?
         end; inversion H; subst; lia.
Qed.

Lemma hexDigit_cases d :
  0 <= d < 16 ->
  hexValue (hexDigit d) = Some d /\ isLowerHex (hexDigit d) = true.
Proof.
  intros H.
  assert (d = 0 \/ d = 1 \/ d = 2 \/ d = 3 \/ d = 4 \/ d = 5 \/ d = 6 \/ d = 7 \/
          d = 8 \/ d = 9 \/ d = 10 \/ d = 11 \/ d = 12 \/ d = 13 \/ d = 14 \/ d = 15)
    as Hd by lia.
  repeat (destruct Hd as [-> | Hd]; [split; reflexivity|]).
  subst; split; reflexivity.
Qed.

Lemma trimStart_id c r : isWhiteSpace c = false -> trimStart (String c r) = String c r.
Proof. intros H. simpl. rewrite H. reflexivity. Qed.

Lemma trimEnd_no_space s :
  forallb_string (fun c => negb (isWhiteSpace c)) s = true -> trimEnd s = s.
Proof.
  induction s as [|c r IH]; simpl; [reflexivity|].
  rewrite andb_true_iff, negb_true_iff. intros [Hc Hr].
  rewrite (IH Hr). destruct r; [rewrite Hc|]; reflexivity.
Qed.

Lemma trim_no_space s :
  forallb_string (fun c => negb (isWhiteSpace c)) s = true -> trim s = s.
Proof.
  intros H. unfold trim.
  assert (trimStart s = s) as ->.
  { destruct s; [reflexivity|]. simpl in H.
    apply andb_true_iff in H as [H _]. apply negb_true_iff in H.
    apply trimStart_id; assumption. }
  apply trimEnd_no_space; assumption.
Qed.

Lemma toLowerCase_fixed s :
  forallb_string (fun c => Ascii.eqb (lowerChar c) c) s = true -> toLowerCase s = s.
Proof.
  induction s as [|c r IH]; simpl; [reflexivity|].
  rewrite andb_true_iff. intros [Hc Hr].
  apply Ascii.eqb_eq in Hc. rewrite Hc, (IH Hr). reflexivity.
Qed.

Lemma toLowerCase_length s : String.length (toLowerCase s) = String.length s.
Proof. induction s; simpl; congruence. Qed.

Lemma toLowerCase_hex s :
  forallb_string isHexChar s = true ->
  forallb_string isLowerHex (toLowerCase s) = true.
Proof.
  induction s as [|c r IH]; simpl; [reflexivity|].
  rewrite !andb_true_iff. intros [Hc Hr]. split; [apply isHexChar_lower|]; auto.
Qed.

Lemma parseDigits16_lower s : forall acc,
  forallb_string isHexChar s = true ->
  parseDigits 16 acc (toLowerCase s) = parseDigits 16 acc s.
Proof.
  induction s as [|c r IH]; simpl; intros acc; [reflexivity|].
  rewrite andb_true_iff. intros [Hc Hr].
  rewrite (isHexChar_lower_value _ Hc).
  destruct (hexValue c); [|reflexivity].
  destruct (z <? 16); [apply IH; assumption | reflexivity].
Qed.

Lemma parseDigits_append radix a b : forall acc,
  parseDigits radix acc (a +++ b) =
  match parseDigits radix acc a with
  | Some acc' => parseDigits radix acc' b
  | None => None
  end.
Proof.
  induction a as [|c r IH]; simpl; intros acc; [reflexivity|].
  destruct (hexValue c); [|reflexivity].
  destruct (z <? radix); [apply IH | reflexivity].
Qed.

Lemma parseDigits_zeros n s :
  parseDigits 16 0 (repeatChar "0" n +++ s) = parseDigits 16 0 s.
Proof. induction n; simpl; [reflexivity | assumption]. Qed.

(** Reading hexadecimal digits never fails and stays below [16 ^ length]. *)
Lemma parseDigits16_hex s : forall acc,
  0 <= acc ->
  forallb_string isHexChar s = true ->
  exists v, parseDigits 16 acc s = Some v /\
            acc * 16 ^ Z.of_nat (String.length s) <= v
              < (acc + 1) * 16 ^ Z.of_nat (String.length s).
Proof.
  induction s as [|c r IH]; intros acc Hacc.
  - intros _. exists acc. simpl. split; [reflexivity | lia].
  - cbn [forallb_string parseDigits String.length]. rewrite andb_true_iff.
    intros [Hc Hr]. unfold isHexChar in Hc.
    destruct (hexValue c) as [d|] eqn:Hd; [|discriminate].
    pose proof (hexValue_range _ _ Hd) as Hrange.
    replace (d <? 16) with true by (symmetry; apply Z.ltb_lt; lia).
    destruct (IH (acc * 16 + d) ltac:(lia) Hr) as (v & Hv & Hb).
    exists v. split; [assumption|].
    rewrite Nat2Z.inj_succ, Z.pow_succ_r by lia.
    set (p := 16 ^ Z.of_nat (String.length r)) in *.
    assert (0 < p) by (apply Z.pow_pos_nonneg; lia).
    nia.
Qed.

(** ** [toString(16)] *)

Lemma digits16_S f x :
  digits16 (S f) x =
  if x <? 16 then String (hexDigit x) EmptyString
  else digits16 f (x / 16) +++ String (hexDigit (x mod 16)) EmptyString.
Proof. reflexivity. Qed.

Lemma digits16_spec : forall fuel x,
  0 <= x < 16 ^ Z.of_nat (S fuel) ->
  parseDigits 16 0 (digits16 (S fuel) x) = Some x /\
  forallb_string isLowerHex (digits16 (S fuel) x) = true /\
  (1 <= String.length (digits16 (S fuel) x))%nat /\
  forall n, x < 16 ^ Z.of_nat (S n) ->
            (String.length (digits16 (S fuel) x) <= S n)%nat.
Proof.
  induction fuel as [|f IH]; intros x Hx; rewrite digits16_S;
    destruct (x <? 16) eqn:Hlt.
  1, 3: apply Z.ltb_lt in Hlt;
    destruct (hexDigit_cases x ltac:(lia)) as [Hv Hl];
    cbn [parseDigits forallb_string String.length]; rewrite Hv, Hl;
    replace (x <? 16) with true by (symmetry; apply Z.ltb_lt; lia);
    repeat split; try reflexivity; intros; lia.
  - apply Z.ltb_ge in Hlt. simpl in Hx. lia.
  - apply Z.ltb_ge in Hlt.
    rewrite Nat2Z.inj_succ, Z.pow_succ_r in Hx by lia.
    assert (0 <= x / 16 < 16 ^ Z.of_nat (S f)) as Hq by dlia.
    destruct (IH _ Hq) as (Hp & Hh & Hl1 & Hlen).
    destruct (hexDigit_cases (x mod 16) ltac:(dlia)) as [Hv Hl].
    rewrite parseDigits_append, Hp, forallb_string_append, Hh, length_append.
    cbn [parseDigits forallb_string String.length]. rewrite Hv, Hl.
    replace (x mod 16 <? 16) with true by (symmetry; apply Z.ltb_lt; dlia).
    repeat split.
    + f_equal. dlia.
    + lia.
    + intros n Hn. destruct n as [|n].
      { simpl in Hn. lia. }
      rewrite Nat2Z.inj_succ, Z.pow_succ_r in Hn by lia.
      assert (x / 16 < 16 ^ Z.of_nat (S n)) as Hn' by dlia.
      specialize (Hlen n Hn'). lia.
Qed.

Lemma digitFuel_enough x : 0 <= x -> 0 <= x < 16 ^ Z.of_nat (digitFuel x).
Proof.
  intros Hx. split; [assumption|]. unfold digitFuel.
  rewrite Nat2Z.inj_succ, Z2Nat.id by apply Z.log2_nonneg.
  destruct (Z.eq_dec x 0) as [->|Hn].
  - simpl. lia.
  - pose proof (Z.log2_spec x ltac:(lia)) as [_ Hlt].
    eapply Z.lt_le_trans; [exact Hlt|].
    pose proof (Z.log2_nonneg x).
    apply Z.pow_le_mono_l. lia.
Qed.

Lemma toString16_spec x n :
  0 <= x < 16 ^ Z.of_nat (S n) ->
  parseDigits 16 0 (toString16 x) = Some x /\
  forallb_string isLowerHex (toString16 x) = true /\
  (1 <= String.length (toString16 x) <= S n)%nat.
Proof.
  intros [H0 Hn]. unfold toString16.
  replace (x <? 0) with false by (symmetry; apply Z.ltb_ge; lia).
  destruct (digits16_spec _ _ (digitFuel_enough x H0)) as (Hp & Hh & Hl1 & Hlen).
  repeat split; auto.
Qed.

(** * Bit128: the hex codec *)

Lemma mask_value : BigInt_of_string Bit128.mask_literal = Ok (Z.ones 128).
Proof. reflexivity. Qed.

Lemma lowerHex_plain s :
  forallb_string isLowerHex s = true ->
  forallb_string (fun c => negb (isWhiteSpace c)) s = true /\
  forallb_string (fun c => Ascii.eqb (lowerChar c) c) s = true.
Proof.
  intros H. split; refine (forallb_string_impl _ _ _ _ H); intros c Hc.
  - rewrite (isHexChar_not_space _ (isLowerHex_isHexChar _ Hc)). reflexivity.
  - rewrite (isLowerHex_lower _ Hc). apply Ascii.eqb_refl.
Qed.

(** [BigInt("0x" + s)] on a non-empty run of lowercase hex digits *)
Lemma BigInt_of_hex s :
  s <> EmptyString ->
  forallb_string isLowerHex s = true ->
  exists v, parseDigits 16 0 s = Some v /\
            0 <= v < 16 ^ Z.of_nat (String.length s) /\
            BigInt_of_string ("0x" +++ s) = Ok v.
Proof.
  intros Hne Hs.
  destruct (parseDigits16_hex s 0 ltac:(lia)
              (forallb_string_impl _ _ _ isLowerHex_isHexChar Hs)) as (v & Hv & Hb).
  exists v. split; [assumption|]. split; [lia|].
  unfold BigInt_of_string.
  destruct (lowerHex_plain s Hs) as [Hws _].
  rewrite (trim_no_space ("0x" +++ s)) by (simpl; exact Hws).
  simpl. destruct s; [congruence|]. rewrite Hv. reflexivity.
Qed.

Lemma hex16ToBigint_body hex :
  Bit128.hex16ToBigint hex =
  let s := Bit128.body hex in
  match s with
  | EmptyString => Ok 0
  | _ =>
      if negb (forallb_string isLowerHex s) then Throw (Error "Invalid hex")
      else if (32 <? String.length s)%nat
           then Throw (Error "Too many hex digits for 128-bit")
           else match parseDigits 16 0 s with
                | Some v => Ok v
                | None => Throw (Error "unreachable")
                end
  end.
Proof.
  unfold Bit128.hex16ToBigint. fold (Bit128.body hex). cbv zeta.
  destruct (Bit128.body hex) as [|c r]; [reflexivity|].
  set (s := String c r).
  change (String.length s =? 0)%nat with false. cbv iota.
  change (test_lower_hex s) with (forallb_string isLowerHex s).
  destruct (forallb_string isLowerHex s) eqn:Hs; [|reflexivity]. cbn [negb].
  destruct (32 <? String.length s)%nat eqn:Hlen; [reflexivity|].
  apply Nat.ltb_ge in Hlen.
  destruct (BigInt_of_hex s ltac:(discriminate) Hs) as (v & Hv & Hb & HB).
  rewrite HB, Hv, mask_value. cbn [rbind]. f_equal.
  rewrite Z.land_ones by lia. apply Z.mod_small.
  split; [lia|]. eapply Z.lt_le_trans; [apply Hb|].
  change (2 ^ 128) with (16 ^ 32). apply Z.pow_le_mono_r; lia.
Qed.

Lemma body_plain s :
  forallb_string isLowerHex s = true -> Bit128.body s = s.
Proof.
  intros Hs. destruct (lowerHex_plain s Hs) as [Hws Hlow].
  unfold Bit128.body. rewrite (trim_no_space _ Hws), (toLowerCase_fixed _ Hlow).
  destruct s as [|a [|b r]]; [reflexivity | |].
  { cbn [startsWith]. rewrite andb_false_r. reflexivity. }
  simpl in Hs. apply andb_true_iff in Hs as [_ Hs]. apply andb_true_iff in Hs as [Hb _].
  cbn [startsWith]. rewrite (isLowerHex_not_x _ Hb), andb_false_r. reflexivity.
Qed.

Lemma body_0x s :
  forallb_string isLowerHex s = true -> Bit128.body ("0x" +++ s) = s.
Proof.
  intros Hs. destruct (lowerHex_plain s Hs) as [Hws Hlow].
  unfold Bit128.body.
  rewrite (trim_no_space ("0x" +++ s)) by (simpl; exact Hws).
  rewrite (toLowerCase_fixed ("0x" +++ s)) by (simpl; exact Hlow).
  reflexivity.
Qed.

Lemma lowerHex_zeros n : forallb_string isLowerHex (repeatChar "0" n) = true.
Proof. induction n; simpl; auto. Qed.

Lemma hex16ToBigint_digits d v :
  forallb_string isLowerHex d = true ->
  (1 <= String.length d <= 32)%nat ->
  parseDigits 16 0 d = Some v ->
  Bit128.hex16ToBigint d = Ok v /\ Bit128.hex16ToBigint ("0x" +++ d) = Ok v.
Proof.
  intros Hd Hlen Hp.
  rewrite !hex16ToBigint_body, (body_0x _ Hd), (body_plain _ Hd). cbv zeta.
  destruct d as [|c r]; [simpl in Hlen; lia|].
  set (s := String c r) in *. rewrite Hd, Hp.
  replace (32 <? String.length s)%nat with false by (symmetry; apply Nat.ltb_ge; lia).
  split; reflexivity.
Qed.

(** C5.  For every integer [x], [bigintToHex16 x] is ["0x"] followed by
    exactly 32 lowercase hex digits, namely [(x mod 2^128).toString(16)]
    left-padded with zeros, and [hex16ToBigint] reads it back as
    [x mod 2^128], so as [x] itself when [0 <= x < 2^128]. *)
Theorem bigintToHex16_hex16ToBigint_roundtrip (x : Z) :
  exists digits,
    Bit128.bigintToHex16 x = Ok ("0x" +++ digits) /\
    digits = padStart0 32 (toString16 (x mod 2 ^ 128)) /\
    String.length digits = 32%nat /\
    forallb_string isLowerHex digits = true /\
    Bit128.hex16ToBigint ("0x" +++ digits) = Ok (x mod 2 ^ 128) /\
    rbind (Bit128.bigintToHex16 x) Bit128.hex16ToBigint = Ok (x mod 2 ^ 128) /\
    (0 <= x < 2 ^ 128 ->
     rbind (Bit128.bigintToHex16 x) Bit128.hex16ToBigint = Ok x).
Proof.
  set (y := x mod 2 ^ 128).
  assert (0 <= y < 16 ^ Z.of_nat 32) as Hy
      by (subst y; change (16 ^ Z.of_nat 32) with (2 ^ 128); apply Z.mod_pos_bound; lia).
  destruct (toString16_spec y 31 Hy) as (Hp & Hh & Hl).
  assert (Bit128.bigintToHex16 x = Ok ("0x" +++ padStart0 32 (toString16 y))) as Hfmt.
  { unfold Bit128.bigintToHex16. rewrite mask_value. cbn [rbind].
    rewrite Z.land_ones by lia. fold y. unfold padStart0.
    destruct (String.length (toString16 y) <? 32)%nat eqn:Hlt; [reflexivity|].
    apply Nat.ltb_ge in Hlt.
    replace (32 - String.length (toString16 y))%nat with 0%nat by lia. reflexivity. }
  assert (forallb_string isLowerHex (padStart0 32 (toString16 y)) = true) as Hhex.
  { unfold padStart0. rewrite forallb_string_append, lowerHex_zeros, Hh. reflexivity. }
  assert (String.length (padStart0 32 (toString16 y)) = 32%nat) as Hlen.
  { unfold padStart0. rewrite length_append, length_repeatChar. lia. }
  assert (Bit128.hex16ToBigint ("0x" +++ padStart0 32 (toString16 y)) = Ok y) as Hback.
  { apply hex16ToBigint_digits; [assumption | lia |].
    unfold padStart0. rewrite parseDigits_zeros. exact Hp. }
  exists (padStart0 32 (toString16 y)).
  repeat split; try assumption.
  - rewrite Hfmt. exact Hback.
  - intros Hx. rewrite Hfmt. cbn [rbind]. rewrite Hback. subst y.
    rewrite Z.mod_small by assumption. reflexivity.
Qed.

Lemma bigintToHex16_hex16ToBigint_roundtrip_witness :
  rbind (Bit128.bigintToHex16 (2 ^ 127 + 5)) Bit128.hex16ToBigint = Ok (2 ^ 127 + 5).
Proof.
  destruct (bigintToHex16_hex16ToBigint_roundtrip (2 ^ 127 + 5))
    as (d & _ & _ & _ & _ & _ & _ & H).
  apply H. split; [vm_compute; discriminate | reflexivity].
Defined.

(** ** White space around the digits *)

Lemma trimStart_spaces ws s :
  forallb_string isWhiteSpace ws = true -> trimStart (ws +++ s) = trimStart s.
Proof.
  induction ws as [|c r IH]; simpl; [reflexivity|].
  rewrite andb_true_iff. intros [Hc Hr]. rewrite Hc. auto.
Qed.

Lemma trimEnd_spaces ws :
  forallb_string isWhiteSpace ws = true -> trimEnd ws = EmptyString.
Proof.
  induction ws as [|c r IH]; simpl; [reflexivity|].
  rewrite andb_true_iff. intros [Hc Hr]. rewrite (IH Hr), Hc. reflexivity.
Qed.

Lemma trimEnd_append_spaces s ws :
  forallb_string isWhiteSpace ws = true -> trimEnd (s +++ ws) = trimEnd s.
Proof.
  intros Hws. induction s as [|c r IH]; simpl.
  - apply trimEnd_spaces; assumption.
  - rewrite IH. reflexivity.
Qed.

Lemma trimStart_append s t :
  trimStart (s +++ t) =
  if forallb_string isWhiteSpace s then trimStart t else trimStart s +++ t.
Proof.
  induction s as [|c r IH]; simpl; [reflexivity|].
  destruct (isWhiteSpace c); simpl; [apply IH | reflexivity].
Qed.

Lemma trimStart_all_spaces s :
  forallb_string isWhiteSpace s = true -> trimStart s = EmptyString.
Proof.
  induction s as [|c r IH]; simpl; [reflexivity|].
  rewrite andb_true_iff. intros [Hc Hr]. rewrite Hc. auto.
Qed.

Lemma trim_padded ws1 s ws2 :
  forallb_string isWhiteSpace ws1 = true ->
  forallb_string isWhiteSpace ws2 = true ->
  trim (ws1 +++ s +++ ws2) = trim s.
Proof.
  intros H1 H2. unfold trim.
  rewrite (trimStart_spaces _ _ H1), trimStart_append.
  destruct (forallb_string isWhiteSpace s) eqn:Hs.
  - rewrite (trimStart_all_spaces _ H2), (trimStart_all_spaces _ Hs). reflexivity.
  - apply trimEnd_append_spaces; assumption.
Qed.

Lemma toLowerCase_append a b : toLowerCase (a +++ b) = toLowerCase a +++ toLowerCase b.
Proof. induction a; simpl; congruence. Qed.

Lemma body_hex ds :
  forallb_string isHexChar ds = true ->
  Bit128.body ds = toLowerCase ds /\
  Bit128.body ("0x" +++ ds) = toLowerCase ds /\
  Bit128.body ("0X" +++ ds) = toLowerCase ds.
Proof.
  intros Hds.
  assert (forallb_string (fun c => negb (isWhiteSpace c)) ds = true) as Hws.
  { refine (forallb_string_impl _ _ _ _ Hds). intros c Hc.
    rewrite (isHexChar_not_space _ Hc). reflexivity. }
  unfold Bit128.body.
  rewrite (trim_no_space ds Hws).
  rewrite (trim_no_space ("0x" +++ ds)) by (simpl; exact Hws).
  rewrite (trim_no_space ("0X" +++ ds)) by (simpl; exact Hws).
  repeat split; try reflexivity.
  destruct ds as [|a [|b r]]; [reflexivity | |].
  { cbn [toLowerCase startsWith]. rewrite andb_false_r. reflexivity. }
  simpl in Hds. apply andb_true_iff in Hds as [_ Hds].
  apply andb_true_iff in Hds as [Hb _].
  cbn [toLowerCase startsWith].
  rewrite (isLowerHex_not_x _ (isHexChar_lower _ Hb)), andb_false_r. reflexivity.
Qed.

(** C9 as stated fails: an input may contain a non-hex character (the
    leading space) and still be read, and an input with more than 32 hex
    digits raises "Invalid hex" when it also holds a non-hex character. *)
Lemma hex16ToBigint_not_every_nonhex_rejected :
  forallb_string isHexChar " ff" = false /\
  Bit128.hex16ToBigint " ff" = Ok 255 /\
  Bit128.hex16ToBigint "fffffffffffffffffffffffffffffffffg" = Throw (Error "Invalid hex").
Proof. repeat split; reflexivity. Qed.

(** C9, amended.  With [body hex] the input after trimming white space,
    lower-casing and dropping one leading [0x]:
    an empty body is zero; a body with a character outside [0-9a-f]
    raises "Invalid hex"; an all-hex body of more than 32 digits raises
    "Too many hex digits for 128-bit"; any other body is its value.
    Hence hex digits of either case are accepted with or without a [0x]
    or [0X] prefix, and white space around the input is ignored. *)
Theorem hex16ToBigint_cases :
  (forall hex, Bit128.body hex = EmptyString -> Bit128.hex16ToBigint hex = Ok 0) /\
  (forall hex,
      Bit128.body hex <> EmptyString ->
      forallb_string isLowerHex (Bit128.body hex) = false ->
      Bit128.hex16ToBigint hex = Throw (Error "Invalid hex")) /\
  (forall hex,
      forallb_string isLowerHex (Bit128.body hex) = true ->
      (32 < String.length (Bit128.body hex))%nat ->
      Bit128.hex16ToBigint hex = Throw (Error "Too many hex digits for 128-bit")) /\
  (forall hex,
      Bit128.body hex <> EmptyString ->
      forallb_string isLowerHex (Bit128.body hex) = true ->
      (String.length (Bit128.body hex) <= 32)%nat ->
      exists v, parseDigits 16 0 (Bit128.body hex) = Some v /\
                0 <= v < 2 ^ 128 /\
                Bit128.hex16ToBigint hex = Ok v) /\
  (forall ds,
      forallb_string isHexChar ds = true ->
      (String.length ds <= 32)%nat ->
      exists v, parseDigits 16 0 ds = Some v /\
                Bit128.hex16ToBigint ds = Ok v /\
                Bit128.hex16ToBigint ("0x" +++ ds) = Ok v /\
                Bit128.hex16ToBigint ("0X" +++ ds) = Ok v) /\
  (forall ws1 hex ws2,
      forallb_string isWhiteSpace ws1 = true ->
      forallb_string isWhiteSpace ws2 = true ->
      Bit128.hex16ToBigint (ws1 +++ hex +++ ws2) = Bit128.hex16ToBigint hex).
Proof.
  assert (forall hex v,
             Bit128.body hex <> EmptyString ->
             forallb_string isLowerHex (Bit128.body hex) = true ->
             (String.length (Bit128.body hex) <= 32)%nat ->
             parseDigits 16 0 (Bit128.body hex) = Some v ->
             Bit128.hex16ToBigint hex = Ok v) as Hval.
  { intros hex v Hne Hs Hlen Hv. rewrite hex16ToBigint_body. cbv zeta.
    destruct (Bit128.body hex) as [|c r]; [congruence|].
    set (s := String c r) in *. rewrite Hs, Hv.
    replace (32 <? String.length s)%nat with false
      by (symmetry; apply Nat.ltb_ge; lia).
    reflexivity. }
  repeat apply conj.
  - intros hex He. rewrite hex16ToBigint_body, He. reflexivity.
  - intros hex Hne Hs. rewrite hex16ToBigint_body. cbv zeta.
    destruct (Bit128.body hex) as [|c r]; [congruence|].
    rewrite Hs. reflexivity.
  - intros hex Hs Hlen. rewrite hex16ToBigint_body. cbv zeta.
    destruct (Bit128.body hex) as [|c r]; [simpl in Hlen; lia|].
    rewrite Hs. apply Nat.ltb_lt in Hlen. rewrite Hlen. reflexivity.
  - intros hex Hne Hs Hlen.
    destruct (parseDigits16_hex (Bit128.body hex) 0 ltac:(lia)
                (forallb_string_impl _ _ _ isLowerHex_isHexChar Hs)) as (v & Hv & Hb).
    exists v. split; [assumption|]. split; [|apply Hval; assumption].
    assert (16 ^ Z.of_nat (String.length (Bit128.body hex)) <= 16 ^ 32)
      by (apply Z.pow_le_mono_r; lia).
    change (2 ^ 128) with (16 ^ 32). lia.
  - intros ds Hds Hlen.
    destruct (parseDigits16_hex ds 0 ltac:(lia) Hds) as (v & Hv & _).
    exists v. split; [assumption|].
    destruct (body_hex ds Hds) as (B1 & B2 & B3).
    destruct ds as [|c r] eqn:E; [inversion Hv; repeat split; reflexivity|].
    rewrite <- E in *.
    assert (toLowerCase ds <> EmptyString) as Hne by (subst ds; discriminate).
    repeat split; apply Hval; rewrite ?B1, ?B2, ?B3;
      rewrite ?toLowerCase_length, ?parseDigits16_lower; auto using toLowerCase_hex.
  - intros ws1 hex ws2 H1 H2. unfold Bit128.hex16ToBigint.
    rewrite (trim_padded _ _ _ H1 H2). reflexivity.
Qed.

Lemma hex16ToBigint_cases_witness :
  Bit128.hex16ToBigint "0x" = Ok 0 /\
  Bit128.hex16ToBigint "0x12g4" = Throw (Error "Invalid hex") /\
  Bit128.hex16ToBigint "000000000000000000000000000000000" =
    Throw (Error "Too many hex digits for 128-bit") /\
  (exists v, parseDigits 16 0 "ff" = Some v /\
             Bit128.hex16ToBigint "FF" = Ok v /\
             Bit128.hex16ToBigint "0xFF" = Ok v /\
             Bit128.hex16ToBigint "0XFF" = Ok v).
Proof.
  destruct hex16ToBigint_cases as (H1 & H2 & H3 & _ & H5 & _).
  split; [apply H1; reflexivity|].
  split; [apply H2; [discriminate | reflexivity]|].
  split; [apply H3; [reflexivity | simpl; lia]|].
  apply (H5 "FF"); [reflexivity | simpl; lia].
Defined.

(** ** Sample evaluations *)

Example hex16_ff : Bit128.hex16ToBigint "0xFF" = Ok 255.
Proof. reflexivity. Qed.

Example hex16_neg1 : Bit128.bigintToHex16 (-1) = Ok "0xffffffffffffffffffffffffffffffff".
Proof. reflexivity. Qed.

Example hex16_5 : Bit128.bigintToHex16 5 = Ok "0x00000000000000000000000000000005".
Proof. reflexivity. Qed.

(** * Bytes, typed arrays and the key/integer bridge *)

Lemma setAt_middle (a : list Z) x y b :
  setAt (List.length a) x (a ++ y :: b) = a ++ x :: b.
Proof. induction a as [|h t IH]; simpl; [reflexivity | rewrite IH; reflexivity]. Qed.

Lemma length_setAt i x l : List.length (setAt i x l) = List.length l.
Proof.
  revert i. induction l as [|h t IH]; intros [|i]; simpl; try reflexivity.
  rewrite IH. reflexivity.
Qed.

Lemma length_bytes_be n x : List.length (bytes_be n x) = n.
Proof.
  revert x. induction n as [|n IH]; intros x; simpl; [reflexivity|].
  rewrite length_app, IH. simpl. lia.
Qed.

Lemma bytes_be_range n x : Forall is_byte (bytes_be n x).
Proof.
  revert x. induction n as [|n IH]; intros x; simpl; [constructor|].
  apply Forall_app. split; [apply IH|].
  constructor; [|constructor]. unfold is_byte. dlia.
Qed.

Lemma be_value_snoc a y : be_value (a ++ [y]) = be_value a * 256 + y.
Proof. unfold be_value. rewrite fold_left_app. reflexivity. Qed.

Lemma be_value_app a b :
  be_value (a ++ b) = be_value a * 256 ^ Z.of_nat (List.length b) + be_value b.
Proof.
  induction b as [|y b IH] using rev_ind.
  - rewrite app_nil_r. unfold be_value at 3. simpl. lia.
  - rewrite app_assoc, !be_value_snoc, IH, length_app. cbn [List.length].
    rewrite Nat2Z.inj_add, Z.pow_add_r by lia. change (256 ^ Z.of_nat 1) with 256.
    lia.
Qed.

Lemma be_value_bound bs :
  Forall is_byte bs -> 0 <= be_value bs < 256 ^ Z.of_nat (List.length bs).
Proof.
  induction bs as [|y bs IH] using rev_ind; intros H.
  - simpl. unfold be_value. simpl. lia.
  - apply Forall_app in H as [Hbs Hy]. inversion Hy as [|? ? Hy' _]; subst.
    specialize (IH Hbs). rewrite be_value_snoc, length_app. cbn [List.length].
    rewrite Nat2Z.inj_add, Z.pow_add_r by lia. change (256 ^ Z.of_nat 1) with 256.
    unfold is_byte in Hy'. nia.
Qed.

(** Reading bytes and writing as many bytes back is the identity. *)
Lemma bytes_be_be_value bs :
  Forall is_byte bs -> bytes_be (List.length bs) (be_value bs) = bs.
Proof.
  induction bs as [|y bs IH] using rev_ind; intros H; [reflexivity|].
  apply Forall_app in H as [Hbs Hy]. inversion Hy as [|? ? Hy' _]; subst.
  rewrite length_app, Nat.add_comm. cbn [List.length Nat.add bytes_be].
  rewrite be_value_snoc. unfold is_byte in Hy'.
  replace ((be_value bs * 256 + y) / 256) with (be_value bs) by dlia.
  replace ((be_value bs * 256 + y) mod 256) with y by dlia.
  rewrite IH by assumption. reflexivity.
Qed.

(** Writing bytes and reading them back keeps the low [n] bytes. *)
Lemma be_value_bytes_be n x : be_value (bytes_be n x) = x mod 256 ^ Z.of_nat n.
Proof.
  revert x. induction n as [|n IH]; intros x.
  - simpl. unfold be_value. simpl. rewrite Z.mod_1_r. reflexivity.
  - cbn [bytes_be]. rewrite be_value_snoc, IH, Nat2Z.inj_succ, Z.pow_succ_r by lia.
    assert (0 < 256 ^ Z.of_nat n) by (apply Z.pow_pos_nonneg; lia).
    rewrite Z.rem_mul_r by lia. lia.
Qed.

Lemma bytes_be_mod n x : bytes_be n (x mod 256 ^ Z.of_nat n) = bytes_be n x.
Proof.
  revert x. induction n as [|n IH]; intros x; [reflexivity|].
  cbn [bytes_be]. rewrite Nat2Z.inj_succ, Z.pow_succ_r by lia.
  assert (0 < 256 ^ Z.of_nat n) by (apply Z.pow_pos_nonneg; lia).
  rewrite Z.rem_mul_r by lia.
  replace ((x mod 256 + 256 * ((x / 256) mod 256 ^ Z.of_nat n)) / 256)
    with ((x / 256) mod 256 ^ Z.of_nat n) by dlia.
  replace ((x mod 256 + 256 * ((x / 256) mod 256 ^ Z.of_nat n)) mod 256)
    with (x mod 256) by dlia.
  rewrite IH. reflexivity.
Qed.

(** Byte [i] of the big-endian encoding is digit [n - 1 - i] in base 256. *)
Lemma nth_bytes_be n : forall x i,
  (i < n)%nat ->
  nth i (bytes_be n x) 0 = (x / 256 ^ Z.of_nat (n - 1 - i)) mod 256.
Proof.
  induction n as [|n IH]; intros x i Hi; [lia|].
  cbn [bytes_be]. destruct (Nat.eq_dec i n) as [->|Hne].
  - rewrite app_nth2 by (rewrite length_bytes_be; lia).
    rewrite length_bytes_be, Nat.sub_diag.
    replace (S n - 1 - n)%nat with 0%nat by lia. simpl. rewrite Z.div_1_r. reflexivity.
  - rewrite app_nth1 by (rewrite length_bytes_be; lia).
    rewrite IH by lia.
    replace (S n - 1 - i)%nat with (S (n - 1 - i)) by lia.
    rewrite Nat2Z.inj_succ, Z.pow_succ_r by lia.
    rewrite Z.div_div by (try apply Z.pow_pos_nonneg; lia). reflexivity.
Qed.

Lemma byte_high_bits b n : is_byte b -> 8 <= n -> Z.testbit b n = false.
Proof.
  intros Hb Hn. unfold is_byte in Hb.
  destruct (Z.eq_dec b 0) as [->|Hne]; [apply Z.bits_0|].
  apply Z.bits_above_log2; [lia|].
  apply Z.lt_le_trans with (m := 8); [|assumption].
  apply Z.log2_lt_pow2; simpl; lia.
Qed.

Lemma lor_shiftl_byte v b : is_byte b -> Z.lor (Z.shiftl v 8) b = v * 256 + b.
Proof.
  intros Hb. rewrite Z.shiftl_mul_pow2 by lia.
  assert (Z.land (v * 2 ^ 8) b = 0) as Hland.
  { apply Z.bits_inj'. intros n Hn. rewrite Z.land_spec, Z.bits_0.
    destruct (Z.lt_ge_cases n 8).
    - rewrite Z.mul_pow2_bits_low by lia. reflexivity.
    - rewrite (byte_high_bits b n Hb) by lia. apply andb_false_r. }
  rewrite <- (Z.lxor_lor _ _ Hland), <- (Z.add_nocarry_lxor _ _ Hland).
  reflexivity.
Qed.

Lemma key16ToBigint_be_value k :
  Forall is_byte k -> Aes.key16ToBigint k = be_value k.
Proof.
  unfold Aes.key16ToBigint, be_value. generalize 0 as acc.
  induction k as [|b k IH]; intros acc H; [reflexivity|].
  inversion H as [|? ? Hb Hk]; subst. cbn [fold_left].
  rewrite (lor_shiftl_byte _ _ Hb). apply IH; assumption.
Qed.

Lemma bigintToKey16_loop_spec : forall n v pre suf,
  List.length pre = n ->
  Aes.bigintToKey16_loop n v (pre ++ suf) = bytes_be n v ++ suf.
Proof.
  induction n as [|i IH]; intros v pre suf Hlen.
  - destruct pre; [reflexivity | discriminate].
  - assert (pre <> []) as Hne by (destruct pre; [discriminate | congruence]).
    rewrite (app_removelast_last 0 Hne) in Hlen |- *.
    rewrite length_app in Hlen. cbn [List.length] in Hlen.
    assert (List.length (removelast pre) = i) as Hi by lia.
    cbn [Aes.bigintToKey16_loop bytes_be]. unfold store8.
    rewrite <- app_assoc. cbn [app]. rewrite <- Hi at 2.
    rewrite setAt_middle, (IH _ _ _ Hi). cbn [toUint8].
    change 255 with (Z.ones 8). rewrite Z.land_ones, Z.shiftr_div_pow2 by lia.
    change (2 ^ 8) with 256. rewrite Z.mod_mod by lia.
    rewrite <- app_assoc. reflexivity.
Qed.

Lemma bigintToKey16_bytes_be v : Aes.bigintToKey16 v = bytes_be 16 v.
Proof.
  unfold Aes.bigintToKey16.
  rewrite <- (app_nil_r (newUint8Array 16)), bigintToKey16_loop_spec by reflexivity.
  apply app_nil_r.
Qed.

(** C10.  For every integer [v] (so for every non-negative one),
    [bigintToKey16 v] is a 16-byte array, the big-endian encoding of
    [v mod 2^128]: byte [i] is digit [15 - i] of [v mod 2^128] in base
    256.  It inverts [key16ToBigint] on every 16-byte array. *)
Theorem bigintToKey16_big_endian :
  (forall v,
      List.length (Aes.bigintToKey16 v) = 16%nat /\
      Forall is_byte (Aes.bigintToKey16 v) /\
      Aes.bigintToKey16 v = bytes_be 16 (v mod 2 ^ 128) /\
      be_value (Aes.bigintToKey16 v) = v mod 2 ^ 128 /\
      forall i, (i < 16)%nat ->
                nth i (Aes.bigintToKey16 v) 0
                = ((v mod 2 ^ 128) / 256 ^ Z.of_nat (15 - i)) mod 256) /\
  (forall k,
      List.length k = 16%nat -> Forall is_byte k ->
      Aes.bigintToKey16 (Aes.key16ToBigint k) = k).
Proof.
  split.
  - intros v. rewrite bigintToKey16_bytes_be.
    change (2 ^ 128) with (256 ^ Z.of_nat 16).
    split; [|split; [|split; [|split]]].
    + apply length_bytes_be.
    + apply bytes_be_range.
    + symmetry. apply bytes_be_mod.
    + apply be_value_bytes_be.
    + intros i Hi. rewrite <- (bytes_be_mod 16 v), nth_bytes_be by assumption.
      reflexivity.
  - intros k Hlen Hk.
    rewrite bigintToKey16_bytes_be, (key16ToBigint_be_value _ Hk), <- Hlen.
    apply bytes_be_be_value; assumption.
Qed.

Lemma bigintToKey16_big_endian_witness :
  nth 15 (Aes.bigintToKey16 (2 ^ 128 + 258)) 0 = 2 /\
  nth 14 (Aes.bigintToKey16 (2 ^ 128 + 258)) 0 = 1 /\
  Aes.bigintToKey16
    (Aes.key16ToBigint [1; 2; 3; 4; 5; 6; 7; 8; 9; 10; 11; 12; 13; 14; 15; 255])
  = [1; 2; 3; 4; 5; 6; 7; 8; 9; 10; 11; 12; 13; 14; 15; 255].
Proof.
  destruct bigintToKey16_big_endian as [Hv Hk].
  destruct (Hv (2 ^ 128 + 258)) as (_ & _ & _ & _ & Hnth).
  split; [rewrite (Hnth 15%nat) by lia; reflexivity|].
  split; [rewrite (Hnth 14%nat) by lia; reflexivity|].
  apply Hk; [reflexivity|].
  repeat constructor; unfold is_byte; lia.
Defined.

(** * Key import and export *)

Lemma contents_whole (v : Uint8ArrayView) :
  byteOffset v = 0%nat -> byteLength v = List.length (buffer v) ->
  contents v = buffer v.
Proof.
  intros Ho Hl. unfold contents. rewrite Ho, Hl. cbn [skipn]. apply firstn_all.
Qed.

Lemma length_contents (v : Uint8ArrayView) :
  view_ok v -> List.length (contents v) = byteLength v.
Proof.
  unfold view_ok, contents. intros H.
  rewrite length_firstn, length_skipn. lia.
Qed.

Lemma setFrom_fresh (src : list Z) :
  Aes.setFrom (newUint8Array (List.length src)) src 0 = src.
Proof.
  unfold Aes.setFrom, newUint8Array. cbn [firstn Nat.add app].
  rewrite skipn_all2 by (rewrite repeat_length; lia). apply app_nil_r.
Qed.

Lemma toArrayBuffer_id v : AesV3.toArrayBuffer v = v.
Proof. apply setFrom_fresh. Qed.

(** What [aesImportRaw16] hands to [importKey] in the first copy: the
    bytes the view shows, whichever branch is taken. *)
Lemma keyData_contents (raw : Uint8ArrayView) :
  (if ((byteOffset raw =? 0) && (byteLength raw =? List.length (buffer raw)))%nat
   then buffer raw else contents raw) = contents raw.
Proof.
  destruct ((byteOffset raw =? 0) && (byteLength raw =? List.length (buffer raw)))%nat
    eqn:E; [|reflexivity].
  apply andb_true_iff in E as [Ho Hl].
  apply Nat.eqb_eq in Ho, Hl. symmetry. apply contents_whole; assumption.
Qed.

(** C6 as stated fails on the third copy, whose [aesImportRaw16] asks for
    a key that is not extractable: exporting the key it imports is
    refused by the platform. *)
Lemma aesImportRaw16_v3_not_exportable :
  let w0 := mkWorld (fun _ => 0) 0 [] [] in
  let k := repeat 0 16 in
  bind (AesV3.aesImportRaw16 (inr (viewOf k))) AesV1.aesExportRaw16 w0
  = (Throw (DOMException "InvalidAccessError" ""),
     mkWorld (fun _ => 0) 0 [] [OpImportKey; OpExportKey]).
Proof. reflexivity. Qed.

(** C6, amended.  For every view [raw] of 16 bytes, the first and second
    copies import a key that [aesExportRaw16] exports as those same 16
    bytes; the third copy imports the same material as a key that is not
    extractable, so that the platform refuses to export it. *)
Theorem aesImportRaw16_aesExportRaw16 (raw : Uint8ArrayView) (w : World) :
  view_ok raw -> byteLength raw = 16%nat ->
  let done := addOp OpExportKey (addOp OpImportKey w) in
  bind (AesV1.aesImportRaw16 raw) AesV1.aesExportRaw16 w = (Ok (contents raw), done) /\
  bind (AesV2.aesImportRaw16 raw) AesV2.aesExportRaw16 w = (Ok (contents raw), done) /\
  (exists key,
      AesV3.aesImportRaw16 (inr raw) w = (Ok key, addOp OpImportKey w) /\
      key_material key = contents raw /\
      key_extractable key = false /\
      forall w1, subtle_exportKey key w1
                 = (Throw (DOMException "InvalidAccessError" ""), addOp OpExportKey w1)).
Proof.
  intros Hok Hlen done.
  pose proof (length_contents raw Hok) as Hc. rewrite Hlen in Hc.
  assert (forall e, importRaw (contents raw) e [UsageEncrypt; UsageDecrypt]
                    = Ok (mkCryptoKey (contents raw) e [UsageEncrypt; UsageDecrypt]))
    as Himp by (intros e; unfold importRaw; rewrite Hc; reflexivity).
  split; [|split].
  - unfold AesV1.aesImportRaw16, AesV1.aesExportRaw16.
    rewrite keyData_contents, Hlen. cbn [Nat.eqb negb].
    unfold bind, subtle_importKey, subtle_exportKey, bind, request, lift, ret, throw.
    rewrite Himp. cbn [exportRaw key_extractable key_material]. rewrite Hc. reflexivity.
  - unfold AesV2.aesImportRaw16, AesV2.aesExportRaw16, AesV1.aesExportRaw16.
    rewrite Hlen. cbn [Nat.eqb negb].
    unfold bind, subtle_importKey, subtle_exportKey, bind, request, lift, ret, throw.
    rewrite Himp. cbn [exportRaw key_extractable key_material]. rewrite Hc. reflexivity.
  - exists (mkCryptoKey (contents raw) false [UsageEncrypt; UsageDecrypt]).
    unfold AesV3.aesImportRaw16. rewrite Hlen. cbn [Nat.eqb negb].
    assert (Aes.setFrom (newUint8Array 16) (contents raw) 0 = contents raw) as Hset.
    { rewrite <- Hc at 1. apply setFrom_fresh. }
    unfold bind, subtle_importKey, bind, request, lift, ret, throw.
    rewrite Hset, Himp. repeat split.
Qed.

Lemma aesImportRaw16_aesExportRaw16_witness :
  let w0 := mkWorld (fun _ => 0) 0 [] [] in
  let raw := mkView [9; 1; 2; 3; 4; 5; 6; 7; 8; 9; 10; 11; 12; 13; 14; 15; 16; 9] 1 16 in
  bind (AesV1.aesImportRaw16 raw) AesV1.aesExportRaw16 w0
  = (Ok [1; 2; 3; 4; 5; 6; 7; 8; 9; 10; 11; 12; 13; 14; 15; 16],
     mkWorld (fun _ => 0) 0 [] [OpImportKey; OpExportKey]).
Proof.
  intros w0 raw.
  apply (aesImportRaw16_aesExportRaw16 raw w0); [unfold view_ok; simpl; lia | reflexivity].
Defined.

(** * AES-GCM: opening what was sealed *)

Lemma lxor_byte a b : is_byte a -> is_byte b -> is_byte (Z.lxor a b).
Proof.
  unfold is_byte. intros Ha Hb.
  assert (0 <= Z.lxor a b) as H0 by (apply Z.lxor_nonneg; lia).
  split; [assumption|].
  destruct (Z.eq_dec (Z.lxor a b) 0) as [->|Hne]; [lia|].
  apply (Z.log2_lt_pow2 _ 8); [lia|].
  eapply Z.le_lt_trans; [apply Z.log2_lxor; lia|].
  assert (forall x, 0 <= x < 256 -> Z.log2 x < 8) as Hlog.
  { intros x Hx. destruct (Z.eq_dec x 0) as [->|]; [simpl; lia|].
    apply Z.log2_lt_pow2; simpl; lia. }
  specialize (Hlog a Ha) as Hla. specialize (Hlog b Hb) as Hlb. lia.
Qed.

Lemma length_xor_bytes a : forall b,
  List.length (xor_bytes a b) = Nat.min (List.length a) (List.length b).
Proof.
  induction a as [|x a IH]; intros [|y b]; simpl; try reflexivity.
  rewrite IH. reflexivity.
Qed.

Lemma xor_bytes_range a : forall b,
  Forall is_byte a -> Forall is_byte b -> Forall is_byte (xor_bytes a b).
Proof.
  induction a as [|x a IH]; intros [|y b] Ha Hb; simpl; try constructor.
  - inversion Ha; inversion Hb; subst. apply lxor_byte; assumption.
  - inversion Ha; inversion Hb; subst. apply IH; assumption.
Qed.

Lemma xor_bytes_involutive a : forall ks,
  (List.length a <= List.length ks)%nat -> xor_bytes (xor_bytes a ks) ks = a.
Proof.
  induction a as [|x a IH]; intros [|k ks] H; simpl in *; try reflexivity; try lia.
  rewrite Z.lxor_assoc, Z.lxor_nilpotent, Z.lxor_0_r, IH by lia. reflexivity.
Qed.

Lemma length_keystream key n : forall cb,
  List.length (GCM.keystream key cb n) = (16 * n)%nat.
Proof.
  induction n as [|n IH]; intros cb; cbn [GCM.keystream]; [reflexivity|].
  rewrite length_app, length_bytes_be, IH. lia.
Qed.

Lemma keystream_range key n : forall cb, Forall is_byte (GCM.keystream key cb n).
Proof.
  induction n as [|n IH]; intros cb; cbn [GCM.keystream]; [constructor|].
  apply Forall_app. split; [apply bytes_be_range | apply IH].
Qed.

Lemma keystream_covers key cb (data : list Z) :
  (List.length data
   <= List.length (GCM.keystream key cb ((List.length data + 15) / 16)))%nat.
Proof.
  rewrite length_keystream.
  pose proof (Nat.div_mod_eq (List.length data + 15) 16).
  pose proof (Nat.mod_upper_bound (List.length data + 15) 16). lia.
Qed.

Lemma length_gctr key icb data :
  List.length (GCM.gctr key icb data) = List.length data.
Proof.
  unfold GCM.gctr. rewrite length_xor_bytes.
  pose proof (keystream_covers key icb data). lia.
Qed.

Lemma gctr_involutive key icb data :
  GCM.gctr key icb (GCM.gctr key icb data) = data.
Proof.
  unfold GCM.gctr at 1. rewrite length_gctr. unfold GCM.gctr.
  apply xor_bytes_involutive, keystream_covers.
Qed.

Lemma gctr_range key icb data :
  Forall is_byte data -> Forall is_byte (GCM.gctr key icb data).
Proof. intros H. apply xor_bytes_range; [assumption | apply keystream_range]. Qed.

Lemma Forall_firstn' {A} (P : A -> Prop) n : forall l,
  Forall P l -> Forall P (firstn n l).
Proof.
  induction n as [|n IH]; intros [|x l] H; simpl; try constructor.
  - inversion H; assumption.
  - inversion H; subst. apply IH; assumption.
Qed.

Lemma Forall_skipn' {A} (P : A -> Prop) n : forall l,
  Forall P l -> Forall P (skipn n l).
Proof.
  induction n as [|n IH]; intros [|x l] H; simpl; try assumption.
  inversion H; subst. apply IH; assumption.
Qed.

Lemma length_tag key iv aad c n :
  (n <= 16)%nat -> List.length (GCM.tag key iv aad c n) = n.
Proof.
  intros H. unfold GCM.tag. cbv zeta. rewrite length_firstn, length_bytes_be. lia.
Qed.

Lemma tag_range key iv aad c n : Forall is_byte (GCM.tag key iv aad c n).
Proof. unfold GCM.tag. cbv zeta. apply Forall_firstn', bytes_be_range. Qed.

Lemma eqb_bytes_refl a : eqb_bytes a a = true.
Proof. induction a; simpl; [reflexivity|]. rewrite Z.eqb_refl. assumption. Qed.

Lemma eqb_bytes_eq a : forall b, eqb_bytes a b = true -> a = b.
Proof.
  induction a as [|x a IH]; intros [|y b]; simpl; try discriminate; [reflexivity|].
  rewrite andb_true_iff, Z.eqb_eq. intros [-> H]. f_equal. apply IH; assumption.
Qed.

Lemma length_seal key iv aad n pt :
  (n <= 16)%nat ->
  List.length (GCM.seal key iv aad n pt) = (List.length pt + n)%nat.
Proof.
  intros H. unfold GCM.seal. cbv zeta.
  rewrite length_app, length_gctr, length_tag by assumption. reflexivity.
Qed.

Lemma seal_range key iv aad n pt :
  Forall is_byte pt -> Forall is_byte (GCM.seal key iv aad n pt).
Proof.
  intros H. unfold GCM.seal. cbv zeta.
  apply Forall_app. split; [apply gctr_range; assumption | apply tag_range].
Qed.

(** Authenticated decryption inverts authenticated encryption under the
    same key, IV, associated data and tag length. *)
Lemma unseal_seal key iv aad n pt :
  (n <= 16)%nat ->
  GCM.unseal key iv aad n (GCM.seal key iv aad n pt) = Some pt.
Proof.
  intros Hn. unfold GCM.unseal. rewrite length_seal by assumption.
  replace (List.length pt + n <? n)%nat with false
    by (symmetry; apply Nat.ltb_ge; lia).
  replace (List.length pt + n - n)%nat with (List.length pt) by lia.
  cbv zeta. unfold GCM.seal. cbv zeta.
  set (c := GCM.gctr key (GCM.inc32 (GCM.J0 (AES.E key 0) iv)) pt).
  assert (List.length c = List.length pt) as Hc by apply length_gctr.
  rewrite <- Hc, firstn_app, Nat.sub_diag, firstn_all, firstn_O, app_nil_r.
  rewrite skipn_app, Nat.sub_diag, skipn_all, skipn_O. cbn [app].
  rewrite eqb_bytes_refl. subst c. rewrite gctr_involutive. reflexivity.
Qed.

(** A sealed text whose tag is shorter than asked for is refused. *)
Lemma unseal_short key iv aad n data :
  (List.length data < n)%nat -> GCM.unseal key iv aad n data = None.
Proof.
  intros H. unfold GCM.unseal.
  apply Nat.ltb_lt in H. rewrite H. reflexivity.
Qed.

(** * Hex packing: [bytesToHex] and [hexToBytes] *)

Lemma append_empty_r s : s +++ EmptyString = s.
Proof. induction s; simpl; congruence. Qed.

Lemma bytesToHex_hexPairs b : Aes.bytesToHex b = "0x" +++ hexPairs b.
Proof.
  unfold Aes.bytesToHex. cbv zeta. f_equal.
  assert (forall acc, fold_left (fun s x => s +++ padStart0 2 (toString16 x)) b acc
                      = acc +++ hexPairs b) as H.
  { induction b as [|x r IH]; intros acc; cbn [fold_left hexPairs].
    - symmetry. apply append_empty_r.
    - rewrite IH, append_assoc_s. reflexivity. }
  apply H.
Qed.

Lemma bufToHex_hexPairs b : AesV23.bufToHex b = hexPairs b.
Proof.
  unfold AesV23.bufToHex. induction b as [|x r IH]; [reflexivity|].
  cbn [map hexPairs]. rewrite <- IH.
  destruct r as [|y r]; cbn [map String.concat]; [|reflexivity].
  symmetry. apply append_empty_r.
Qed.

Lemma all_bytes_hex_ok : forallb byte_hex_ok (map Z.of_nat (seq 0 256)) = true.
Proof. vm_compute. reflexivity. Qed.

Lemma byte_hex x :
  is_byte x ->
  exists c1 c2,
    hex2 x = String c1 (String c2 EmptyString) /\
    isLowerHex c1 = true /\ isLowerHex c2 = true /\
    parseInt16 (String c1 (String c2 EmptyString)) = Some x.
Proof.
  intros Hx. unfold is_byte in Hx.
  assert (byte_hex_ok x = true) as Hok.
  { pose proof all_bytes_hex_ok as H. rewrite forallb_forall in H. apply H.
    apply in_map_iff. exists (Z.to_nat x). split; [lia|].
    apply in_seq. lia. }
  unfold byte_hex_ok in Hok.
  destruct (hex2 x) as [|c1 [|c2 [|? ?]]]; try discriminate.
  apply andb_true_iff in Hok as [Hok Hp]. apply andb_true_iff in Hok as [H1 H2].
  exists c1, c2. repeat split; try assumption.
  destruct (parseInt16 _) as [v|]; [|discriminate].
  apply Z.eqb_eq in Hp. congruence.
Qed.

Lemma length_hexPairs b :
  Forall is_byte b -> String.length (hexPairs b) = (2 * List.length b)%nat.
Proof.
  induction 1 as [|x r Hx Hr IH]; [reflexivity|].
  destruct (byte_hex x Hx) as (c1 & c2 & E & _).
  cbn [hexPairs List.length]. rewrite E. cbn. rewrite IH. lia.
Qed.

Lemma lowerHex_hexPairs b :
  Forall is_byte b -> forallb_string isLowerHex (hexPairs b) = true.
Proof.
  induction 1 as [|x r Hx Hr IH]; [reflexivity|].
  destruct (byte_hex x Hx) as (c1 & c2 & E & H1 & H2 & _).
  cbn [hexPairs]. rewrite E. cbn. rewrite H1, H2, IH. reflexivity.
Qed.

(** The [for] loop that fills a typed array index by index *)
Lemma fill_by_index (g : nat -> Z) : forall m k pre suf,
  List.length pre = k -> List.length suf = m ->
  fold_left (fun out i => setAt i (g i) out) (seq k m) (pre ++ suf)
  = pre ++ map g (seq k m).
Proof.
  induction m as [|m IH]; intros k pre suf Hk Hm.
  - destruct suf; [reflexivity | discriminate].
  - destruct suf as [|y suf]; [discriminate|].
    subst k. cbn [seq fold_left map]. rewrite setAt_middle.
    change (pre ++ g (List.length pre) :: suf)
      with (pre ++ [g (List.length pre)] ++ suf).
    rewrite app_assoc, IH.
    + rewrite <- app_assoc. reflexivity.
    + rewrite length_app. simpl. lia.
    + simpl in Hm. lia.
Qed.

Lemma fillFromHex_map h n :
  Aes.fillFromHex h (newUint8Array n)
  = map (fun i => toUint8 (parseInt16 (substr (i * 2) 2 h))) (seq 0 n).
Proof.
  unfold Aes.fillFromHex, newUint8Array. rewrite repeat_length.
  apply (fill_by_index (fun i => toUint8 (parseInt16 (substr (i * 2) 2 h)))
                       n 0 [] (repeat 0 n)); [reflexivity | apply repeat_length].
Qed.

Lemma length_fillFromHex h n :
  List.length (Aes.fillFromHex h (newUint8Array n)) = n.
Proof. rewrite fillFromHex_map, length_map, length_seq. reflexivity. Qed.

Lemma read_hexPairs b :
  Forall is_byte b ->
  map (fun i => toUint8 (parseInt16 (substr (i * 2) 2 (hexPairs b))))
      (seq 0 (List.length b)) = b.
Proof.
  induction 1 as [|x r Hx Hr IH]; [reflexivity|].
  destruct (byte_hex x Hx) as (c1 & c2 & E & _ & _ & Hp).
  cbn [hexPairs List.length seq map]. rewrite E. f_equal.
  - change (substr (0 * 2) 2 (String c1 (String c2 EmptyString) +++ hexPairs r))
      with (String c1 (String c2 EmptyString)).
    rewrite Hp. cbn [toUint8]. unfold is_byte in Hx. apply Z.mod_small; lia.
  - rewrite <- seq_shift, map_map. rewrite <- IH at 2.
    apply map_ext. intros i.
    replace (S i * 2)%nat with (S (S (i * 2))) by lia. reflexivity.
Qed.

(** Decoding what [bytesToHex] wrote gives the bytes back, in every copy. *)
Lemma hexToBytes_bytesToHex b :
  Forall is_byte b ->
  AesV1.hexToBytes (Aes.bytesToHex b) = b /\
  AesV23.hexToBytes (Aes.bytesToHex b) = Ok b.
Proof.
  intros Hb. rewrite bytesToHex_hexPairs.
  pose proof (length_hexPairs b Hb) as Hlen.
  assert ((2 * List.length b) / 2 = List.length b)%nat as Hdiv
      by (rewrite Nat.mul_comm; apply Nat.div_mul; lia).
  split.
  - unfold AesV1.hexToBytes.
    change (slice 2 ("0x" +++ hexPairs b)) with (hexPairs b). cbv zeta.
    rewrite Hlen, Hdiv, fillFromHex_map. apply read_hexPairs; assumption.
  - unfold AesV23.hexToBytes, AesV23.strip0x.
    change (startsWith ("0x" +++ hexPairs b) "0x") with true. cbv iota.
    change (slice 2 ("0x" +++ hexPairs b)) with (hexPairs b). cbv zeta.
    rewrite Hlen.
    replace (2 * List.length b mod 2 =? 0)%nat with true
      by (symmetry; apply Nat.eqb_eq; rewrite Nat.mul_comm; apply Nat.Div0.mod_mul).
    cbn [negb]. rewrite Hdiv, fillFromHex_map. f_equal.
    apply read_hexPairs; assumption.
Qed.

Lemma concat_app a b : Aes.concat a b = a ++ b.
Proof.
  unfold Aes.concat, Aes.setFrom, newUint8Array. cbv zeta.
  cbn [firstn Nat.add app].
  set (rest := skipn (List.length a) (repeat 0 (List.length a + List.length b))).
  assert (List.length rest = List.length b) as Hrest
      by (subst rest; rewrite length_skipn, repeat_length; lia).
  rewrite firstn_app, Nat.sub_diag, firstn_all. cbn [firstn].
  rewrite app_nil_r, skipn_all2 by (rewrite length_app; lia).
  rewrite app_nil_r. reflexivity.
Qed.

(** * TextEncoder and TextDecoder *)

Lemma utf8_decode_fresh b rest :
  utf8_decode None (b :: rest) =
  match lead b with
  | LeadEmit c => c :: utf8_decode None rest
  | LeadStart s => utf8_decode (Some s) rest
  | LeadError => 65533 :: utf8_decode None rest
  end.
Proof. reflexivity. Qed.

Lemma utf8_decode_last s b rest :
  u_lower s <= b <= u_upper s ->
  S (u_bytes_seen s) = u_bytes_needed s ->
  utf8_decode (Some s) (b :: rest)
  = (u_code_point s * 64 + b mod 64) :: utf8_decode None rest.
Proof.
  intros Hb Hn. cbn [utf8_decode]. ztest. rewrite Hn, Nat.eqb_refl. reflexivity.
Qed.

Lemma utf8_decode_more s b rest :
  u_lower s <= b <= u_upper s ->
  S (u_bytes_seen s) <> u_bytes_needed s ->
  utf8_decode (Some s) (b :: rest)
  = utf8_decode (Some (mkUtf8State (u_code_point s * 64 + b mod 64)
                                   (u_bytes_needed s) (S (u_bytes_seen s)) 128 191))
                rest.
Proof.
  intros Hb Hn. cbn [utf8_decode]. ztest.
  apply Nat.eqb_neq in Hn. rewrite Hn. reflexivity.
Qed.

Lemma isScalar_spec c :
  isScalar c = true <-> 0 <= c < 1114112 /\ (c < 55296 \/ 57343 < c).
Proof. unfold isScalar. lia. Qed.

(** The decoder reads back each scalar value the encoder wrote. *)
Lemma utf8_decode_encode_scalar c rest :
  isScalar c = true ->
  utf8_decode None (utf8_encode_scalar c ++ rest) = c :: utf8_decode None rest.
Proof.
  rewrite isScalar_spec. intros [Hc Hs]. unfold utf8_encode_scalar.
  destruct (c <? 128) eqn:H1; [|destruct (c <? 2048) eqn:H2; [|destruct (c <? 65536) eqn:H3]].
  - apply Z.ltb_lt in H1. cbn [app]. rewrite utf8_decode_fresh. unfold lead. ztest.
    reflexivity.
  - apply Z.ltb_ge in H1. apply Z.ltb_lt in H2.
    assert (2 <= c / 64 <= 31) as Hq1 by dlia.
    assert (0 <= c mod 64 < 64) as Hq2 by dlia.
    assert (c / 64 * 64 + c mod 64 = c) as Hsum by dlia.
    remember (c / 64) as q1 eqn:E1. remember (c mod 64) as q2 eqn:E2. clear E1 E2.
    cbn [app]. rewrite utf8_decode_fresh. unfold lead. ztest.
    rewrite utf8_decode_last by (cbn [u_lower u_upper u_bytes_seen u_bytes_needed]; lia). cbn [u_code_point].
    f_equal. rewrite <- Hsum. dlia.
  - apply Z.ltb_ge in H2. apply Z.ltb_lt in H3.
    assert (0 <= c / 4096 <= 15) as Hq1 by dlia.
    assert (0 <= (c / 64) mod 64 < 64) as Hq2 by dlia.
    assert (0 <= c mod 64 < 64) as Hq3 by dlia.
    assert (c / 4096 = 0 -> 32 <= (c / 64) mod 64) as Hlow by dlia.
    assert (c / 4096 = 13 -> (c / 64) mod 64 < 32) as Hhigh by dlia.
    assert ((c / 4096 * 64 + (c / 64) mod 64) * 64 + c mod 64 = c) as Hsum by dlia.
    remember (c / 4096) as q1 eqn:E1. remember ((c / 64) mod 64) as q2 eqn:E2.
    remember (c mod 64) as q3 eqn:E3. clear E1 E2 E3.
    cbn [app]. rewrite utf8_decode_fresh. unfold lead. ztest.
    rewrite utf8_decode_more;
      [| cbn [u_lower u_upper];
         destruct (Z.eqb_spec (224 + q1) 224); destruct (Z.eqb_spec (224 + q1) 237); lia
       | cbn [u_bytes_seen u_bytes_needed]; lia ].
    rewrite utf8_decode_last by (cbn [u_lower u_upper u_bytes_seen u_bytes_needed]; lia). cbn [u_code_point].
    f_equal. rewrite <- Hsum. dlia.
  - apply Z.ltb_ge in H3.
    assert (0 <= c / 262144 <= 4) as Hq1 by dlia.
    assert (0 <= (c / 4096) mod 64 < 64) as Hq2 by dlia.
    assert (0 <= (c / 64) mod 64 < 64) as Hq3 by dlia.
    assert (0 <= c mod 64 < 64) as Hq4 by dlia.
    assert (c / 262144 = 0 -> 16 <= (c / 4096) mod 64) as Hlow by dlia.
    assert (c / 262144 = 4 -> (c / 4096) mod 64 < 16) as Hhigh by dlia.
    assert (((c / 262144 * 64 + (c / 4096) mod 64) * 64 + (c / 64) mod 64) * 64
            + c mod 64 = c) as Hsum by dlia.
    remember (c / 262144) as q1 eqn:E1. remember ((c / 4096) mod 64) as q2 eqn:E2.
    remember ((c / 64) mod 64) as q3 eqn:E3. remember (c mod 64) as q4 eqn:E4.
    clear E1 E2 E3 E4.
    cbn [app]. rewrite utf8_decode_fresh. unfold lead. ztest.
    rewrite utf8_decode_more;
      [| cbn [u_lower u_upper];
         destruct (Z.eqb_spec (240 + q1) 240); destruct (Z.eqb_spec (240 + q1) 244); lia
       | cbn [u_bytes_seen u_bytes_needed]; lia ].
    rewrite utf8_decode_more by (cbn [u_lower u_upper u_bytes_seen u_bytes_needed]; lia).
    rewrite utf8_decode_last by (cbn [u_lower u_upper u_bytes_seen u_bytes_needed]; lia). cbn [u_code_point].
    f_equal. rewrite <- Hsum. dlia.
Qed.

Lemma utf8_decode_encode cs :
  forallb isScalar cs = true ->
  utf8_decode None (flat_map utf8_encode_scalar cs) = cs.
Proof.
  induction cs as [|c cs IH]; [reflexivity|].
  cbn [forallb flat_map]. rewrite andb_true_iff. intros [Hc Hcs].
  rewrite utf8_decode_encode_scalar, IH by assumption. reflexivity.
Qed.

Lemma utf8_encode_scalar_range c :
  isScalar c = true -> Forall is_byte (utf8_encode_scalar c).
Proof.
  rewrite isScalar_spec. intros [Hc _]. unfold utf8_encode_scalar, is_byte.
  destruct (c <? 128) eqn:H1; [|destruct (c <? 2048) eqn:H2; [|destruct (c <? 65536) eqn:H3]];
    rewrite ?Z.ltb_lt, ?Z.ltb_ge in *; repeat constructor; dlia.
Qed.

(** A byte order mark begins the encoding only of a text that begins
    with U+FEFF. *)
Lemma stripBOM_encode_scalar c rest :
  isScalar c = true -> c <> 65279 ->
  stripBOM (utf8_encode_scalar c ++ rest) = utf8_encode_scalar c ++ rest.
Proof.
  rewrite isScalar_spec. intros [Hc _] Hne. unfold utf8_encode_scalar.
  destruct (c <? 128) eqn:H1; [|destruct (c <? 2048) eqn:H2; [|destruct (c <? 65536) eqn:H3]];
    rewrite ?Z.ltb_lt, ?Z.ltb_ge in *; cbn [app stripBOM].
  - destruct rest as [|? [|? ?]]; try reflexivity. ztest. reflexivity.
  - destruct rest as [|? ?]; try reflexivity.
    replace (192 + c / 64 =? 239) with false by (symmetry; apply Z.eqb_neq; dlia).
    reflexivity.
  - destruct ((224 + c / 4096 =? 239) && (128 + (c / 64) mod 64 =? 187)
              && (128 + c mod 64 =? 191)) eqn:E; [|reflexivity].
    exfalso. rewrite !andb_true_iff, !Z.eqb_eq in E. dlia.
  - replace (240 + c / 262144 =? 239) with false by (symmetry; apply Z.eqb_neq; dlia).
    reflexivity.
Qed.

(** ** Code units and scalar values *)

Lemma surrogate_tests u :
  (isHighSurrogate u = true <-> 55296 <= u <= 56319) /\
  (isLowSurrogate u = true <-> 56320 <= u <= 57343).
Proof. unfold isHighSurrogate, isLowSurrogate. lia. Qed.

(** A well-formed string is the code units of its scalar values, and
    these are Unicode scalar values. *)
Lemma toScalars_wellFormed : forall n s,
  (List.length s <= n)%nat ->
  isWellFormed s = true ->
  forallb isScalar (toScalars s) = true /\
  flat_map fromScalar (toScalars s) = s /\
  (startsWithBOM s = false -> startsWithBOM (toScalars s) = false).
Proof.
  induction n as [|n IH]; intros s Hlen Hwf.
  - destruct s; [repeat split; reflexivity | simpl in Hlen; lia].
  - destruct s as [|u rest]; [repeat split; reflexivity|].
    cbn [isWellFormed] in Hwf. rewrite !andb_true_iff in Hwf.
    destruct Hwf as [[Hu0 Hu1] Hwf].
    apply Z.leb_le in Hu0. apply Z.ltb_lt in Hu1.
    cbn [toScalars]. destruct (isHighSurrogate u) eqn:Eh.
    + destruct rest as [|v rest']; [discriminate|].
      apply andb_true_iff in Hwf as [Hv Hwf]. rewrite Hv.
      apply (proj1 (surrogate_tests u)) in Eh.
      apply (proj2 (surrogate_tests v)) in Hv.
      destruct (IH rest' ltac:(simpl in Hlen; lia) Hwf) as (IH1 & IH2 & _).
      cbn [forallb flat_map startsWithBOM]. rewrite IH1, IH2.
      split; [|split].
      * rewrite andb_true_r. apply isScalar_spec. lia.
      * unfold fromScalar. ztest. cbn [app]. f_equal; [dlia | f_equal; dlia].
      * intros _. apply Z.eqb_neq. lia.
    + apply andb_true_iff in Hwf as [Hnl Hwf]. apply negb_true_iff in Hnl.
      rewrite Hnl.
      destruct (IH rest ltac:(simpl in Hlen; lia) Hwf) as (IH1 & IH2 & _).
      cbn [forallb flat_map startsWithBOM]. rewrite IH1, IH2.
      assert (~ 55296 <= u <= 56319)
        by (intros X; apply (proj1 (surrogate_tests u)) in X; congruence).
      assert (~ 56320 <= u <= 57343)
        by (intros X; apply (proj2 (surrogate_tests u)) in X; congruence).
      split; [|split].
      * rewrite andb_true_r. apply isScalar_spec. lia.
      * unfold fromScalar. ztest. reflexivity.
      * intros Hb. exact Hb.
Qed.

Lemma TextEncoder_range s :
  isWellFormed s = true -> Forall is_byte (TextEncoder_encode s).
Proof.
  intros Hwf.
  destruct (toScalars_wellFormed _ s (le_n _) Hwf) as (Hsc & _).
  unfold TextEncoder_encode. induction (toScalars s) as [|c cs IH]; [constructor|].
  cbn [forallb flat_map] in *. apply andb_true_iff in Hsc as [Hc Hcs].
  apply Forall_app. split; [apply utf8_encode_scalar_range; assumption | auto].
Qed.

(** Decoding the encoding of a well-formed text that does not begin with
    U+FEFF gives the text back. *)
Lemma TextDecoder_TextEncoder s :
  isWellFormed s = true -> startsWithBOM s = false ->
  TextDecoder_decode (TextEncoder_encode s) = s.
Proof.
  intros Hwf Hbom.
  destruct (toScalars_wellFormed _ s (le_n _) Hwf) as (Hsc & Hback & Hb).
  specialize (Hb Hbom). unfold TextDecoder_decode, TextEncoder_encode.
  assert (stripBOM (flat_map utf8_encode_scalar (toScalars s))
          = flat_map utf8_encode_scalar (toScalars s)) as ->.
  { destruct (toScalars s) as [|c cs]; [reflexivity|].
    cbn [forallb flat_map startsWithBOM] in *.
    apply andb_true_iff in Hsc as [Hc _].
    apply stripBOM_encode_scalar; [assumption | apply Z.eqb_neq; assumption]. }
  rewrite utf8_decode_encode by assumption. exact Hback.
Qed.

(** Whatever the pairing of its surrogates, a string of 16-bit code
    units has Unicode scalar values. *)
Lemma toScalars_scalar : forall n s,
  (List.length s <= n)%nat ->
  Forall (fun u => 0 <= u < 65536) s ->
  forallb isScalar (toScalars s) = true.
Proof.
  induction n as [|n IH]; intros s Hlen Hs.
  - destruct s; [reflexivity | simpl in Hlen; lia].
  - destruct s as [|u rest]; [reflexivity|].
    inversion Hs as [|? ? Hu Hrest]; subst. cbn [toScalars].
    assert (forallb isScalar (toScalars rest) = true) as Hr
        by (apply IH; [simpl in Hlen; lia | assumption]).
    destruct (isHighSurrogate u) eqn:Eh.
    + destruct rest as [|v rest']; [reflexivity|].
      destruct (isLowSurrogate v) eqn:El.
      * inversion Hrest as [|? ? Hv Hrest']; subst.
        apply (proj1 (surrogate_tests u)) in Eh.
        apply (proj2 (surrogate_tests v)) in El.
        cbn [forallb]. rewrite (IH rest') by (simpl in Hlen; try lia; assumption).
        rewrite andb_true_r. apply isScalar_spec. lia.
      * cbn [forallb]. rewrite Hr. reflexivity.
    + destruct (isLowSurrogate u) eqn:El; cbn [forallb]; rewrite Hr;
        [reflexivity|].
      rewrite andb_true_r. apply isScalar_spec.
      assert (~ 55296 <= u <= 56319)
        by (intros X; apply (proj1 (surrogate_tests u)) in X; congruence).
      assert (~ 56320 <= u <= 57343)
        by (intros X; apply (proj2 (surrogate_tests u)) in X; congruence).
      lia.
Qed.

Lemma TextEncoder_bytes s :
  Forall (fun u => 0 <= u < 65536) s -> Forall is_byte (TextEncoder_encode s).
Proof.
  intros Hs. pose proof (toScalars_scalar _ s (le_n _) Hs) as Hsc.
  unfold TextEncoder_encode. induction (toScalars s) as [|c cs IH]; [constructor|].
  cbn [forallb flat_map] in *. apply andb_true_iff in Hsc as [Hc Hcs].
  apply Forall_app. split; [apply utf8_encode_scalar_range; assumption | auto].
Qed.

(** * aes.ts: encrypting and decrypting *)

Lemma length_draw n w : List.length (draw n w) = n.
Proof. unfold draw. rewrite length_map, length_seq. reflexivity. Qed.

Lemma draw_range n w : Forall is_byte (draw n w).
Proof.
  unfold draw. apply Forall_forall. intros x Hx.
  apply in_map_iff in Hx as (i & <- & _). unfold is_byte. dlia.
Qed.

Lemma run_getRandomValues12 w : getRandomValues 12 w = (Ok (draw 12 w), advance 12 w).
Proof. reflexivity. Qed.

Lemma run_encrypt iv key data :
  hasUsage UsageEncrypt key = true ->
  aesGcmEncrypt iv None 128 key data = Ok (GCM.seal (key_material key) iv [] 16 data).
Proof. intros Hu. unfold aesGcmEncrypt. rewrite Hu. reflexivity. Qed.

Lemma run_decrypt iv key sealed pt :
  hasUsage UsageDecrypt key = true ->
  GCM.unseal (key_material key) iv [] 16 sealed = Some pt ->
  aesGcmDecrypt iv None 128 key sealed = Ok pt.
Proof.
  intros Hu Hopen. unfold aesGcmDecrypt. rewrite Hu. cbn [orb negb Z.ltb Z.compare].
  change (Z.to_nat (128 / 8)) with 16%nat. cbn [orEmpty]. rewrite Hopen. reflexivity.
Qed.

(** What [encryptUtf8AesGcmPacked] returns and leaves behind (first and
    third copy) when the key may encrypt. *)
Lemma encrypt_run m key w :
  hasUsage UsageEncrypt key = true ->
  AesV1.encryptUtf8AesGcmPacked m key w
  = (Ok (Aes.bytesToHex
           (draw 12 w ++ GCM.seal (key_material key) (draw 12 w) [] 16
                                  (TextEncoder_encode m))),
     addOp OpEncrypt (advance 12 w)).
Proof.
  intros Hu. unfold AesV1.encryptUtf8AesGcmPacked, bind, subtle_encrypt, bind,
    request, lift, ret.
  rewrite run_getRandomValues12, (run_encrypt _ _ _ Hu), concat_app. reflexivity.
Qed.

Lemma packed_split iv sealed :
  List.length iv = 12%nat -> Forall is_byte iv -> Forall is_byte sealed ->
  AesV1.hexToBytes (Aes.bytesToHex (iv ++ sealed)) = iv ++ sealed /\
  AesV23.hexToBytes (Aes.bytesToHex (iv ++ sealed)) = Ok (iv ++ sealed) /\
  firstn 12 (iv ++ sealed) = iv /\ skipn 12 (iv ++ sealed) = sealed.
Proof.
  intros Hlen Hiv Hs.
  destruct (hexToBytes_bytesToHex (iv ++ sealed)) as [H1 H23].
  { apply Forall_app; split; assumption. }
  repeat split; try assumption.
  - rewrite <- Hlen, firstn_app, Nat.sub_diag, firstn_all. cbn [firstn].
    apply app_nil_r.
  - rewrite <- Hlen, skipn_app, Nat.sub_diag, skipn_all. reflexivity.
Qed.

(** Decrypting a value packed from [iv] and a text sealed under the
    same key gives the decoded text back, in every copy. *)
Lemma decrypt_sealed iv pt key :
  List.length iv = 12%nat -> Forall is_byte iv -> Forall is_byte pt ->
  hasUsage UsageDecrypt key = true ->
  let packed := Aes.bytesToHex (iv ++ GCM.seal (key_material key) iv [] 16 pt) in
  (forall w, fst (AesV1.decryptUtf8AesGcmPacked packed key w)
             = Ok (TextDecoder_decode pt)) /\
  (forall w, key_extractable key = true ->
             fst (AesV2.decryptUtf8AesGcmPacked packed key None 128 w)
             = Ok (TextDecoder_decode pt)) /\
  (forall w, fst (AesV3.decryptUtf8AesGcmPacked packed key None 128 w)
             = Ok (TextDecoder_decode pt)).
Proof.
  intros Hlen Hiv Hpt Hu packed.
  set (sealed := GCM.seal (key_material key) iv [] 16 pt) in *.
  assert (Forall is_byte sealed) as Hs by (apply seal_range; assumption).
  destruct (packed_split iv sealed Hlen Hiv Hs) as (H1 & H23 & Hf & Hk).
  assert (List.length (iv ++ sealed) = (12 + (List.length pt + 16))%nat) as Hl.
  { rewrite length_app, Hlen. subst sealed. rewrite length_seal by lia. reflexivity. }
  assert (aesGcmDecrypt iv None 128 key sealed = Ok pt) as Hopen
      by (apply run_decrypt; [assumption | apply unseal_seal; lia]).
  assert (AesV23.tooShort (iv ++ sealed) 128 = false) as Hlong
      by (unfold AesV23.tooShort; rewrite Hl; apply Z.ltb_ge; lia).
  split; [|split]; intros w.
  - unfold AesV1.decryptUtf8AesGcmPacked. subst packed. rewrite H1. cbv zeta.
    replace (List.length (iv ++ sealed) <? 12)%nat with false
      by (symmetry; apply Nat.ltb_ge; lia).
    rewrite Hf, Hk.
    unfold bind, subtle_decrypt, bind, request, lift, ret. rewrite Hopen. reflexivity.
  - intros He.
    unfold AesV2.decryptUtf8AesGcmPacked, try_catch, bind, lift, console_log,
      console_write, AesV23.printKeyHex, subtle_exportKey, bind, request, lift, ret,
      exportRaw.
    rewrite He. subst packed. rewrite H23, Hlong, Hf, Hk.
    unfold subtle_decrypt, bind, request, lift. rewrite Hopen. reflexivity.
  - unfold AesV3.decryptUtf8AesGcmPacked, try_catch, bind, lift, ret.
    subst packed. rewrite H23, Hlong, !toArrayBuffer_id, Hf, Hk.
    cbn [option_map]. unfold subtle_decrypt, bind, request, lift.
    rewrite Hopen. reflexivity.
Qed.

(** [printKeyHex] on an extractable key: the key's bytes go to the
    console as hex. *)
Lemma printKeyHex_run key w :
  key_extractable key = true ->
  AesV23.printKeyHex key w
  = (Ok tt, addConsole (mkEntry LevelLog [ArgText "Key (hex):";
                                          ArgText (hexPairs (key_material key))])
                       (addOp OpExportKey w)).
Proof.
  intros He. unfold AesV23.printKeyHex, bind, subtle_exportKey, bind, request, lift,
    exportRaw, console_log, console_write.
  rewrite He, bufToHex_hexPairs. reflexivity.
Qed.

(** The second copy's encrypt is the first copy's after [printKeyHex]. *)
Lemma encrypt_v2_unfold m key w :
  AesV2.encryptUtf8AesGcmPacked m key w
  = match AesV23.printKeyHex key w with
    | (Ok _, w') => AesV1.encryptUtf8AesGcmPacked m key w'
    | (Throw e, w') => (Throw e, w')
    end.
Proof. reflexivity. Qed.

(** C1 as stated fails: the text decrypted is the decoding of the
    encoding of the text encrypted, and [TextDecoder] drops a leading
    U+FEFF while [TextEncoder] turns an unpaired surrogate into U+FFFD.
    Under the all-zero key and IV, U+FEFF "hi" comes back as "hi" and a
    lone U+D83D as U+FFFD, from the first and the third copy's decrypt. *)
Lemma roundtrip_loses_byte_order_mark :
  let w0 := mkWorld (fun _ => 0) 0 [] [] in
  let key := mkCryptoKey (repeat 0 16) true [UsageEncrypt; UsageDecrypt] in
  let packed := "0x000000000000000000000000ec3365a60915b8126ef9a9cbc3e8f52ab8afc56cb7" in
  let packed' := "0x000000000000000000000000ec3767acf9a1e786df657b7709cea041d5e0ff" in
  isWellFormed [65279; 104; 105] = true /\
  fst (AesV1.encryptUtf8AesGcmPacked [65279; 104; 105] key w0) = Ok packed /\
  fst (AesV1.decryptUtf8AesGcmPacked packed key w0) = Ok [104; 105] /\
  fst (AesV3.decryptUtf8AesGcmPacked packed key None 128 w0) = Ok [104; 105] /\
  fst (AesV1.encryptUtf8AesGcmPacked [55357] key w0) = Ok packed' /\
  fst (AesV1.decryptUtf8AesGcmPacked packed' key w0) = Ok [65533] /\
  fst (AesV3.decryptUtf8AesGcmPacked packed' key None 128 w0) = Ok [65533].
Proof. vm_compute. repeat split. Qed.

(** C1, amended.  For every well-formed text [m] (no unpaired
    surrogate) that does not begin with U+FEFF and every key that may
    encrypt and decrypt, [encryptUtf8AesGcmPacked] returns the lowercase
    0x-hex of the next 12 bytes of entropy followed by the AES-GCM
    ciphertext of [m]'s UTF-8 encoding with its 16-byte tag, and
    [decryptUtf8AesGcmPacked] of that value under the same key returns
    [m], in every copy (the second copy needs the key extractable, since
    it exports the key first). *)
Theorem encrypt_then_decrypt (m : list Z) (key : CryptoKey) (w : World) :
  isWellFormed m = true ->
  startsWithBOM m = false ->
  hasUsage UsageEncrypt key = true ->
  hasUsage UsageDecrypt key = true ->
  let iv := draw 12 w in
  let pt := TextEncoder_encode m in
  let icb := GCM.inc32 (GCM.J0 (AES.E (key_material key) 0) iv) in
  let ct := GCM.gctr (key_material key) icb pt in
  let tag := GCM.tag (key_material key) iv [] ct 16 in
  let packed := "0x" +++ hexPairs (iv ++ ct ++ tag) in
  AesV1.encryptUtf8AesGcmPacked m key w = (Ok packed, addOp OpEncrypt (advance 12 w)) /\
  AesV3.encryptUtf8AesGcmPacked m key w = (Ok packed, addOp OpEncrypt (advance 12 w)) /\
  List.length iv = 12%nat /\
  List.length ct = List.length pt /\
  List.length tag = 16%nat /\
  forallb_string isLowerHex (hexPairs (iv ++ ct ++ tag)) = true /\
  (forall w1, fst (AesV1.decryptUtf8AesGcmPacked packed key w1) = Ok m) /\
  (forall w1, fst (AesV3.decryptUtf8AesGcmPacked packed key None 128 w1) = Ok m) /\
  (key_extractable key = true ->
   fst (AesV2.encryptUtf8AesGcmPacked m key w) = Ok packed /\
   forall w1, fst (AesV2.decryptUtf8AesGcmPacked packed key None 128 w1) = Ok m).
Proof.
  intros Hwf Hbom Henc Hdec iv pt icb ct tag packed.
  pose proof (length_draw 12 w) as Hlen. fold iv in Hlen.
  pose proof (draw_range 12 w) as Hiv. fold iv in Hiv.
  pose proof (TextEncoder_range m Hwf) as Hpt. fold pt in Hpt.
  assert (GCM.seal (key_material key) iv [] 16 pt = ct ++ tag) as Hseal by reflexivity.
  assert (packed = Aes.bytesToHex (iv ++ GCM.seal (key_material key) iv [] 16 pt))
    as Hpacked by (rewrite bytesToHex_hexPairs, Hseal; reflexivity).
  destruct (decrypt_sealed iv pt key Hlen Hiv Hpt Hdec) as (D1 & D2 & D3).
  cbv zeta in D1, D2, D3. rewrite <- Hpacked in D1, D2, D3.
  assert (TextDecoder_decode pt = m) as Hback
      by (apply TextDecoder_TextEncoder; assumption).
  rewrite Hback in D1, D2, D3.
  assert (AesV1.encryptUtf8AesGcmPacked m key w
          = (Ok packed, addOp OpEncrypt (advance 12 w))) as Hrun
      by (rewrite (encrypt_run m key w Henc), Hpacked; reflexivity).
  repeat apply conj; try assumption.
  - apply length_gctr.
  - apply length_tag. lia.
  - apply lowerHex_hexPairs. rewrite <- Hseal.
    apply Forall_app. split; [assumption | apply seal_range; assumption].
  - intros He. split.
    + rewrite encrypt_v2_unfold, (printKeyHex_run key w He).
      rewrite (encrypt_run m key _ Henc), Hpacked. reflexivity.
    + intros w1. apply D2. assumption.
Qed.

Lemma encrypt_then_decrypt_witness :
  let w0 := mkWorld (fun i => Z.of_nat i) 0 [] [] in
  let key := mkCryptoKey (repeat 0 16) true [UsageEncrypt; UsageDecrypt] in
  fst (bind (AesV1.encryptUtf8AesGcmPacked (codeUnits "hello") key)
            (fun packed => AesV1.decryptUtf8AesGcmPacked packed key) w0)
  = Ok (codeUnits "hello").
Proof.
  intros w0 key.
  pose proof (encrypt_then_decrypt (codeUnits "hello") key w0
                                   eq_refl eq_refl eq_refl eq_refl) as H.
  cbv zeta in H. destruct H as (Hrun & _ & _ & _ & _ & _ & Hback & _).
  unfold bind. rewrite Hrun. apply Hback.
Defined.

(** Whatever the text, decrypting what was encrypted gives the decoding
    of its encoding. *)
Theorem encrypt_then_decrypt_any (m : list Z) (key : CryptoKey) (w : World) :
  Forall (fun u => 0 <= u < 65536) m ->
  hasUsage UsageEncrypt key = true ->
  hasUsage UsageDecrypt key = true ->
  exists packed w',
    AesV1.encryptUtf8AesGcmPacked m key w = (Ok packed, w') /\
    (forall w1, fst (AesV1.decryptUtf8AesGcmPacked packed key w1)
                = Ok (TextDecoder_decode (TextEncoder_encode m))) /\
    (forall w1, fst (AesV3.decryptUtf8AesGcmPacked packed key None 128 w1)
                = Ok (TextDecoder_decode (TextEncoder_encode m))).
Proof.
  intros Hm Henc Hdec.
  destruct (decrypt_sealed (draw 12 w) (TextEncoder_encode m) key
                           (length_draw 12 w) (draw_range 12 w)
                           (TextEncoder_bytes m Hm) Hdec) as (D1 & _ & D3).
  eexists. eexists. split; [apply encrypt_run; assumption|].
  split; [exact D1 | exact D3].
Qed.

Lemma encrypt_then_decrypt_any_witness :
  let w0 := mkWorld (fun i => Z.of_nat i) 0 [] [] in
  let key := mkCryptoKey (repeat 0 16) false [UsageEncrypt; UsageDecrypt] in
  exists packed w',
    AesV1.encryptUtf8AesGcmPacked [65279; 104; 105] key w0 = (Ok packed, w') /\
    fst (AesV3.decryptUtf8AesGcmPacked packed key None 128 w') = Ok [104; 105].
Proof.
  intros w0 key.
  destruct (encrypt_then_decrypt_any [65279; 104; 105] key w0)
    as (packed & w' & Hrun & _ & Hback).
  - repeat constructor; lia.
  - reflexivity.
  - reflexivity.
  - exists packed, w'. split; [exact Hrun | apply Hback].
Defined.

(** * aes.ts: how decryption fails *)

Lemma aesGcmDecrypt_names iv aad t key data e :
  aesGcmDecrypt iv aad t key data = Throw e ->
  e = mkExn "TypeError" "" \/
  e = DOMException "InvalidAccessError" "" \/
  e = DOMException "OperationError" "".
Proof.
  unfold aesGcmDecrypt. intros H.
  repeat match type of H with
         | (if ?b then _ else _) = _ => destruct b
         | match ?o with Some _ => _ | None => _ end = _ => destruct o
         end; inversion H; auto.
Qed.

(** The [catch] clause on an exception with a name *)
Lemma decryptFailed_named e w :
  exn_name e <> EmptyString ->
  AesV23.decryptFailed e w
  = (Throw (Error ("AES-GCM decrypt failed: " +++ exn_name e
                     +++ " (likely key/IV/tag/AAD mismatch)")),
     addConsole (mkEntry LevelError [ArgText "[AES-GCM decrypt] failed:";
                                     ArgText (exn_name e); ArgExn e]) w).
Proof.
  intros Hn. unfold AesV23.decryptFailed, bind, console_error, console_write, throw.
  apply String.eqb_neq in Hn. rewrite Hn. reflexivity.
Qed.

Lemma decryptFailed_throws e w :
  exists e' w', AesV23.decryptFailed e w = (Throw e', w') /\
                subtle_ops w' = subtle_ops w.
Proof.
  unfold AesV23.decryptFailed, bind, console_error, console_write, throw.
  eexists. eexists. split; reflexivity.
Qed.

Lemma printKeyHex_ops key w :
  subtle_ops (snd (AesV23.printKeyHex key w)) = subtle_ops w ++ [OpExportKey].
Proof.
  unfold AesV23.printKeyHex, bind, subtle_exportKey, bind, request, lift, exportRaw,
    console_log, console_write.
  destruct (key_extractable key); reflexivity.
Qed.

Lemma tooShort_default data :
  AesV23.tooShort data 128 = (List.length data <? 28)%nat.
Proof.
  unfold AesV23.tooShort.
  destruct (Nat.ltb_spec (List.length data) 28);
    [apply Z.ltb_lt | apply Z.ltb_ge]; lia.
Qed.




(** C3 as stated fails.  On 12 zero bytes of IV and 16 zero bytes of
    ciphertext the tag does not verify: the first copy lets the
    platform's own OperationError through, and the errors the third copy
    raises quote the platform's error name, so that a key without the
    decrypt usage yields another error than a failed tag. *)
Lemma platform_error_is_observable :
  let w0 := mkWorld (fun _ => 0) 0 [] [] in
  let packed := "0x00000000000000000000000000000000000000000000000000000000" in
  let key := mkCryptoKey (repeat 0 16) true [UsageEncrypt; UsageDecrypt] in
  let encryptOnly := mkCryptoKey (repeat 0 16) true [UsageEncrypt] in
  aesGcmDecrypt (repeat 0 12) None 128 key (repeat 0 16)
  = Throw (DOMException "OperationError" "") /\
  fst (AesV1.decryptUtf8AesGcmPacked packed key w0)
  = Throw (DOMException "OperationError" "") /\
  fst (AesV3.decryptUtf8AesGcmPacked packed key None 128 w0)
  = Throw (Error "AES-GCM decrypt failed: OperationError (likely key/IV/tag/AAD mismatch)") /\
  fst (AesV3.decryptUtf8AesGcmPacked packed encryptOnly None 128 w0)
  = Throw (Error "AES-GCM decrypt failed: InvalidAccessError (likely key/IV/tag/AAD mismatch)").
Proof. vm_compute. repeat split. Qed.

(** C3, amended.  When the platform's decrypt fails with an exception
    [e]: the second and third copies log it and raise a new [Error]
    whose message is "AES-GCM decrypt failed: " followed by [e]'s name
    and " (likely key/IV/tag/AAD mismatch)", never [e] itself, so that
    every failure to authenticate (an OperationError, whatever was wrong)
    surfaces as one and the same error; the first copy has no handler and
    raises [e]. *)
Theorem decrypt_failure_wrapping :
  (forall packed key w e,
      (12 <= List.length (AesV1.hexToBytes packed))%nat ->
      aesGcmDecrypt (firstn 12 (AesV1.hexToBytes packed)) None 128 key
                    (skipn 12 (AesV1.hexToBytes packed)) = Throw e ->
      AesV1.decryptUtf8AesGcmPacked packed key w = (Throw e, addOp OpDecrypt w)) /\
  (forall packed key aad t w data e,
      AesV23.hexToBytes packed = Ok data ->
      AesV23.tooShort data t = false ->
      aesGcmDecrypt (firstn 12 data) aad t key (skipn 12 data) = Throw e ->
      AesV3.decryptUtf8AesGcmPacked packed key aad t w
      = (Throw (Error ("AES-GCM decrypt failed: " +++ exn_name e
                         +++ " (likely key/IV/tag/AAD mismatch)")),
         addConsole (mkEntry LevelError [ArgText "[AES-GCM decrypt] failed:";
                                         ArgText (exn_name e); ArgExn e])
                    (addOp OpDecrypt w))) /\
  (forall packed key aad t w data e,
      key_extractable key = true ->
      AesV23.hexToBytes packed = Ok data ->
      AesV23.tooShort data t = false ->
      aesGcmDecrypt (firstn 12 data) aad t key (skipn 12 data) = Throw e ->
      fst (AesV2.decryptUtf8AesGcmPacked packed key aad t w)
      = Throw (Error ("AES-GCM decrypt failed: " +++ exn_name e
                        +++ " (likely key/IV/tag/AAD mismatch)"))) /\
  (forall iv aad key data,
      hasUsage UsageDecrypt key = true ->
      GCM.unseal (key_material key) iv (orEmpty aad) 16 data = None ->
      aesGcmDecrypt iv aad 128 key data = Throw (DOMException "OperationError" "")) /\
  (forall packed key aad w data,
      AesV23.hexToBytes packed = Ok data ->
      (28 <= List.length data)%nat ->
      hasUsage UsageDecrypt key = true ->
      GCM.unseal (key_material key) (firstn 12 data) (orEmpty aad) 16 (skipn 12 data)
      = None ->
      fst (AesV3.decryptUtf8AesGcmPacked packed key aad 128 w)
      = Throw (Error "AES-GCM decrypt failed: OperationError (likely key/IV/tag/AAD mismatch)") /\
      (key_extractable key = true ->
       fst (AesV2.decryptUtf8AesGcmPacked packed key aad 128 w)
       = Throw (Error "AES-GCM decrypt failed: OperationError (likely key/IV/tag/AAD mismatch)"))).
Proof.
  assert (forall iv aad t key data e,
             aesGcmDecrypt iv aad t key data = Throw e -> exn_name e <> EmptyString)
    as Hname.
  { intros iv aad t key data e H.
    destruct (aesGcmDecrypt_names _ _ _ _ _ _ H) as [-> | [-> | ->]]; discriminate. }
  assert (forall iv aad key data,
             hasUsage UsageDecrypt key = true ->
             GCM.unseal (key_material key) iv (orEmpty aad) 16 data = None ->
             aesGcmDecrypt iv aad 128 key data = Throw (DOMException "OperationError" ""))
    as Hauth.
  { intros iv aad key data Hu Hopen. unfold aesGcmDecrypt. rewrite Hu.
    cbn [orb negb Z.ltb Z.compare]. change (Z.to_nat (128 / 8)) with 16%nat.
    rewrite Hopen. reflexivity. }
  assert (forall packed key aad t w data e,
             AesV23.hexToBytes packed = Ok data ->
             AesV23.tooShort data t = false ->
             aesGcmDecrypt (firstn 12 data) aad t key (skipn 12 data) = Throw e ->
             AesV3.decryptUtf8AesGcmPacked packed key aad t w
             = (Throw (Error ("AES-GCM decrypt failed: " +++ exn_name e
                                +++ " (likely key/IV/tag/AAD mismatch)")),
                addConsole (mkEntry LevelError [ArgText "[AES-GCM decrypt] failed:";
                                                ArgText (exn_name e); ArgExn e])
                           (addOp OpDecrypt w))) as H3.
  { intros packed key aad t w data e Hdata Hlong Hfail.
    unfold AesV3.decryptUtf8AesGcmPacked, try_catch, bind, lift.
    rewrite Hdata, Hlong, !toArrayBuffer_id.
    assert (option_map AesV3.toArrayBuffer aad = aad) as ->
        by (destruct aad; cbn [option_map]; rewrite ?toArrayBuffer_id; reflexivity).
    unfold subtle_decrypt, bind, request, lift. rewrite Hfail.
    apply decryptFailed_named. eapply Hname; eassumption. }
  assert (forall packed key aad t w data e,
             key_extractable key = true ->
             AesV23.hexToBytes packed = Ok data ->
             AesV23.tooShort data t = false ->
             aesGcmDecrypt (firstn 12 data) aad t key (skipn 12 data) = Throw e ->
             fst (AesV2.decryptUtf8AesGcmPacked packed key aad t w)
             = Throw (Error ("AES-GCM decrypt failed: " +++ exn_name e
                               +++ " (likely key/IV/tag/AAD mismatch)"))) as H2.
  { intros packed key aad t w data e He Hdata Hlong Hfail.
    unfold AesV2.decryptUtf8AesGcmPacked, try_catch.
    unfold bind at 1. unfold console_log at 1, console_write at 1.
    unfold bind at 1. rewrite (printKeyHex_run key _ He).
    unfold bind, lift. rewrite Hdata, Hlong.
    unfold subtle_decrypt, bind, request, lift. rewrite Hfail.
    rewrite decryptFailed_named by (eapply Hname; eassumption). reflexivity. }
  split; [|split; [|split; [|split]]]; try assumption.
  - intros packed key w e Hlen Hfail. unfold AesV1.decryptUtf8AesGcmPacked. cbv zeta.
    apply Nat.ltb_ge in Hlen. rewrite Hlen.
    unfold bind, subtle_decrypt, bind, request, lift. rewrite Hfail. reflexivity.
  - intros packed key aad w data Hdata Hlen Hu Hopen.
    assert (AesV23.tooShort data 128 = false) as Hlong
        by (rewrite tooShort_default; apply Nat.ltb_ge; assumption).
    pose proof (Hauth _ _ _ _ Hu Hopen) as Hfail.
    split.
    + rewrite (H3 _ _ _ _ w _ _ Hdata Hlong Hfail). reflexivity.
    + intros He. rewrite (H2 _ _ _ _ w _ _ He Hdata Hlong Hfail). reflexivity.
Qed.

Lemma decrypt_failure_wrapping_witness :
  let w0 := mkWorld (fun _ => 0) 0 [] [] in
  let packed := "0x00000000000000000000000000000000000000000000000000000000" in
  let key := mkCryptoKey (repeat 0 16) true [UsageEncrypt; UsageDecrypt] in
  AesV1.decryptUtf8AesGcmPacked packed key w0
  = (Throw (DOMException "OperationError" ""), addOp OpDecrypt w0) /\
  fst (AesV2.decryptUtf8AesGcmPacked packed key None 128 w0)
  = Throw (Error "AES-GCM decrypt failed: OperationError (likely key/IV/tag/AAD mismatch)").
Proof.
  intros w0 packed key.
  destruct decrypt_failure_wrapping as (H1 & _ & H2 & _ & _).
  split.
  - apply H1; [vm_compute; lia | vm_compute; reflexivity].
  - apply (H2 packed key None 128 w0 (repeat 0 28) (DOMException "OperationError" ""));
      vm_compute; reflexivity.
Defined.

(** * aes.ts: what reaches the console *)

(** The first and third copies' encrypt writes nothing to the console. *)
Lemma encrypt_v1_console m key w :
  console (snd (AesV1.encryptUtf8AesGcmPacked m key w)) = console w.
Proof.
  unfold AesV1.encryptUtf8AesGcmPacked, bind, subtle_encrypt, bind, request, lift, ret.
  rewrite run_getRandomValues12.
  destruct (aesGcmEncrypt _ _ _ _ _); reflexivity.
Qed.

(** The first copy's decrypt writes nothing to the console. *)
Lemma decrypt_v1_console packed key w :
  console (snd (AesV1.decryptUtf8AesGcmPacked packed key w)) = console w.
Proof.
  unfold AesV1.decryptUtf8AesGcmPacked. cbv zeta.
  destruct (_ <? _)%nat; [reflexivity|].
  unfold bind, subtle_decrypt, bind, request, lift, ret.
  destruct (aesGcmDecrypt _ _ _ _ _); reflexivity.
Qed.

(** The second copy's encrypt writes the key to the console, whatever
    the text, for every key that can be exported. *)
Lemma encrypt_v2_console m key w :
  key_extractable key = true ->
  console (snd (AesV2.encryptUtf8AesGcmPacked m key w))
  = console w ++ [mkEntry LevelLog [ArgText "Key (hex):";
                                    ArgText (hexPairs (key_material key))]].
Proof.
  intros He. rewrite encrypt_v2_unfold, (printKeyHex_run key w He).
  rewrite encrypt_v1_console. reflexivity.
Qed.

(** C4 is broken by the second copy.  Encrypting "hello" under the key
    00 01 .. 0f, and decrypting the result, each write
    ["Key (hex):", "000102030405060708090a0b0c0d0e0f"] to the console;
    the first and third copies write nothing. *)
Theorem second_copy_logs_the_key :
  let w0 := mkWorld (fun _ => 0) 0 [] [] in
  let key := mkCryptoKey [0; 1; 2; 3; 4; 5; 6; 7; 8; 9; 10; 11; 12; 13; 14; 15] true
                         [UsageEncrypt; UsageDecrypt] in
  let packed := "0x00000000000000000000000021b3eb3ff6d5da0429e8cdfe3e7c225048a22ae7c0" in
  let keyLine := mkEntry LevelLog [ArgText "Key (hex):";
                                   ArgText "000102030405060708090a0b0c0d0e0f"] in
  AesV2.encryptUtf8AesGcmPacked (codeUnits "hello") key w0
  = (Ok packed, mkWorld (fun _ => 0) 12 [keyLine] [OpExportKey; OpEncrypt]) /\
  AesV2.decryptUtf8AesGcmPacked packed key None 128 w0
  = (Ok (codeUnits "hello"),
     mkWorld (fun _ => 0) 0
             [mkEntry LevelLog [ArgText "AES-GCM decrypt:"; ArgText packed]; keyLine]
             [OpExportKey; OpDecrypt]) /\
  console (snd (AesV1.encryptUtf8AesGcmPacked (codeUnits "hello") key w0)) = [] /\
  console (snd (AesV1.decryptUtf8AesGcmPacked packed key w0)) = [] /\
  console (snd (AesV3.encryptUtf8AesGcmPacked (codeUnits "hello") key w0)) = [] /\
  console (snd (AesV3.decryptUtf8AesGcmPacked packed key None 128 w0)) = [].
Proof. vm_compute. repeat split. Qed.

(** * The SDK loader *)

Section LoaderFacts.

Variable URL_new : string -> option string -> option URLRecord.
Variable RequestInit : Type.

Local Abbreviation call := (callFetch URL_new RequestInit).

(** A request that is not for a WASM file goes through every wrapper
    unchanged. *)
Lemma callFetch_not_wasm f : forall origin baseURI input init log,
  isWasmUrl (inputUrl RequestInit input) = false ->
  call f origin baseURI input init log = CallNative input init log.
Proof.
  induction f as [|basePath f IH]; intros origin baseURI input init log Hw;
    [reflexivity|].
  cbn [callFetch]. unfold patchedFetchStep. rewrite Hw. apply IH; assumption.
Qed.

Lemma getBasePath_browser h page :
  window h = Some page ->
  getBasePath h = if startsWith (location_pathname page) "/farewell"
                  then "/farewell" else "".
Proof. intros H. unfold getBasePath. rewrite H. reflexivity. Qed.


End LoaderFacts.


(** ** Patching once *)

Lemma setWindow_wrappers page h :
  pageFetchWrappers (setWindow page h) = fetchWrappers (window_fetch page) /\
  pageInstantiateWrappers (setWindow page h)
  = instantiateWrappers (instantiateStreaming page).
Proof. split; reflexivity. Qed.

(** [_patchWasmLoading] on a loader whose flag is set changes nothing;
    on another it sets the flag and adds at most one wrapper to each
    primitive. *)
Lemma patchWasmLoading_effect this h :
  (wasmPatchApplied this = true -> patchWasmLoading this h = (this, h)) /\
  wasmPatchApplied (fst (patchWasmLoading this h)) = true /\
  (pageFetchWrappers (snd (patchWasmLoading this h))
   <= pageFetchWrappers h + (if wasmPatchApplied this then 0 else 1))%nat /\
  (pageInstantiateWrappers (snd (patchWasmLoading this h))
   <= pageInstantiateWrappers h + (if wasmPatchApplied this then 0 else 1))%nat.
Proof.
  unfold patchWasmLoading. destruct (wasmPatchApplied this) eqn:Hflag.
  - cbn [fst snd]. repeat split; auto; lia.
  - destruct (String.eqb (getBasePath h) EmptyString).
    + cbn [fst snd wasmPatchApplied]. repeat split; try discriminate; lia.
    + unfold pageFetchWrappers, pageInstantiateWrappers.
      destruct (window h) as [page|] eqn:Hw;
        cbn [fst snd wasmPatchApplied window setWindow window_fetch
             instantiateStreaming fetchWrappers instantiateWrappers];
        rewrite ?Hw; repeat split; try discriminate; lia.
Qed.

Lemma logLine_wrappers line h :
  pageFetchWrappers (logLine line h) = pageFetchWrappers h /\
  pageInstantiateWrappers (logLine line h) = pageInstantiateWrappers h /\
  window (logLine line h) = window h.
Proof. repeat split. Qed.

Lemma traceAll_wrappers b ms h :
  pageFetchWrappers (traceAll b ms h) = pageFetchWrappers h /\
  pageInstantiateWrappers (traceAll b ms h) = pageInstantiateWrappers h /\
  window (traceAll b ms h) = window h.
Proof. destruct b; repeat split. Qed.

(** One call of [load()] does to the two primitives what
    [_patchWasmLoading] does, or nothing. *)
Lemma load_primitives this h :
  let r := load this h in
  (fst (fst r), snd (fst r), snd r) = r /\
  ((window h = None /\ snd (fst r) = this /\
    pageFetchWrappers (snd r) = pageFetchWrappers h /\
    pageInstantiateWrappers (snd r) = pageInstantiateWrappers h) \/
   (window h <> None /\
    snd (fst r) = fst (patchWasmLoading this (logLine "[RelayerSDKLoader] load..." h)) /\
    pageFetchWrappers (snd r)
    = pageFetchWrappers (snd (patchWasmLoading this (logLine "[RelayerSDKLoader] load..." h))) /\
    pageInstantiateWrappers (snd r)
    = pageInstantiateWrappers
        (snd (patchWasmLoading this (logLine "[RelayerSDKLoader] load..." h))))).
Proof.
  unfold load.
  set (h1 := logLine "[RelayerSDKLoader] load..." h).
  assert (window h1 = window h) as W1 by reflexivity.
  destruct (window h1) as [page1|] eqn:Hw1.
  2: { cbv zeta. cbn [fst snd]. split; [reflexivity|]. left. repeat split. auto. }
  cbv zeta. destruct (patchWasmLoading this h1) as [this2 h2]. cbn [fst snd].
  assert (window h <> None) as Hne by (rewrite <- W1; discriminate).
  destruct (window h2) as [page2|] eqn:Hw2.
  2: { cbn [fst snd]. split; [reflexivity|]. right. repeat split; auto. }
  destruct (window_relayerSDK page2) as [sdk|].
  - destruct (isFhevmRelayerSDKType sdk) as [ok ms].
    destruct (traceAll_wrappers (has_trace this2) ms h2) as (TF & TI & TW).
    destruct ok; cbn [negb fst snd]; (split; [reflexivity|]); right;
      repeat split; auto.
  - destruct (existsb _ _).
    + destruct (isFhevmWindowType _) as [ok ms].
      destruct (traceAll_wrappers (has_trace this2) ms h2) as (TF & TI & TW).
      destruct ok; cbn [negb fst snd]; (split; [reflexivity|]); right;
        repeat split; auto.
    + cbn [fst snd]. split; [reflexivity|]. right.
      unfold pageFetchWrappers, pageInstantiateWrappers. rewrite Hw2.
      repeat split; auto.
Qed.

(** The number of wrappers plus what one more [load()] on this loader
    could still add does not grow. *)
Lemma load_effect this h :
  let r := load this h in
  (pageFetchWrappers (snd r) + (if wasmPatchApplied (snd (fst r)) then 0 else 1)
   <= pageFetchWrappers h + (if wasmPatchApplied this then 0 else 1))%nat /\
  (pageInstantiateWrappers (snd r) + (if wasmPatchApplied (snd (fst r)) then 0 else 1)
   <= pageInstantiateWrappers h + (if wasmPatchApplied this then 0 else 1))%nat.
Proof.
  cbv zeta. destruct (load_primitives this h) as [_ [(_ & -> & -> & ->) | (_ & -> & -> & ->)]].
  - split; lia.
  - set (h1 := logLine "[RelayerSDKLoader] load..." h).
    destruct (patchWasmLoading_effect this h1) as (_ & -> & PF & PI).
    change (pageFetchWrappers h1) with (pageFetchWrappers h) in PF.
    change (pageInstantiateWrappers h1) with (pageInstantiateWrappers h) in PI.
    split; lia.
Qed.

Lemma unpatched_app a b : unpatched (a ++ b) = (unpatched a + unpatched b)%nat.
Proof. unfold unpatched. rewrite filter_app, length_app. reflexivity. Qed.

Lemma unpatched_cons x l :
  unpatched (x :: l) = ((if wasmPatchApplied x then 0 else 1) + unpatched l)%nat.
Proof. unfold unpatched. cbn [filter]. destruct (wasmPatchApplied x); reflexivity. Qed.

Lemma nth_error_split_at {A} (l : list A) i x :
  nth_error l i = Some x -> l = firstn i l ++ x :: skipn (S i) l.
Proof.
  revert i. induction l as [|y l IH]; intros [|i] H; try discriminate.
  - inversion H. reflexivity.
  - cbn [firstn skipn app]. f_equal. apply IH. exact H.
Qed.

Lemma unpatched_update loaders i this this' :
  nth_error loaders i = Some this ->
  (unpatched (firstn i loaders ++ this' :: skipn (S i) loaders)
   + (if wasmPatchApplied this then 0 else 1)
   = unpatched loaders + (if wasmPatchApplied this' then 0 else 1))%nat.
Proof.
  intros H. rewrite (nth_error_split_at loaders i this H) at 3.
  rewrite !unpatched_app, !unpatched_cons. lia.
Qed.

(** Over a page session, the wrappers on a primitive plus the loaders
    that have not patched yet never grow in number. *)
Lemma session_potential calls : forall loaders h,
  let r := session calls loaders h in
  (pageFetchWrappers (snd r) + unpatched (fst r)
   <= pageFetchWrappers h + unpatched loaders)%nat /\
  (pageInstantiateWrappers (snd r) + unpatched (fst r)
   <= pageInstantiateWrappers h + unpatched loaders)%nat.
Proof.
  induction calls as [|i rest IH]; intros loaders h; cbv zeta.
  - cbn [session fst snd]. split; lia.
  - cbn [session]. destruct (nth_error loaders i) as [this|] eqn:Hn; [|apply IH].
    pose proof (load_effect this h) as HL. cbv zeta in HL.
    destruct (load this h) as [[res this'] h']. cbn [fst snd] in HL.
    destruct HL as [HF HI].
    pose proof (unpatched_update loaders i this this' Hn) as HU.
    specialize (IH (firstn i loaders ++ this' :: skipn (S i) loaders) h').
    cbv zeta in IH. destruct IH as [IF II]. split; lia.
Qed.

(** C8 as stated fails: the flag belongs to a loader, not to the page.
    On a page under "/farewell", a [load()] on each of two loaders wraps
    [fetch] and [instantiateStreaming] twice. *)
Lemma two_loaders_patch_twice :
  let page := mkPage "/farewell/" "https://example.org" "https://example.org/farewell/"
                     NativeFetch NativeInstantiate None [] in
  let h := mkHost "production" (Some page) [] [] in
  let after := snd (session [0%nat; 1%nat] [newLoader false; newLoader false] h) in
  option_map window_fetch (window after)
  = Some (PatchedFetch "/farewell" (PatchedFetch "/farewell" NativeFetch)) /\
  option_map instantiateStreaming (window after)
  = Some (PatchedInstantiate "/farewell" (PatchedInstantiate "/farewell" NativeInstantiate)) /\
  pageFetchWrappers after = 2%nat /\
  pageInstantiateWrappers after = 2%nat.
Proof. vm_compute. repeat split. Qed.

(** C8, amended.  The patch is applied at most once per loader: a
    [load()] on a loader whose flag is set leaves both primitives as
    they are, so any number of [load()] calls on one new loader wraps
    each primitive at most once; over a session with several loaders,
    each primitive gains at most one wrapper per loader that had not
    patched before. *)
Theorem patch_once_per_loader :
  (forall this h,
      wasmPatchApplied this = true ->
      pageFetchWrappers (snd (load this h)) = pageFetchWrappers h /\
      pageInstantiateWrappers (snd (load this h)) = pageInstantiateWrappers h /\
      wasmPatchApplied (snd (fst (load this h))) = true) /\
  (forall n trace h,
      let after := snd (session (repeat 0%nat n) [newLoader trace] h) in
      (pageFetchWrappers after <= pageFetchWrappers h + 1)%nat /\
      (pageInstantiateWrappers after <= pageInstantiateWrappers h + 1)%nat) /\
  (forall calls loaders h,
      let after := snd (session calls loaders h) in
      (pageFetchWrappers after <= pageFetchWrappers h + unpatched loaders)%nat /\
      (pageInstantiateWrappers after
       <= pageInstantiateWrappers h + unpatched loaders)%nat).
Proof.
  split; [|split].
  - intros this h Hflag.
    destruct (load_primitives this h) as [_ [(_ & E1 & E2 & E3) | (_ & E1 & E2 & E3)]];
      cbv zeta in *; rewrite E1, E2, E3.
    + auto.
    + destruct (patchWasmLoading_effect this (logLine "[RelayerSDKLoader] load..." h))
        as (Hsame & _). rewrite (Hsame Hflag). cbn [fst snd]. auto.
  - intros n trace h after.
    destruct (session_potential (repeat 0%nat n) [newLoader trace] h) as [HF HI].
    cbv zeta in HF, HI. fold after in HF, HI.
    change (unpatched [newLoader trace]) with 1%nat in HF, HI. split; lia.
  - intros calls loaders h after.
    destruct (session_potential calls loaders h) as [HF HI].
    cbv zeta in HF, HI. fold after in HF, HI. split; lia.
Qed.

Lemma patch_once_per_loader_witness :
  let page := mkPage "/farewell/" "https://example.org" "https://example.org/farewell/"
                     NativeFetch NativeInstantiate None [] in
  let h := mkHost "production" (Some page) [] [] in
  let patched := snd (load (newLoader false) h) in
  pageFetchWrappers (snd (load (mkLoader true false) patched)) = 1%nat /\
  (pageFetchWrappers (snd (session [0; 0; 0]%nat [newLoader false] h)) <= 0 + 1)%nat.
Proof.
  intros page h patched.
  destruct patch_once_per_loader as (H1 & H2 & _).
  split.
  - destruct (H1 (mkLoader true false) patched eq_refl) as (-> & _). reflexivity.
  - apply (H2 3%nat false h).
Defined.

(** * Further properties of the helpers *)

(** [key16ToBigint] reads back what [bigintToKey16] wrote: the integer
    modulo 2^128. *)
Theorem key16ToBigint_bigintToKey16 (v : Z) :
  Aes.key16ToBigint (Aes.bigintToKey16 v) = v mod 2 ^ 128.
Proof.
  rewrite bigintToKey16_bytes_be, key16ToBigint_be_value by apply bytes_be_range.
  rewrite be_value_bytes_be. reflexivity.
Qed.

(** The hex text of a byte array reads back as the array, in every copy
    of [hexToBytes]; it is ["0x"] and two lowercase digits per byte. *)
Theorem bytesToHex_reads_back (b : list Z) :
  Forall is_byte b ->
  AesV1.hexToBytes (Aes.bytesToHex b) = b /\
  AesV23.hexToBytes (Aes.bytesToHex b) = Ok b /\
  Aes.bytesToHex b = "0x" +++ hexPairs b /\
  String.length (hexPairs b) = (2 * List.length b)%nat /\
  forallb_string isLowerHex (hexPairs b) = true.
Proof.
  intros Hb. destruct (hexToBytes_bytesToHex b Hb) as [H1 H2].
  repeat split; try assumption.
  - apply bytesToHex_hexPairs.
  - apply length_hexPairs; assumption.
  - apply lowerHex_hexPairs; assumption.
Qed.

Lemma bytesToHex_reads_back_witness :
  AesV1.hexToBytes (Aes.bytesToHex [0; 15; 16; 255]) = [0; 15; 16; 255] /\
  Aes.bytesToHex [0; 15; 16; 255] = "0x000f10ff".
Proof.
  destruct (bytesToHex_reads_back [0; 15; 16; 255]) as (H1 & _ & _).
  - repeat constructor; unfold is_byte; lia.
  - split; [exact H1 | reflexivity].
Defined.

(** [randomHex16] takes 16 bytes of entropy and writes them as ["0x"]
    and 32 lowercase hex digits, which [hex16ToBigint] accepts. *)
Theorem randomHex16_shape (w : World) :
  Bit128.randomHex16 w = (Ok ("0x" +++ hexPairs (draw 16 w)), advance 16 w) /\
  String.length (hexPairs (draw 16 w)) = 32%nat /\
  forallb_string isLowerHex (hexPairs (draw 16 w)) = true /\
  exists v, Bit128.hex16ToBigint ("0x" +++ hexPairs (draw 16 w)) = Ok v /\
            0 <= v < 2 ^ 128.
Proof.
  pose proof (draw_range 16 w) as Hr.
  pose proof (length_hexPairs _ Hr) as Hl. rewrite length_draw in Hl.
  pose proof (lowerHex_hexPairs _ Hr) as Hh.
  split; [|split; [exact Hl | split; [exact Hh|]]].
  - unfold Bit128.randomHex16, bind, ret.
    change (getRandomValues 16 w) with (Ok (draw 16 w), advance 16 w).
    cbv beta iota zeta.
    pose proof (bytesToHex_hexPairs (draw 16 w)) as E. unfold Aes.bytesToHex in E.
    cbv zeta in E. rewrite E. reflexivity.
  - destruct (parseDigits16_hex (hexPairs (draw 16 w)) 0 ltac:(lia)) as (v & Hv & Hb).
    { eapply forallb_string_impl; [|exact Hh]. apply isLowerHex_isHexChar. }
    exists v. split.
    + apply (hex16ToBigint_digits _ v Hh); [rewrite Hl; lia | exact Hv].
    + rewrite Hl in Hb. change (16 ^ Z.of_nat 32) with (2 ^ 128) in Hb. lia.
Qed.

(** The first copy's encrypt and decrypt leave the console as it was,
    whatever the text, the packed value and the key. *)
Theorem first_copy_console_untouched (m : list Z) (packed : string)
        (key : CryptoKey) (w : World) :
  console (snd (AesV1.encryptUtf8AesGcmPacked m key w)) = console w /\
  console (snd (AesV3.encryptUtf8AesGcmPacked m key w)) = console w /\
  console (snd (AesV1.decryptUtf8AesGcmPacked packed key w)) = console w.
Proof.
  split; [|split].
  - apply encrypt_v1_console.
  - apply encrypt_v1_console.
  - apply decrypt_v1_console.
Qed.

(** * The hex codec, the other way round *)

(** What [hex16ToBigint] has read when it returns *)
Lemma hex16ToBigint_inv hex v :
  Bit128.hex16ToBigint hex = Ok v ->
  forallb_string isLowerHex (Bit128.body hex) = true /\
  (String.length (Bit128.body hex) <= 32)%nat /\
  parseDigits 16 0 (Bit128.body hex) = Some v /\
  0 <= v < 2 ^ 128.
Proof.
  rewrite hex16ToBigint_body. cbv zeta.
  destruct (Bit128.body hex) as [|c r] eqn:Hb.
  - intros H. inversion H. subst. repeat split; simpl; lia.
  - set (s := String c r) in *.
    destruct (forallb_string isLowerHex s) eqn:Hs; cbn [negb]; [|discriminate].
    destruct (32 <? String.length s)%nat eqn:Hlen; [discriminate|].
    apply Nat.ltb_ge in Hlen.
    destruct (parseDigits16_hex s 0 ltac:(lia)
                (forallb_string_impl _ _ _ isLowerHex_isHexChar Hs)) as (v' & Hv & Hbd).
    rewrite Hv. intros H. inversion H. subst v'.
    repeat split; try assumption; try lia.
    assert (16 ^ Z.of_nat (String.length s) <= 16 ^ 32)
      by (apply Z.pow_le_mono_r; lia).
    change (2 ^ 128) with (16 ^ 32). lia.
Qed.

(** What [hex16ToBigint] makes of a body of lowercase digits *)
Lemma hex16ToBigint_of_body hex :
  forallb_string isLowerHex (Bit128.body hex) = true ->
  Bit128.hex16ToBigint hex =
  if (32 <? String.length (Bit128.body hex))%nat
  then Throw (Error "Too many hex digits for 128-bit")
  else match parseDigits 16 0 (Bit128.body hex) with
       | Some v => Ok v
       | None => Throw (Error "unreachable")
       end.
Proof.
  intros Hs. rewrite hex16ToBigint_body. cbv zeta.
  destruct (Bit128.body hex) as [|c r]; [reflexivity|].
  rewrite Hs. reflexivity.
Qed.

Lemma bigintToHex16_run x :
  Bit128.bigintToHex16 x = Ok ("0x" +++ padStart0 32 (toString16 (x mod 2 ^ 128))).
Proof.
  unfold Bit128.bigintToHex16. rewrite mask_value. cbn [rbind].
  rewrite Z.land_ones by lia. unfold padStart0.
  destruct (String.length (toString16 (x mod 2 ^ 128)) <? 32)%nat eqn:Hlt;
    [reflexivity|].
  apply Nat.ltb_ge in Hlt.
  replace (32 - String.length (toString16 (x mod 2 ^ 128)))%nat with 0%nat by lia.
  reflexivity.
Qed.

(** The 32 digits that [bigintToHex16] writes for a 128-bit value *)
Lemma formatted_digits x :
  0 <= x < 2 ^ 128 ->
  forallb_string isLowerHex (padStart0 32 (toString16 x)) = true /\
  String.length (padStart0 32 (toString16 x)) = 32%nat /\
  parseDigits 16 0 (padStart0 32 (toString16 x)) = Some x.
Proof.
  intros Hx.
  destruct (toString16_spec x 31 Hx) as (Hp & Hh & Hl).
  unfold padStart0. repeat split.
  - rewrite forallb_string_append, lowerHex_zeros, Hh. reflexivity.
  - rewrite length_append, length_repeatChar. lia.
  - rewrite parseDigits_zeros. exact Hp.
Qed.

Lemma hex16ToBigint_formatted x :
  0 <= x < 2 ^ 128 ->
  Bit128.hex16ToBigint ("0x" +++ padStart0 32 (toString16 x)) = Ok x.
Proof.
  intros Hx. destruct (formatted_digits x Hx) as (Hh & Hl & Hp).
  apply hex16ToBigint_digits; [assumption | lia | assumption].
Qed.

(** A lowercase hex digit is the digit of its value. *)
Lemma lowerHex_hexDigit c :
  isLowerHex c = true ->
  match hexValue c with
  | Some d => hexDigit d = c
  | None => False
  end.
Proof.
  destruct c as [[] [] [] [] [] [] [] []]; intros H;
    first [discriminate H | reflexivity].
Qed.

(** Two runs of lowercase digits of one length and one value are the
    same run. *)
Lemma parseDigits16_inj d1 : forall d2 acc1 acc2 v,
  String.length d1 = String.length d2 ->
  forallb_string isLowerHex d1 = true ->
  forallb_string isLowerHex d2 = true ->
  parseDigits 16 acc1 d1 = Some v ->
  parseDigits 16 acc2 d2 = Some v ->
  acc1 = acc2 /\ d1 = d2.
Proof.
  induction d1 as [|c1 r1 IH]; intros [|c2 r2] acc1 acc2 v Hlen H1 H2 P1 P2;
    try discriminate Hlen.
  - simpl in P1, P2. split; congruence.
  - cbn [forallb_string] in H1, H2.
    apply andb_true_iff in H1 as [Hc1 Hr1]. apply andb_true_iff in H2 as [Hc2 Hr2].
    pose proof (lowerHex_hexDigit c1 Hc1) as E1.
    pose proof (lowerHex_hexDigit c2 Hc2) as E2.
    cbn [parseDigits] in P1, P2.
    destruct (hexValue c1) as [x1|] eqn:V1; [|contradiction].
    destruct (hexValue c2) as [x2|] eqn:V2; [|contradiction].
    pose proof (hexValue_range _ _ V1). pose proof (hexValue_range _ _ V2).
    replace (x1 <? 16) with true in P1 by (symmetry; apply Z.ltb_lt; lia).
    replace (x2 <? 16) with true in P2 by (symmetry; apply Z.ltb_lt; lia).
    simpl in Hlen. injection Hlen as Hlen.
    destruct (IH r2 _ _ v Hlen Hr1 Hr2 P1 P2) as [Hacc ->].
    assert (acc1 = acc2 /\ x1 = x2) as [-> ->] by lia.
    split; [reflexivity|]. rewrite <- E1, <- E2. reflexivity.
Qed.

Lemma padStart0_digits n d :
  forallb_string isLowerHex d = true ->
  forallb_string isLowerHex (padStart0 n d) = true /\
  parseDigits 16 0 (padStart0 n d) = parseDigits 16 0 d /\
  String.length (padStart0 n d) = Nat.max n (String.length d).
Proof.
  intros Hd. unfold padStart0. repeat split.
  - rewrite forallb_string_append, lowerHex_zeros, Hd. reflexivity.
  - apply parseDigits_zeros.
  - rewrite length_append, length_repeatChar. lia.
Qed.

(** Formatting what was parsed gives the digits read, padded to 32. *)
Lemma bigintToHex16_of_parsed hex v :
  Bit128.hex16ToBigint hex = Ok v ->
  Bit128.bigintToHex16 v = Ok ("0x" +++ padStart0 32 (Bit128.body hex)).
Proof.
  intros H. destruct (hex16ToBigint_inv hex v H) as (Hs & Hlen & Hp & Hv).
  rewrite bigintToHex16_run, Z.mod_small by assumption.
  destruct (formatted_digits v Hv) as (Fh & Fl & Fp).
  destruct (padStart0_digits 32 _ Hs) as (Bh & Bp & Bl).
  rewrite Hp in Bp.
  destruct (parseDigits16_inj (padStart0 32 (toString16 v))
                              (padStart0 32 (Bit128.body hex)) 0 0 v) as [_ ->];
    try assumption; [|reflexivity].
  rewrite Fl, Bl. lia.
Qed.

(** [bigintToHex16] after [hex16ToBigint] puts an accepted text in the
    canonical form: the digits it holds, in lowercase, left-padded with
    zeros to 32 and prefixed with 0x.  A text already in that form is
    left as it is. *)
Theorem bigintToHex16_after_hex16ToBigint (hex : string) (v : Z) :
  Bit128.hex16ToBigint hex = Ok v ->
  Bit128.bigintToHex16 v = Ok ("0x" +++ padStart0 32 (Bit128.body hex)) /\
  (String.length (Bit128.body hex) = 32%nat ->
   Bit128.bigintToHex16 v = Ok ("0x" +++ Bit128.body hex)) /\
  rbind (Bit128.bigintToHex16 v) Bit128.hex16ToBigint = Ok v.
Proof.
  intros H. pose proof (bigintToHex16_of_parsed hex v H) as Hfmt.
  destruct (hex16ToBigint_inv hex v H) as (Hs & Hlen & Hp & Hv).
  split; [exact Hfmt|]. split.
  - intros H32. rewrite Hfmt. unfold padStart0. rewrite H32. reflexivity.
  - rewrite bigintToHex16_run, Z.mod_small by assumption. cbn [rbind].
    apply hex16ToBigint_formatted; assumption.
Qed.

Lemma bigintToHex16_after_hex16ToBigint_witness :
  Bit128.bigintToHex16 255 = Ok "0x000000000000000000000000000000ff" /\
  Bit128.bigintToHex16 (2 ^ 128 - 1) = Ok "0xffffffffffffffffffffffffffffffff".
Proof.
  split.
  - apply (bigintToHex16_after_hex16ToBigint "  0XFF " 255). reflexivity.
  - destruct (bigintToHex16_after_hex16ToBigint
                "0xFFFFFFFFFFFFFFFFFFFFFFFFFFFFFFFF" (2 ^ 128 - 1) eq_refl)
      as (_ & H & _).
    apply H. reflexivity.
Defined.

(** * The key shares of the page *)

Lemma lxor_128 a b :
  0 <= a < 2 ^ 128 -> 0 <= b < 2 ^ 128 -> 0 <= Z.lxor a b < 2 ^ 128.
Proof.
  intros Ha Hb.
  assert (0 <= Z.lxor a b) as H0 by (apply Z.lxor_nonneg; lia).
  split; [assumption|].
  destruct (Z.eq_dec (Z.lxor a b) 0) as [->|Hne]; [lia|].
  apply (Z.log2_lt_pow2 _ 128); [lia|].
  eapply Z.le_lt_trans; [apply Z.log2_lxor; lia|].
  assert (forall x, 0 <= x < 2 ^ 128 -> Z.log2 x < 128) as Hlog.
  { intros x Hx. destruct (Z.eq_dec x 0) as [->|]; [simpl; lia|].
    apply Z.log2_lt_pow2; lia. }
  specialize (Hlog a Ha) as Hla. specialize (Hlog b Hb) as Hlb. lia.
Qed.

(** [xorHex] on two shares that [hex16ToBigint] reads *)
Lemma xorHex_run st s p :
  Bit128.hex16ToBigint (FarewellPage.sHex st) = Ok s ->
  Bit128.hex16ToBigint (FarewellPage.sPrimeHex st) = Ok p ->
  FarewellPage.xorHex st = "0x" +++ padStart0 32 (toString16 (Z.lxor p s)) /\
  0 <= Z.lxor p s < 2 ^ 128.
Proof.
  intros Hs Hp.
  destruct (hex16ToBigint_inv _ _ Hs) as (_ & _ & _ & Rs).
  destruct (hex16ToBigint_inv _ _ Hp) as (_ & _ & _ & Rp).
  pose proof (lxor_128 p s Rp Rs) as Rx.
  split; [|assumption].
  unfold FarewellPage.xorHex. rewrite Hp, Hs. cbn [rbind].
  rewrite bigintToHex16_run, Z.mod_small by assumption. reflexivity.
Qed.

(** The key [sk = s xor s'] shown by the page determines either share
    from the other.  When [hex16ToBigint] reads both shares, [xorHex] is
    0x and the 32 digits of their exclusive or; putting it in the place
    of one share makes [xorHex] the canonical form of that share. *)
Theorem xorHex_recovers_share (st : FarewellPage.KeyShares) (s p : Z) :
  Bit128.hex16ToBigint (FarewellPage.sHex st) = Ok s ->
  Bit128.hex16ToBigint (FarewellPage.sPrimeHex st) = Ok p ->
  let sk := FarewellPage.xorHex st in
  sk = "0x" +++ padStart0 32 (toString16 (Z.lxor p s)) /\
  String.length sk = 34%nat /\
  Bit128.hex16ToBigint sk = Ok (Z.lxor p s) /\
  FarewellPage.xorHex (FarewellPage.setSHex sk st)
  = "0x" +++ padStart0 32 (Bit128.body (FarewellPage.sHex st)) /\
  FarewellPage.xorHex (FarewellPage.setSPrimeHex sk st)
  = "0x" +++ padStart0 32 (Bit128.body (FarewellPage.sPrimeHex st)).
Proof.
  intros Hs Hp sk.
  destruct (xorHex_run st s p Hs Hp) as [Hsk Rx]. fold sk in Hsk.
  destruct (formatted_digits _ Rx) as (_ & Fl & _).
  pose proof (hex16ToBigint_formatted _ Rx) as Hback. rewrite <- Hsk in Hback.
  assert (forall a b, Bit128.hex16ToBigint a = Ok b ->
                      "0x" +++ padStart0 32 (toString16 b)
                      = "0x" +++ padStart0 32 (Bit128.body a)) as Hcanon.
  { intros a b Hab. pose proof (bigintToHex16_of_parsed a b Hab) as E.
    destruct (hex16ToBigint_inv _ _ Hab) as (_ & _ & _ & Rb).
    rewrite bigintToHex16_run, Z.mod_small in E by assumption.
    inversion E. reflexivity. }
  repeat apply conj.
  - exact Hsk.
  - rewrite Hsk. cbn [String.append String.length]. rewrite Fl. reflexivity.
  - exact Hback.
  - destruct (xorHex_run (FarewellPage.setSHex sk st) (Z.lxor p s) p Hback Hp)
      as [-> _].
    replace (Z.lxor p (Z.lxor p s)) with s
      by (rewrite <- Z.lxor_assoc, Z.lxor_nilpotent, Z.lxor_0_l; reflexivity).
    apply Hcanon; assumption.
  - destruct (xorHex_run (FarewellPage.setSPrimeHex sk st) s (Z.lxor p s) Hs Hback)
      as [-> _].
    replace (Z.lxor (Z.lxor p s) s) with p
      by (rewrite Z.lxor_assoc, Z.lxor_nilpotent, Z.lxor_0_r; reflexivity).
    apply Hcanon; assumption.
Qed.

Lemma xorHex_recovers_share_witness :
  let st := FarewellPage.mkKeyShares "0xFF" "0f" in
  FarewellPage.xorHex st = "0x000000000000000000000000000000f0" /\
  FarewellPage.xorHex (FarewellPage.setSHex (FarewellPage.xorHex st) st)
  = "0x000000000000000000000000000000ff".
Proof.
  intros st.
  destruct (xorHex_recovers_share st 255 15 eq_refl eq_refl) as (H1 & _ & _ & H4 & _).
  split; [exact H1 | exact H4].
Defined.

Lemma randomHex16_run w :
  Bit128.randomHex16 w = (Ok ("0x" +++ hexPairs (draw 16 w)), advance 16 w).
Proof.
  unfold Bit128.randomHex16, bind, ret.
  change (getRandomValues 16 w) with (Ok (draw 16 w), advance 16 w).
  cbv beta iota zeta.
  pose proof (bytesToHex_hexPairs (draw 16 w)) as E. unfold Aes.bytesToHex in E.
  cbv zeta in E. rewrite E. reflexivity.
Qed.

Lemma advance_advance a b w : advance a (advance b w) = advance (b + a) w.
Proof. unfold advance. cbn. rewrite Nat.add_assoc. reflexivity. Qed.

(** The hex text of at most 16 bytes is read by [hex16ToBigint]. *)
Lemma hex16ToBigint_hexPairs b :
  Forall is_byte b -> (List.length b <= 16)%nat ->
  exists v, Bit128.hex16ToBigint ("0x" +++ hexPairs b) = Ok v.
Proof.
  intros Hb Hlen.
  pose proof (lowerHex_hexPairs b Hb) as Hh.
  pose proof (length_hexPairs b Hb) as Hl.
  rewrite hex16ToBigint_of_body; rewrite (body_0x _ Hh); [|assumption].
  replace (32 <? String.length (hexPairs b))%nat with false
    by (symmetry; apply Nat.ltb_ge; lia).
  destruct (parseDigits16_hex (hexPairs b) 0 ltac:(lia)
              (forallb_string_impl _ _ _ isLowerHex_isHexChar Hh)) as (v & -> & _).
  exists v. reflexivity.
Qed.

(** [xorHex] never throws.  It is the bare "0x" exactly when
    [hex16ToBigint] rejects one of the two shares, and 34 characters
    otherwise; the initial shares, both "0x", give the all-zero key;
    after [randomize s] and [randomize s'] it is 34 characters
    whatever the shares were before. *)
Theorem xorHex_total :
  (forall st,
      FarewellPage.xorHex st = "0x" <->
      (exists e, Bit128.hex16ToBigint (FarewellPage.sPrimeHex st) = Throw e) \/
      (exists e, Bit128.hex16ToBigint (FarewellPage.sHex st) = Throw e)) /\
  (forall st,
      FarewellPage.xorHex st = "0x" \/ String.length (FarewellPage.xorHex st) = 34%nat) /\
  FarewellPage.xorHex FarewellPage.initialShares = "0x00000000000000000000000000000000" /\
  (forall st w,
      exists st',
        bind (FarewellPage.handleRandS st) FarewellPage.handleRandSPrime w
        = (Ok st', advance 32 w) /\
        FarewellPage.sHex st' = "0x" +++ hexPairs (draw 16 w) /\
        FarewellPage.sPrimeHex st' = "0x" +++ hexPairs (draw 16 (advance 16 w)) /\
        String.length (FarewellPage.xorHex st') = 34%nat).
Proof.
  assert (forall st s p,
             Bit128.hex16ToBigint (FarewellPage.sHex st) = Ok s ->
             Bit128.hex16ToBigint (FarewellPage.sPrimeHex st) = Ok p ->
             String.length (FarewellPage.xorHex st) = 34%nat) as Hlong.
  { intros st s p Hs Hp. destruct (xorHex_run st s p Hs Hp) as [-> Rx].
    destruct (formatted_digits _ Rx) as (_ & Fl & _).
    cbn [String.append String.length]. rewrite Fl. reflexivity. }
  repeat apply conj.
  - intros st. split.
    + intros H.
      destruct (Bit128.hex16ToBigint (FarewellPage.sPrimeHex st)) as [p|e] eqn:Hp;
        [|left; exists e; reflexivity].
      destruct (Bit128.hex16ToBigint (FarewellPage.sHex st)) as [s|e] eqn:Hs;
        [|right; exists e; reflexivity].
      pose proof (Hlong st s p Hs Hp) as L. rewrite H in L. discriminate L.
    + unfold FarewellPage.xorHex. intros [[e He] | [e He]].
      * rewrite He. reflexivity.
      * rewrite He.
        destruct (Bit128.hex16ToBigint (FarewellPage.sPrimeHex st)); reflexivity.
  - intros st.
    destruct (Bit128.hex16ToBigint (FarewellPage.sPrimeHex st)) as [p|e] eqn:Hp.
    + destruct (Bit128.hex16ToBigint (FarewellPage.sHex st)) as [s|e] eqn:Hs.
      * right. apply (Hlong st s p Hs Hp).
      * left. unfold FarewellPage.xorHex. rewrite Hp, Hs. reflexivity.
    + left. unfold FarewellPage.xorHex. rewrite Hp. reflexivity.
  - reflexivity.
  - intros st w.
    exists (FarewellPage.mkKeyShares ("0x" +++ hexPairs (draw 16 w))
                                     ("0x" +++ hexPairs (draw 16 (advance 16 w)))).
    split; [|split; [reflexivity | split; [reflexivity|]]].
    + unfold bind, FarewellPage.handleRandS, FarewellPage.handleRandSPrime, bind, ret.
      rewrite !randomHex16_run, advance_advance. reflexivity.
    + destruct (hex16ToBigint_hexPairs (draw 16 w) (draw_range 16 w))
        as [s Hs]; [rewrite length_draw; lia|].
      destruct (hex16ToBigint_hexPairs (draw 16 (advance 16 w))
                                       (draw_range 16 (advance 16 w)))
        as [p Hp]; [rewrite length_draw; lia|].
      apply (Hlong _ s p); assumption.
Qed.

(** ** What is typed and what is pasted *)

Lemma keepLowerHex_lower v : forallb_string isLowerHex (keepLowerHex v) = true.
Proof.
  induction v as [|c r IH]; [reflexivity|]. cbn [keepLowerHex].
  destruct (isLowerHex c) eqn:Hc; [|assumption].
  cbn [forallb_string]. rewrite Hc, IH. reflexivity.
Qed.

Lemma keepLowerHex_id d : forallb_string isLowerHex d = true -> keepLowerHex d = d.
Proof.
  induction d as [|c r IH]; [reflexivity|]. cbn [forallb_string keepLowerHex].
  rewrite andb_true_iff. intros [Hc Hr]. rewrite Hc, (IH Hr). reflexivity.
Qed.

Lemma take_all n : forall s, (String.length s <= n)%nat -> take n s = s.
Proof.
  induction n as [|n IH]; intros [|c r] H; try reflexivity.
  - simpl in H. lia.
  - cbn [take]. rewrite IH by (simpl in H; lia). reflexivity.
Qed.

Lemma length_take n : forall s, String.length (take n s) = Nat.min n (String.length s).
Proof.
  induction n as [|n IH]; intros [|c r]; try reflexivity.
  cbn [take String.length]. rewrite IH. reflexivity.
Qed.

Lemma forallb_string_take p n : forall s,
  forallb_string p s = true -> forallb_string p (take n s) = true.
Proof.
  induction n as [|n IH]; intros [|c r]; try reflexivity.
  cbn [take forallb_string]. rewrite !andb_true_iff. intros [Hc Hr]. auto.
Qed.

(** [v.length > 64 ? v.slice(0, 64) : v] *)
Lemma cut64 v : (if (64 <? String.length v)%nat then take 64 v else v) = take 64 v.
Proof.
  destruct (64 <? String.length v)%nat eqn:H; [reflexivity|].
  apply Nat.ltb_ge in H. symmetry. apply take_all. assumption.
Qed.

Lemma clampHex128Input_run raw :
  FarewellPage.clampHex128Input raw = "0x" +++ take 64 (keepLowerHex (Bit128.body raw)).
Proof. unfold FarewellPage.clampHex128Input. cbv zeta. rewrite cut64. reflexivity. Qed.

(** The digits kept from what was typed: a 0 is put in front of them. *)
Lemma typed_digits value :
  let v := toLowerCase (trim value) in
  keepLowerHex (if negb (startsWith v "0x") then "0x" +++ v else v)
  = String "0" (keepLowerHex (Bit128.body value)).
Proof.
  cbv zeta. unfold Bit128.body. cbv zeta.
  destruct (startsWith (toLowerCase (trim value)) "0x") eqn:Hp; cbn [negb].
  - destruct (toLowerCase (trim value)) as [|a [|b r]]; cbn [startsWith] in Hp;
      [discriminate Hp | rewrite andb_false_r in Hp; discriminate Hp |].
    apply andb_true_iff in Hp as [Ha Hb].
    apply andb_true_iff in Hb as [Hb _].
    apply Ascii.eqb_eq in Ha, Hb. subst a b. reflexivity.
  - reflexivity.
Qed.

Lemma handleSChange_run value st :
  FarewellPage.handleSChange value st
  = FarewellPage.setSHex ("0x0" +++ take 63 (keepLowerHex (Bit128.body value))) st /\
  FarewellPage.handleSPrimeChange value st
  = FarewellPage.setSPrimeHex ("0x0" +++ take 63 (keepLowerHex (Bit128.body value))) st.
Proof.
  unfold FarewellPage.handleSChange, FarewellPage.handleSPrimeChange. cbv zeta.
  pose proof (typed_digits value) as E. cbv zeta in E. rewrite E, cut64.
  split; reflexivity.
Qed.

(** [clampHex128Input] gives 0x and at most 64 lowercase hex digits:
    those of the text after trimming, lower-casing and dropping one
    leading 0x, in order, everything else removed.  Clamping a clamped
    text changes nothing, and a text that [hex16ToBigint] reads keeps
    its value.  The clamp lets up to 64 digits through, but
    [hex16ToBigint] reads the result only up to 32 of them and raises
    "Too many hex digits" beyond; it never raises "Invalid hex". *)
Theorem clampHex128Input_spec (raw : string) :
  let d := take 64 (keepLowerHex (Bit128.body raw)) in
  FarewellPage.clampHex128Input raw = "0x" +++ d /\
  forallb_string isLowerHex d = true /\
  (String.length d <= 64)%nat /\
  FarewellPage.clampHex128Input (FarewellPage.clampHex128Input raw)
  = FarewellPage.clampHex128Input raw /\
  (forall v, Bit128.hex16ToBigint raw = Ok v ->
             Bit128.hex16ToBigint (FarewellPage.clampHex128Input raw) = Ok v) /\
  ((String.length d <= 32)%nat ->
   exists v, Bit128.hex16ToBigint (FarewellPage.clampHex128Input raw) = Ok v) /\
  ((32 < String.length d)%nat ->
   Bit128.hex16ToBigint (FarewellPage.clampHex128Input raw)
   = Throw (Error "Too many hex digits for 128-bit")).
Proof.
  intros d.
  assert (forallb_string isLowerHex d = true) as Hd
      by (apply forallb_string_take, keepLowerHex_lower).
  assert (String.length d <= 64)%nat as Hl by (subst d; rewrite length_take; lia).
  pose proof (clampHex128Input_run raw) as Hrun. fold d in Hrun.
  assert (Bit128.body ("0x" +++ d) = d) as Hbody by (apply body_0x; assumption).
  repeat apply conj; try assumption.
  - rewrite Hrun at 1. rewrite clampHex128Input_run, Hbody, (keepLowerHex_id d Hd).
    rewrite (take_all 64 d Hl). symmetry. exact Hrun.
  - intros v Hv. destruct (hex16ToBigint_inv raw v Hv) as (Hs & Hlen & Hp & _).
    assert (d = Bit128.body raw) as E.
    { subst d. rewrite (keepLowerHex_id _ Hs). apply take_all. lia. }
    rewrite Hrun, hex16ToBigint_of_body; rewrite Hbody; [|assumption].
    rewrite E. replace (32 <? String.length (Bit128.body raw))%nat with false
      by (symmetry; apply Nat.ltb_ge; lia).
    rewrite Hp. reflexivity.
  - intros H32. rewrite Hrun, hex16ToBigint_of_body; rewrite Hbody; [|assumption].
    replace (32 <? String.length d)%nat with false
      by (symmetry; apply Nat.ltb_ge; lia).
    destruct (parseDigits16_hex d 0 ltac:(lia)
                (forallb_string_impl _ _ _ isLowerHex_isHexChar Hd)) as (v & -> & _).
    exists v. reflexivity.
  - intros H32. rewrite Hrun, hex16ToBigint_of_body; rewrite Hbody; [|assumption].
    apply Nat.ltb_lt in H32. rewrite H32. reflexivity.
Qed.

Lemma clampHex128Input_spec_witness :
  FarewellPage.clampHex128Input " 0XAb-cd:12zz " = "0xabcd12" /\
  Bit128.hex16ToBigint
    (FarewellPage.clampHex128Input "0x000000000000000000000000000000000")
  = Throw (Error "Too many hex digits for 128-bit").
Proof.
  split.
  - apply (clampHex128Input_spec " 0XAb-cd:12zz ").
  - destruct (clampHex128Input_spec "0x000000000000000000000000000000000")
      as (_ & _ & _ & _ & _ & _ & H).
    apply H. simpl. lia.
Defined.

(** Typing in a share box puts a 0 in front of the digits.  The handler
    makes sure that the text starts with 0x and then removes every
    character outside [0-9a-f], the x among them, so that the share
    becomes 0x, a 0, and the first 63 hex digits of the text.  The
    value read by [hex16ToBigint] is that of the digits as long as they
    are fewer than 32; with 32 hex digits or more in the text the share
    has more than 32 digits, [hex16ToBigint] refuses it and [xorHex]
    falls back to "0x". *)
Theorem handleSChange_prepends_zero (value : string) (st : FarewellPage.KeyShares) :
  let k := keepLowerHex (Bit128.body value) in
  FarewellPage.sHex (FarewellPage.handleSChange value st) = "0x0" +++ take 63 k /\
  FarewellPage.sPrimeHex (FarewellPage.handleSChange value st)
  = FarewellPage.sPrimeHex st /\
  FarewellPage.sPrimeHex (FarewellPage.handleSPrimeChange value st)
  = "0x0" +++ take 63 k /\
  FarewellPage.sHex (FarewellPage.handleSPrimeChange value st) = FarewellPage.sHex st /\
  ((String.length k < 32)%nat ->
   Bit128.hex16ToBigint (FarewellPage.sHex (FarewellPage.handleSChange value st))
   = Bit128.hex16ToBigint ("0x" +++ k)) /\
  ((32 <= String.length k)%nat ->
   Bit128.hex16ToBigint (FarewellPage.sHex (FarewellPage.handleSChange value st))
   = Throw (Error "Too many hex digits for 128-bit") /\
   FarewellPage.xorHex (FarewellPage.handleSChange value st) = "0x" /\
   FarewellPage.xorHex (FarewellPage.handleSPrimeChange value st) = "0x").
Proof.
  intros k. destruct (handleSChange_run value st) as [Hs Hp]. fold k in Hs, Hp.
  rewrite Hs, Hp. cbn [FarewellPage.sHex FarewellPage.sPrimeHex FarewellPage.setSHex
                       FarewellPage.setSPrimeHex].
  assert (forallb_string isLowerHex k = true) as Hk by apply keepLowerHex_lower.
  assert (forallb_string isLowerHex (String "0" (take 63 k)) = true) as Hz
      by (cbn [forallb_string]; rewrite forallb_string_take by assumption; reflexivity).
  assert (Bit128.body ("0x0" +++ take 63 k) = String "0" (take 63 k)) as Hbody
      by (apply (body_0x (String "0" (take 63 k))); assumption).
  repeat apply conj; try reflexivity.
  - intros Hlt. rewrite (take_all 63 k) by lia.
    rewrite (take_all 63 k) in Hbody, Hz by lia.
    rewrite !hex16ToBigint_of_body; rewrite ?Hbody, ?(body_0x _ Hk); try assumption.
    cbn [String.length parseDigits hexValue].
    replace (32 <? S (String.length k))%nat with false
      by (symmetry; apply Nat.ltb_ge; lia).
    replace (32 <? String.length k)%nat with false
      by (symmetry; apply Nat.ltb_ge; lia).
    reflexivity.
  - intros Hge.
    assert (Bit128.hex16ToBigint ("0x0" +++ take 63 k)
            = Throw (Error "Too many hex digits for 128-bit")) as Hthrow.
    { rewrite hex16ToBigint_of_body; rewrite Hbody; [|assumption].
      cbn [String.length]. rewrite length_take.
      replace (32 <? S (Nat.min 63 (String.length k)))%nat with true
        by (symmetry; apply Nat.ltb_lt; lia).
      reflexivity. }
    repeat apply conj.
    + exact Hthrow.
    + unfold FarewellPage.xorHex.
      cbn [FarewellPage.sHex FarewellPage.sPrimeHex FarewellPage.setSHex].
      rewrite Hthrow.
      destruct (Bit128.hex16ToBigint (FarewellPage.sPrimeHex st)); reflexivity.
    + unfold FarewellPage.xorHex.
      cbn [FarewellPage.sHex FarewellPage.sPrimeHex FarewellPage.setSPrimeHex].
      rewrite Hthrow. reflexivity.
Qed.

Lemma handleSChange_prepends_zero_witness :
  let st := FarewellPage.initialShares in
  let typed := "0x0123456789abcdef0123456789abcdef" in
  FarewellPage.sHex (FarewellPage.handleSChange typed st)
  = "0x00123456789abcdef0123456789abcdef" /\
  FarewellPage.xorHex (FarewellPage.handleSChange typed st) = "0x".
Proof.
  intros st typed.
  destruct (handleSChange_prepends_zero typed st) as (H1 & _ & _ & _ & _ & H6).
  split; [exact H1|].
  apply H6. simpl. lia.
Defined.

(** * Hex text, bytes and integers *)

Lemma all_bytes_digits_ok : forallb byte_digits_ok (map Z.of_nat (seq 0 256)) = true.
Proof. vm_compute. reflexivity. Qed.

Lemma parseDigits_hex2 x rest acc :
  is_byte x ->
  parseDigits 16 acc (hex2 x +++ rest) = parseDigits 16 (acc * 256 + x) rest.
Proof.
  intros Hx.
  assert (byte_digits_ok x = true) as Hok.
  { pose proof all_bytes_digits_ok as H. rewrite forallb_forall in H. apply H.
    apply in_map_iff. exists (Z.to_nat x). unfold is_byte in Hx. split; [lia|].
    apply in_seq. lia. }
  unfold byte_digits_ok in Hok.
  destruct (byte_hex x Hx) as (c1 & c2 & E & _ & _ & _). rewrite E in *.
  cbn [String.append parseDigits] in *.
  destruct (hexValue c1) as [d1|]; [|discriminate Hok].
  destruct (d1 <? 16); [|discriminate Hok].
  destruct (hexValue c2) as [d2|]; [|discriminate Hok].
  destruct (d2 <? 16); [|discriminate Hok].
  apply Z.eqb_eq in Hok. f_equal. lia.
Qed.

Lemma parseDigits_hexPairs b :
  Forall is_byte b ->
  forall acc, parseDigits 16 acc (hexPairs b)
              = Some (fold_left (fun v x => v * 256 + x) b acc).
Proof.
  induction 1 as [|x r Hx Hr IH]; intros acc; [reflexivity|].
  cbn [hexPairs fold_left]. rewrite parseDigits_hex2 by assumption. apply IH.
Qed.

Lemma parseDigits_hexPairs_value b :
  Forall is_byte b -> parseDigits 16 0 (hexPairs b) = Some (be_value b).
Proof. intros Hb. apply (parseDigits_hexPairs b Hb 0). Qed.

(** The bytes written by [bigintToKey16] are those of the big-endian
    value of the low 16 bytes. *)
Lemma bytes_be_low a b :
  Forall is_byte b ->
  bytes_be (List.length b) (be_value (a ++ b)) = b.
Proof.
  intros Hb. rewrite <- bytes_be_mod, be_value_app.
  pose proof (be_value_bound b Hb) as Hbound.
  rewrite Z.add_comm, Z.mod_add by lia.
  rewrite Z.mod_small by assumption. apply bytes_be_be_value; assumption.
Qed.

Lemma be_value_zeros n k : be_value (repeat 0 n ++ k) = be_value k.
Proof.
  unfold be_value. rewrite fold_left_app.
  replace (fold_left (fun v b => v * 256 + b) (repeat 0 n) 0) with 0; [reflexivity|].
  induction n as [|n IH]; [reflexivity|]. cbn [repeat fold_left]. exact IH.
Qed.

(** bit128.ts and aes.ts agree on what a key is as a number: the hex
    text of a byte array of at most 16 bytes is read by [hex16ToBigint]
    as the integer [key16ToBigint] makes of the array, and
    [bigintToHex16] writes the hex text of the 16 bytes [bigintToKey16]
    makes of the integer. *)
Theorem hex_and_bytes_agree :
  (forall k,
      Forall is_byte k -> (List.length k <= 16)%nat ->
      Bit128.hex16ToBigint (Aes.bytesToHex k) = Ok (Aes.key16ToBigint k)) /\
  (forall v, Bit128.bigintToHex16 v = Ok (Aes.bytesToHex (Aes.bigintToKey16 v))).
Proof.
  split.
  - intros k Hk Hlen.
    pose proof (lowerHex_hexPairs k Hk) as Hh.
    pose proof (length_hexPairs k Hk) as Hl.
    rewrite bytesToHex_hexPairs, key16ToBigint_be_value by assumption.
    rewrite hex16ToBigint_of_body; rewrite (body_0x _ Hh); [|assumption].
    replace (32 <? String.length (hexPairs k))%nat with false
      by (symmetry; apply Nat.ltb_ge; lia).
    rewrite (parseDigits_hexPairs_value k Hk). reflexivity.
  - intros v. rewrite bigintToHex16_run, bytesToHex_hexPairs, bigintToKey16_bytes_be.
    do 2 f_equal.
    assert (0 <= v mod 2 ^ 128 < 2 ^ 128) as Hv by (apply Z.mod_pos_bound; lia).
    destruct (formatted_digits _ Hv) as (Fh & Fl & Fp).
    pose proof (bytes_be_range 16 v) as Hb.
    destruct (parseDigits16_inj (padStart0 32 (toString16 (v mod 2 ^ 128)))
                                (hexPairs (bytes_be 16 v)) 0 0 (v mod 2 ^ 128))
      as [_ E]; try assumption.
    + rewrite Fl, length_hexPairs, length_bytes_be by assumption. reflexivity.
    + apply lowerHex_hexPairs; assumption.
    + rewrite (parseDigits_hexPairs_value _ Hb), be_value_bytes_be. reflexivity.
Qed.

Lemma hex_and_bytes_agree_witness :
  Bit128.hex16ToBigint (Aes.bytesToHex [1; 2; 255]) = Ok 66303.
Proof.
  destruct hex_and_bytes_agree as [H _].
  apply (H [1; 2; 255]); [repeat constructor; unfold is_byte; lia | simpl; lia].
Defined.

(** [bigintToKey16] after [key16ToBigint] on an array of any length:
    the last 16 bytes of a longer array, a shorter array left-padded
    with zero bytes. *)
Theorem bigintToKey16_key16ToBigint_any_length (k : list Z) :
  Forall is_byte k ->
  ((16 <= List.length k)%nat ->
   Aes.bigintToKey16 (Aes.key16ToBigint k) = skipn (List.length k - 16) k) /\
  ((List.length k <= 16)%nat ->
   Aes.bigintToKey16 (Aes.key16ToBigint k) = repeat 0 (16 - List.length k) ++ k).
Proof.
  intros Hk. rewrite bigintToKey16_bytes_be, key16ToBigint_be_value by assumption.
  split; intros Hlen.
  - rewrite <- (firstn_skipn (List.length k - 16) k) at 1.
    assert (List.length (skipn (List.length k - 16) k) = 16%nat) as Hl
        by (rewrite length_skipn; lia).
    rewrite <- Hl at 1. apply bytes_be_low. apply Forall_skipn'. assumption.
  - rewrite <- (be_value_zeros (16 - List.length k) k).
    assert (List.length (repeat 0 (16 - List.length k) ++ k) = 16%nat) as Hl
        by (rewrite length_app, repeat_length; lia).
    rewrite <- Hl at 1. apply (bytes_be_low []).
    apply Forall_app. split; [|assumption].
    apply Forall_forall. intros x Hx. apply repeat_spec in Hx. subst.
    unfold is_byte. lia.
Qed.

Lemma bigintToKey16_key16ToBigint_any_length_witness :
  Aes.bigintToKey16 (Aes.key16ToBigint [7; 1; 2; 3; 4; 5; 6; 7; 8; 9; 10; 11; 12; 13; 14;
                                        15; 16])
  = [1; 2; 3; 4; 5; 6; 7; 8; 9; 10; 11; 12; 13; 14; 15; 16] /\
  Aes.bigintToKey16 (Aes.key16ToBigint [1; 2])
  = [0; 0; 0; 0; 0; 0; 0; 0; 0; 0; 0; 0; 0; 0; 1; 2].
Proof.
  split.
  - apply (bigintToKey16_key16ToBigint_any_length
             [7; 1; 2; 3; 4; 5; 6; 7; 8; 9; 10; 11; 12; 13; 14; 15; 16]).
    + repeat constructor; unfold is_byte; lia.
    + simpl. lia.
  - apply (bigintToKey16_key16ToBigint_any_length [1; 2]).
    + repeat constructor; unfold is_byte; lia.
    + simpl. lia.
Defined.

(** * aes.ts: further behaviour *)

(** ** The steps of the three decrypt functions *)

Lemma decrypt_v1_run packed key w :
  AesV1.decryptUtf8AesGcmPacked packed key w =
  let data := AesV1.hexToBytes packed in
  if (List.length data <? 12)%nat then (Throw (Error "cipher too short"), w)
  else match aesGcmDecrypt (firstn 12 data) None 128 key (skipn 12 data) with
       | Ok pt => (Ok (TextDecoder_decode pt), addOp OpDecrypt w)
       | Throw e => (Throw e, addOp OpDecrypt w)
       end.
Proof.
  unfold AesV1.decryptUtf8AesGcmPacked. cbv zeta.
  destruct (_ <? _)%nat; [reflexivity|].
  unfold bind, subtle_decrypt, bind, request, lift, ret.
  destruct (aesGcmDecrypt _ _ _ _ _); reflexivity.
Qed.

Lemma option_map_toArrayBuffer aad : option_map AesV3.toArrayBuffer aad = aad.
Proof. destruct aad; cbn [option_map]; rewrite ?toArrayBuffer_id; reflexivity. Qed.

Lemma decrypt_v3_run packed key aad t w :
  AesV3.decryptUtf8AesGcmPacked packed key aad t w =
  match AesV23.hexToBytes packed with
  | Throw e => AesV23.decryptFailed e w
  | Ok data =>
      if AesV23.tooShort data t
      then AesV23.decryptFailed (Error "cipher too short (missing IV or tag)") w
      else match aesGcmDecrypt (firstn 12 data) aad t key (skipn 12 data) with
           | Ok pt => (Ok (TextDecoder_decode pt), addOp OpDecrypt w)
           | Throw e => AesV23.decryptFailed e (addOp OpDecrypt w)
           end
  end.
Proof.
  unfold AesV3.decryptUtf8AesGcmPacked, try_catch, bind, lift.
  destruct (AesV23.hexToBytes packed) as [data|e]; [|reflexivity].
  destruct (AesV23.tooShort data t); [reflexivity|].
  rewrite !toArrayBuffer_id, option_map_toArrayBuffer.
  unfold subtle_decrypt, bind, request, lift, ret.
  destruct (aesGcmDecrypt _ _ _ _ _); reflexivity.
Qed.

Lemma printKeyHex_refused key w :
  key_extractable key = false ->
  AesV23.printKeyHex key w
  = (Throw (DOMException "InvalidAccessError" ""), addOp OpExportKey w).
Proof.
  intros He. unfold AesV23.printKeyHex, bind, subtle_exportKey, bind, request, lift,
    exportRaw.
  rewrite He. reflexivity.
Qed.

Lemma decrypt_v2_run packed key aad t w :
  AesV2.decryptUtf8AesGcmPacked packed key aad t w =
  let w1 := addOp OpExportKey
              (addConsole (mkEntry LevelLog [ArgText "AES-GCM decrypt:"; ArgText packed])
                          w) in
  if key_extractable key then
    let w2 := addConsole (mkEntry LevelLog [ArgText "Key (hex):";
                                            ArgText (hexPairs (key_material key))]) w1 in
    match AesV23.hexToBytes packed with
    | Throw e => AesV23.decryptFailed e w2
    | Ok data =>
        if AesV23.tooShort data t
        then AesV23.decryptFailed (Error "cipher too short (missing IV or tag)") w2
        else match aesGcmDecrypt (firstn 12 data) aad t key (skipn 12 data) with
             | Ok pt => (Ok (TextDecoder_decode pt), addOp OpDecrypt w2)
             | Throw e => AesV23.decryptFailed e (addOp OpDecrypt w2)
             end
    end
  else AesV23.decryptFailed (DOMException "InvalidAccessError" "") w1.
Proof.
  unfold AesV2.decryptUtf8AesGcmPacked, try_catch.
  unfold bind at 1. unfold console_log at 1, console_write at 1.
  unfold bind at 1. cbv zeta.
  destruct (key_extractable key) eqn:He.
  - rewrite (printKeyHex_run key _ He).
    unfold bind, lift.
    destruct (AesV23.hexToBytes packed) as [data|e]; [|reflexivity].
    destruct (AesV23.tooShort data t); [reflexivity|].
    unfold subtle_decrypt, bind, request, lift, ret.
    destruct (aesGcmDecrypt _ _ _ _ _); reflexivity.
  - rewrite (printKeyHex_refused key _ He). reflexivity.
Qed.

(** ** Keys that cannot be exported *)

(** The second copy exports the key before anything else, so it works
    with extractable keys only.  With a key that is not extractable
    (such as the third copy's [aesImportRaw16] makes) its encrypt throws
    the platform's InvalidAccessError, having drawn no IV and encrypted
    nothing, and its decrypt fails with the generic error whatever the
    packed value, without asking the platform to decrypt. *)
Theorem second_copy_needs_extractable_key (key : CryptoKey) :
  key_extractable key = false ->
  (forall m w,
      AesV2.encryptUtf8AesGcmPacked m key w
      = (Throw (DOMException "InvalidAccessError" ""), addOp OpExportKey w)) /\
  (forall packed aad t w,
      exists w',
        AesV2.decryptUtf8AesGcmPacked packed key aad t w
        = (Throw (Error "AES-GCM decrypt failed: InvalidAccessError (likely key/IV/tag/AAD mismatch)"),
           w') /\
        subtle_ops w' = subtle_ops w ++ [OpExportKey] /\
        cursor w' = cursor w).
Proof.
  intros He. split.
  - intros m w. rewrite encrypt_v2_unfold, (printKeyHex_refused key w He). reflexivity.
  - intros packed aad t w. rewrite decrypt_v2_run, He. cbv zeta.
    rewrite decryptFailed_named by discriminate.
    eexists. split; [reflexivity|]. split; reflexivity.
Qed.

Lemma second_copy_needs_extractable_key_witness :
  let w0 := mkWorld (fun _ => 0) 0 [] [] in
  let key := mkCryptoKey (repeat 0 16) false [UsageEncrypt; UsageDecrypt] in
  AesV2.encryptUtf8AesGcmPacked (codeUnits "hello") key w0
  = (Throw (DOMException "InvalidAccessError" ""), addOp OpExportKey w0).
Proof.
  intros w0 key.
  apply (second_copy_needs_extractable_key key eq_refl).
Defined.

(** ** What the third copy's decrypt lets out *)

(** The third copy's [decryptUtf8AesGcmPacked] never asks for the key's
    bytes and writes at most one line to the console: nothing when it
    returns a text, and when it fails one [console.error] naming one of
    five exceptions, none of which carries data. *)
Theorem third_copy_decrypt_keeps_the_key (packed : string) (key : CryptoKey)
        (aad : option (list Z)) (t : Z) (w : World) :
  let r := AesV3.decryptUtf8AesGcmPacked packed key aad t w in
  (subtle_ops (snd r) = subtle_ops w \/ subtle_ops (snd r) = subtle_ops w ++ [OpDecrypt]) /\
  cursor (snd r) = cursor w /\
  ((exists text, fst r = Ok text /\ console (snd r) = console w) \/
   (exists e,
       In e [Error "hex string has odd length";
             Error "cipher too short (missing IV or tag)";
             mkExn "TypeError" "";
             DOMException "InvalidAccessError" "";
             DOMException "OperationError" ""] /\
       fst r = Throw (Error ("AES-GCM decrypt failed: " +++ exn_name e
                               +++ " (likely key/IV/tag/AAD mismatch)")) /\
       console (snd r)
       = console w ++ [mkEntry LevelError [ArgText "[AES-GCM decrypt] failed:";
                                           ArgText (exn_name e); ArgExn e]])).
Proof.
  cbv zeta. rewrite decrypt_v3_run.
  assert (forall e w1,
             exn_name e <> EmptyString ->
             AesV23.decryptFailed e w1
             = (Throw (Error ("AES-GCM decrypt failed: " +++ exn_name e
                                +++ " (likely key/IV/tag/AAD mismatch)")),
                addConsole (mkEntry LevelError [ArgText "[AES-GCM decrypt] failed:";
                                                ArgText (exn_name e); ArgExn e]) w1))
    as Hfail by (intros; apply decryptFailed_named; assumption).
  unfold AesV23.hexToBytes.
  destruct (negb _).
  - rewrite Hfail by discriminate. cbn [fst snd].
    split; [left; reflexivity|]. split; [reflexivity|].
    right. eexists. split; [left; reflexivity|]. split; reflexivity.
  - destruct (AesV23.tooShort _ t).
    + rewrite Hfail by discriminate. cbn [fst snd].
      split; [left; reflexivity|]. split; [reflexivity|].
      right. eexists. split; [right; left; reflexivity|]. split; reflexivity.
    + destruct (aesGcmDecrypt _ _ _ _ _) as [pt|e] eqn:Hd.
      * cbn [fst snd]. split; [right; reflexivity|]. split; [reflexivity|].
        left. exists (TextDecoder_decode pt). split; reflexivity.
      * destruct (aesGcmDecrypt_names _ _ _ _ _ _ Hd) as [-> | [-> | ->]];
          rewrite Hfail by discriminate; cbn [fst snd];
          (split; [right; reflexivity|]); (split; [reflexivity|]);
          right; eexists; (split; [|split; reflexivity]); cbn [In]; auto 6.
Qed.

(** ** Keys: generating, exporting, bridging, importing *)

Lemma aes128Gen_run w :
  Aes.aes128Gen w
  = (Ok (mkCryptoKey (draw 16 w) true [UsageEncrypt; UsageDecrypt]),
     advance 16 (addOp OpGenerateKey w)).
Proof. reflexivity. Qed.

Lemma importRaw_16 k e :
  List.length k = 16%nat ->
  importRaw k e [UsageEncrypt; UsageDecrypt]
  = Ok (mkCryptoKey k e [UsageEncrypt; UsageDecrypt]).
Proof. intros H. unfold importRaw. rewrite H. reflexivity. Qed.

(** Importing a fresh array of 16 bytes, in each copy *)
Lemma aesImportRaw16_fresh k w :
  List.length k = 16%nat ->
  AesV1.aesImportRaw16 (viewOf k) w
  = (Ok (mkCryptoKey k true [UsageEncrypt; UsageDecrypt]), addOp OpImportKey w) /\
  AesV2.aesImportRaw16 (viewOf k) w
  = (Ok (mkCryptoKey k true [UsageEncrypt; UsageDecrypt]), addOp OpImportKey w) /\
  AesV3.aesImportRaw16 (inr (viewOf k)) w
  = (Ok (mkCryptoKey k false [UsageEncrypt; UsageDecrypt]), addOp OpImportKey w) /\
  AesV3.aesImportRaw16 (inl k) w
  = (Ok (mkCryptoKey k false [UsageEncrypt; UsageDecrypt]), addOp OpImportKey w).
Proof.
  intros Hlen.
  assert (contents (viewOf k) = k) as Hc
      by (apply contents_whole; reflexivity).
  assert (Aes.setFrom (newUint8Array 16) k 0 = k) as Hset
      by (rewrite <- Hlen at 1; apply setFrom_fresh).
  repeat apply conj.
  - unfold AesV1.aesImportRaw16. rewrite keyData_contents, Hc.
    cbn [byteLength viewOf]. rewrite Hlen. cbn [Nat.eqb negb].
    unfold subtle_importKey, bind, request, lift. rewrite importRaw_16 by assumption.
    reflexivity.
  - unfold AesV2.aesImportRaw16. cbv zeta. rewrite Hc.
    cbn [byteLength viewOf]. rewrite Hlen. cbn [Nat.eqb negb].
    unfold subtle_importKey, bind, request, lift. rewrite importRaw_16 by assumption.
    reflexivity.
  - unfold AesV3.aesImportRaw16. rewrite Hc.
    cbn [byteLength viewOf]. rewrite Hlen. cbn [Nat.eqb negb].
    unfold bind, ret, subtle_importKey, bind, request, lift.
    rewrite Hset, importRaw_16 by assumption. reflexivity.
  - unfold AesV3.aesImportRaw16. rewrite Hlen. cbn [Nat.eqb negb].
    unfold bind, ret, subtle_importKey, bind, request, lift.
    rewrite importRaw_16 by assumption. reflexivity.
Qed.

(** A key made by [aes128Gen] survives the trip through a 128-bit
    integer.  The key is the next 16 bytes of entropy, extractable, for
    encrypt and decrypt; [aesExportRaw16] gives those bytes,
    [key16ToBigint] an integer below 2^128 and [bigintToKey16] the bytes
    again; [aesImportRaw16] of them is the key itself in the first and
    second copy, and in the third copy a key that is not extractable but
    decrypts what the generated key encrypted. *)
Theorem generated_key_bigint_path (w : World) :
  let key := mkCryptoKey (draw 16 w) true [UsageEncrypt; UsageDecrypt] in
  let v := Aes.key16ToBigint (draw 16 w) in
  Aes.aes128Gen w = (Ok key, advance 16 (addOp OpGenerateKey w)) /\
  (forall w1, AesV1.aesExportRaw16 key w1 = (Ok (draw 16 w), addOp OpExportKey w1)) /\
  0 <= v < 2 ^ 128 /\
  Aes.bigintToKey16 v = draw 16 w /\
  (forall w1, AesV1.aesImportRaw16 (viewOf (Aes.bigintToKey16 v)) w1
              = (Ok key, addOp OpImportKey w1)) /\
  (forall w1, AesV2.aesImportRaw16 (viewOf (Aes.bigintToKey16 v)) w1
              = (Ok key, addOp OpImportKey w1)) /\
  (forall w1 m w2,
      Forall (fun u => 0 <= u < 65536) m ->
      exists key3 packed w3,
        AesV3.aesImportRaw16 (inr (viewOf (Aes.bigintToKey16 v))) w1
        = (Ok key3, addOp OpImportKey w1) /\
        key_extractable key3 = false /\
        AesV3.encryptUtf8AesGcmPacked m key w2 = (Ok packed, w3) /\
        forall w4, fst (AesV3.decryptUtf8AesGcmPacked packed key3 None 128 w4)
                   = Ok (TextDecoder_decode (TextEncoder_encode m))).
Proof.
  intros key v.
  pose proof (length_draw 16 w) as Hlen.
  pose proof (draw_range 16 w) as Hr.
  assert (Aes.bigintToKey16 v = draw 16 w) as Hback.
  { subst v. rewrite bigintToKey16_bytes_be, key16ToBigint_be_value by assumption.
    rewrite <- Hlen at 1. apply bytes_be_be_value; assumption. }
  repeat apply conj.
  - apply aes128Gen_run.
  - intros w1. unfold AesV1.aesExportRaw16, bind, subtle_exportKey, bind, request, lift,
      exportRaw, ret, throw.
    cbn [key_extractable key_material key]. rewrite Hlen. reflexivity.
  - subst v. rewrite key16ToBigint_be_value by assumption.
    pose proof (be_value_bound _ Hr) as Hb. rewrite Hlen in Hb.
    change (2 ^ 128) with (256 ^ Z.of_nat 16). lia.
  - subst v. rewrite key16ToBigint_be_value by assumption.
    pose proof (be_value_bound _ Hr) as Hb. rewrite Hlen in Hb.
    change (2 ^ 128) with (256 ^ Z.of_nat 16). lia.
  - exact Hback.
  - intros w1. rewrite Hback. apply aesImportRaw16_fresh. assumption.
  - intros w1. rewrite Hback. apply aesImportRaw16_fresh. assumption.
  - intros w1 m w2 Hm.
    exists (mkCryptoKey (draw 16 w) false [UsageEncrypt; UsageDecrypt]).
    eexists. eexists. split; [|split; [reflexivity | split]].
    + rewrite Hback. apply aesImportRaw16_fresh. assumption.
    + apply (encrypt_run m key w2). reflexivity.
    + intros w4.
      destruct (decrypt_sealed (draw 12 w2) (TextEncoder_encode m)
                               (mkCryptoKey (draw 16 w) false [UsageEncrypt; UsageDecrypt])
                               (length_draw 12 w2) (draw_range 12 w2)
                               (TextEncoder_bytes m Hm) eq_refl) as (_ & _ & D3).
      apply D3.
Qed.

(** ** Keys of another length *)

(** A key that is not 16 bytes long is refused by every copy of
    [aesImportRaw16] before the platform is asked, although the
    platform would import 24 and 32 bytes; [aesExportRaw16] refuses to
    return the bytes of an extractable key of another length, and the
    platform's refusal to export a key that is not extractable comes
    through as it is. *)
Theorem keys_of_other_lengths :
  (forall raw w,
      byteLength raw <> 16%nat ->
      AesV1.aesImportRaw16 raw w = (Throw (Error "Key must be 16 bytes"), w) /\
      AesV2.aesImportRaw16 raw w
      = (Throw (Error ("AES-128 key must be 16 bytes, got " +++ toString10 (byteLength raw))),
         w) /\
      AesV3.aesImportRaw16 (inr raw) w
      = (Throw (Error ("AES-128 key must be 16 bytes, got " +++ toString10 (byteLength raw))),
         w)) /\
  (forall buf w,
      List.length buf <> 16%nat ->
      AesV3.aesImportRaw16 (inl buf) w
      = (Throw (Error ("AES-128 key must be 16 bytes, got "
                         +++ toString10 (List.length buf))), w)) /\
  (forall key w,
      key_extractable key = true ->
      List.length (key_material key) <> 16%nat ->
      AesV1.aesExportRaw16 key w
      = (Throw (Error "Exported key not 16 bytes"), addOp OpExportKey w)) /\
  (forall key w,
      key_extractable key = false ->
      AesV1.aesExportRaw16 key w
      = (Throw (DOMException "InvalidAccessError" ""), addOp OpExportKey w)).
Proof.
  repeat apply conj.
  - intros raw w Hn. apply Nat.eqb_neq in Hn.
    unfold AesV1.aesImportRaw16, AesV2.aesImportRaw16, AesV3.aesImportRaw16, bind.
    cbv zeta. rewrite Hn. repeat split.
  - intros buf w Hn. apply Nat.eqb_neq in Hn.
    unfold AesV3.aesImportRaw16, bind. rewrite Hn. reflexivity.
  - intros key w He Hn. apply Nat.eqb_neq in Hn.
    unfold AesV1.aesExportRaw16, bind, subtle_exportKey, bind, request, lift, exportRaw.
    rewrite He, Hn. reflexivity.
  - intros key w He.
    unfold AesV1.aesExportRaw16, bind, subtle_exportKey, bind, request, lift, exportRaw.
    rewrite He. reflexivity.
Qed.

Lemma keys_of_other_lengths_witness :
  let w0 := mkWorld (fun _ => 0) 0 [] [] in
  AesV2.aesImportRaw16 (viewOf (repeat 0 32)) w0
  = (Throw (Error "AES-128 key must be 16 bytes, got 32"), w0) /\
  AesV1.aesExportRaw16 (mkCryptoKey (repeat 0 32) true [UsageEncrypt]) w0
  = (Throw (Error "Exported key not 16 bytes"), addOp OpExportKey w0).
Proof.
  intros w0. destruct keys_of_other_lengths as (H1 & _ & H3 & _).
  split.
  - apply (H1 (viewOf (repeat 0 32)) w0). discriminate.
  - apply H3; [reflexivity | discriminate].
Defined.

(** ** Decoding hex text *)

Lemma pairs_ind (P : string -> Prop) :
  P EmptyString ->
  (forall c, P (String c EmptyString)) ->
  (forall c1 c2 r, P r -> P (String c1 (String c2 r))) ->
  forall s, P s.
Proof.
  intros H0 H1 H2 s.
  assert (P s /\ forall c, P (String c s)) as [H _]; [|exact H].
  induction s as [|a r [IH1 IH2]]; split; auto.
Qed.

Lemma half_SS n : (S (S n) / 2 = S (n / 2))%nat.
Proof.
  replace (S (S n)) with (n + 1 * 2)%nat by lia.
  rewrite Nat.div_add by lia. lia.
Qed.

Lemma mod2_SS n : (S (S n) mod 2 = n mod 2)%nat.
Proof.
  replace (S (S n)) with (n + 1 * 2)%nat by lia.
  apply Nat.Div0.mod_add.
Qed.

Lemma fillFromHex_decodePairs h :
  Aes.fillFromHex h (newUint8Array (String.length h / 2)) = decodePairs h.
Proof.
  rewrite fillFromHex_map.
  induction h as [| c | c1 c2 r IH] using pairs_ind; [reflexivity | reflexivity |].
  cbn [String.length]. rewrite half_SS. cbn [seq map decodePairs]. f_equal.
  rewrite <- seq_shift, map_map, <- IH.
  apply map_ext. intros i.
  replace (S i * 2)%nat with (S (S (i * 2))) by lia. reflexivity.
Qed.

Lemma length_decodePairs h : List.length (decodePairs h) = (String.length h / 2)%nat.
Proof.
  induction h as [| c | c1 c2 r IH] using pairs_ind; [reflexivity | reflexivity |].
  cbn [String.length decodePairs List.length]. rewrite half_SS, IH. reflexivity.
Qed.

Lemma toUint8_range n : is_byte (toUint8 n).
Proof. unfold is_byte, toUint8. destruct n; [dlia | lia]. Qed.

Lemma decodePairs_range h : Forall is_byte (decodePairs h).
Proof.
  induction h as [| c | c1 c2 r IH] using pairs_ind; try constructor.
  - apply toUint8_range.
  - exact IH.
Qed.

Lemma isHexChar_listed c : isHexChar c = existsb (Ascii.eqb c) hexChars.
Proof. destruct c as [[] [] [] [] [] [] [] []]; reflexivity. Qed.

Lemma all_pairs_ok :
  forallb (fun c1 => forallb (pair_ok c1) hexChars) hexChars = true.
Proof. vm_compute. reflexivity. Qed.

Lemma hex_pair c1 c2 :
  isHexChar c1 = true -> isHexChar c2 = true ->
  hex2 (toUint8 (parseInt16 (String c1 (String c2 EmptyString))))
  = String (lowerChar c1) (String (lowerChar c2) EmptyString).
Proof.
  rewrite !isHexChar_listed. intros H1 H2.
  apply existsb_exists in H1 as (a & Ha & E1). apply existsb_exists in H2 as (b & Hb & E2).
  apply Ascii.eqb_eq in E1, E2. subst a b.
  pose proof all_pairs_ok as H. rewrite forallb_forall in H.
  specialize (H c1 Ha). rewrite forallb_forall in H. specialize (H c2 Hb).
  apply String.eqb_eq in H. exact H.
Qed.

Lemma hexPairs_decodePairs d :
  forallb_string isHexChar d = true ->
  (String.length d mod 2 = 0)%nat ->
  hexPairs (decodePairs d) = toLowerCase d.
Proof.
  induction d as [| c | c1 c2 r IH] using pairs_ind; intros Hd Heven.
  - reflexivity.
  - discriminate Heven.
  - cbn [forallb_string] in Hd.
    apply andb_true_iff in Hd as [H1 Hd]. apply andb_true_iff in Hd as [H2 Hr].
    cbn [String.length] in Heven. rewrite mod2_SS in Heven.
    cbn [decodePairs hexPairs toLowerCase].
    rewrite (hex_pair c1 c2 H1 H2), (IH Hr Heven). reflexivity.
Qed.

Lemma strip0x_hex d :
  forallb_string isHexChar d = true -> AesV23.strip0x d = d.
Proof.
  intros Hd. unfold AesV23.strip0x.
  destruct d as [|a [|b r]]; [reflexivity | |].
  - cbn [startsWith]. rewrite andb_false_r. reflexivity.
  - cbn [forallb_string] in Hd.
    apply andb_true_iff in Hd as [_ Hd]. apply andb_true_iff in Hd as [Hb _].
    cbn [startsWith].
    replace (Ascii.eqb "x" b) with false; [rewrite andb_false_r; reflexivity|].
    symmetry. destruct b as [[] [] [] [] [] [] [] []]; first [reflexivity | discriminate Hb].
Qed.

(** What every copy of [hexToBytes] reads off hex digits *)
Lemma hexToBytes_bytesToHex_raw d :
  forallb_string isHexChar d = true ->
  (String.length d mod 2 = 0)%nat ->
  AesV1.hexToBytes ("0x" +++ d) = decodePairs d /\
  AesV23.hexToBytes ("0x" +++ d) = Ok (decodePairs d) /\
  AesV23.hexToBytes d = Ok (decodePairs d).
Proof.
  intros Hd Heven.
  assert (negb (String.length d mod 2 =? 0)%nat = false) as Hcheck
      by (rewrite Heven; reflexivity).
  repeat apply conj.
  - unfold AesV1.hexToBytes. change (slice 2 ("0x" +++ d)) with d. cbv zeta.
    apply fillFromHex_decodePairs.
  - unfold AesV23.hexToBytes, AesV23.strip0x.
    change (startsWith ("0x" +++ d) "0x") with true. cbv iota.
    change (slice 2 ("0x" +++ d)) with d. cbv zeta.
    rewrite Hcheck, fillFromHex_decodePairs. reflexivity.
  - unfold AesV23.hexToBytes. rewrite (strip0x_hex d Hd). cbv zeta.
    rewrite Hcheck, fillFromHex_decodePairs. reflexivity.
Qed.

(** Encoding what was decoded gives the text back in lowercase.  For a
    text [d] of hex digits of either case, an even number of them, every
    copy of [hexToBytes] reads 0x followed by [d] as the same
    [length d / 2] bytes, and [bytesToHex] writes those bytes as 0x
    followed by [d] in lowercase.  The second and third copies read [d]
    without the prefix as the same bytes; the first copy drops the first
    two characters unseen, so that it loses the first byte of a text
    without prefix. *)
Theorem hexToBytes_then_bytesToHex (d : string) :
  forallb_string isHexChar d = true ->
  (String.length d mod 2 = 0)%nat ->
  exists b,
    AesV1.hexToBytes ("0x" +++ d) = b /\
    AesV23.hexToBytes ("0x" +++ d) = Ok b /\
    AesV23.hexToBytes d = Ok b /\
    List.length b = (String.length d / 2)%nat /\
    Forall is_byte b /\
    Aes.bytesToHex b = "0x" +++ toLowerCase d /\
    AesV1.hexToBytes d = skipn 1 b.
Proof.
  intros Hd Heven. exists (decodePairs d).
  assert (negb (String.length d mod 2 =? 0)%nat = false) as Hcheck
      by (rewrite Heven; reflexivity).
  repeat apply conj.
  - unfold AesV1.hexToBytes. change (slice 2 ("0x" +++ d)) with d. cbv zeta.
    apply fillFromHex_decodePairs.
  - unfold AesV23.hexToBytes, AesV23.strip0x.
    change (startsWith ("0x" +++ d) "0x") with true. cbv iota.
    change (slice 2 ("0x" +++ d)) with d. cbv zeta.
    rewrite Hcheck, fillFromHex_decodePairs. reflexivity.
  - unfold AesV23.hexToBytes. rewrite (strip0x_hex d Hd). cbv zeta.
    rewrite Hcheck, fillFromHex_decodePairs. reflexivity.
  - apply length_decodePairs.
  - apply decodePairs_range.
  - rewrite bytesToHex_hexPairs, hexPairs_decodePairs by assumption. reflexivity.
  - unfold AesV1.hexToBytes. cbv zeta. rewrite fillFromHex_decodePairs.
    destruct d as [|c1 [|c2 r]]; reflexivity.
Qed.

Lemma hexToBytes_then_bytesToHex_witness :
  Aes.bytesToHex (AesV1.hexToBytes "0xDEADbeef") = "0xdeadbeef" /\
  AesV1.hexToBytes "DEADbeef" = [173; 190; 239].
Proof.
  destruct (hexToBytes_then_bytesToHex "DEADbeef" eq_refl eq_refl)
    as (b & H1 & _ & _ & _ & _ & H6 & H7).
  split.
  - change "0xDEADbeef" with ("0x" +++ "DEADbeef"). rewrite H1. exact H6.
  - rewrite H7, <- H1. reflexivity.
Defined.

(** ** A changed tag *)

Lemma unseal_wrong_tag key iv aad c t :
  List.length t = 16%nat ->
  t <> GCM.tag key iv aad c 16 ->
  GCM.unseal key iv aad 16 (c ++ t) = None.
Proof.
  intros Hl Hne. unfold GCM.unseal. rewrite length_app, Hl.
  replace (List.length c + 16 <? 16)%nat with false
    by (symmetry; apply Nat.ltb_ge; lia).
  replace (List.length c + 16 - 16)%nat with (List.length c) by lia. cbv zeta.
  rewrite firstn_app, Nat.sub_diag, firstn_all, firstn_O, app_nil_r.
  rewrite skipn_app, Nat.sub_diag, skipn_all, skipn_O. cbn [app].
  destruct (eqb_bytes t (GCM.tag key iv aad c 16)) eqn:E; [|reflexivity].
  apply eqb_bytes_eq in E. contradiction.
Qed.

(** A packed value whose last 16 bytes are not the tag of the IV and
    ciphertext before them is never decrypted, whatever the rest: the
    first copy throws the platform's OperationError, the other copies
    their generic error.  So every change to the tag of a value made by
    [encryptUtf8AesGcmPacked] is detected. *)
Theorem changed_tag_is_rejected (iv c t : list Z) (key : CryptoKey) :
  List.length iv = 12%nat -> List.length t = 16%nat ->
  Forall is_byte iv -> Forall is_byte c -> Forall is_byte t ->
  t <> GCM.tag (key_material key) iv [] c 16 ->
  hasUsage UsageDecrypt key = true ->
  let packed := Aes.bytesToHex (iv ++ c ++ t) in
  forall w,
    AesV1.decryptUtf8AesGcmPacked packed key w
    = (Throw (DOMException "OperationError" ""), addOp OpDecrypt w) /\
    fst (AesV3.decryptUtf8AesGcmPacked packed key None 128 w)
    = Throw (Error "AES-GCM decrypt failed: OperationError (likely key/IV/tag/AAD mismatch)") /\
    (key_extractable key = true ->
     fst (AesV2.decryptUtf8AesGcmPacked packed key None 128 w)
     = Throw (Error "AES-GCM decrypt failed: OperationError (likely key/IV/tag/AAD mismatch)")).
Proof.
  intros Hiv Ht Biv Bc Bt Hne Hu packed w.
  assert (Forall is_byte (c ++ t)) as Bs by (apply Forall_app; split; assumption).
  destruct (packed_split iv (c ++ t) Hiv Biv Bs) as (H1 & H23 & Hf & Hk).
  fold packed in H1, H23.
  assert (aesGcmDecrypt iv None 128 key (c ++ t) = Throw (DOMException "OperationError" ""))
    as Hfail.
  { unfold aesGcmDecrypt. rewrite Hu. cbn [orb negb Z.ltb Z.compare].
    change (Z.to_nat (128 / 8)) with 16%nat. cbn [orEmpty].
    rewrite (unseal_wrong_tag _ _ _ _ _ Ht Hne). reflexivity. }
  assert (AesV23.tooShort (iv ++ c ++ t) 128 = false) as Hlong.
  { rewrite tooShort_default. apply Nat.ltb_ge. rewrite !length_app. lia. }
  assert ((List.length (iv ++ c ++ t) <? 12)%nat = false) as Hlong1
      by (apply Nat.ltb_ge; rewrite !length_app; lia).
  repeat apply conj.
  - rewrite decrypt_v1_run. cbv zeta. rewrite H1, Hlong1, Hf, Hk, Hfail. reflexivity.
  - rewrite decrypt_v3_run, H23, Hlong, Hf, Hk, Hfail.
    rewrite decryptFailed_named by discriminate. reflexivity.
  - intros He. rewrite decrypt_v2_run, He. cbv zeta.
    rewrite H23, Hlong, Hf, Hk, Hfail.
    rewrite decryptFailed_named by discriminate. reflexivity.
Qed.

Lemma changed_tag_is_rejected_witness :
  let w0 := mkWorld (fun _ => 0) 0 [] [] in
  let key := mkCryptoKey (repeat 0 16) false [UsageEncrypt; UsageDecrypt] in
  AesV1.decryptUtf8AesGcmPacked
    "0x00000000000000000000000000000000000000000000000000000000" key w0
  = (Throw (DOMException "OperationError" ""), addOp OpDecrypt w0).
Proof.
  intros w0 key.
  apply (changed_tag_is_rejected (repeat 0 12) [] (repeat 0 16) key);
    try reflexivity; try (repeat constructor; unfold is_byte; lia).
  intros H. vm_compute in H. discriminate H.
Defined.

(** ** The packed value: its size, its case, its prefix *)

Lemma TextEncoder_ascii m :
  Forall (fun u => 0 <= u < 128) m -> TextEncoder_encode m = m.
Proof.
  unfold TextEncoder_encode.
  induction 1 as [|u r Hu Hr IH]; [reflexivity|].
  cbn [toScalars]. unfold isHighSurrogate, isLowSurrogate.
  replace (55296 <=? u) with false by (symmetry; apply Z.leb_gt; lia).
  replace (56320 <=? u) with false by (symmetry; apply Z.leb_gt; lia).
  cbn [andb flat_map]. rewrite IH. unfold utf8_encode_scalar.
  replace (u <? 128) with true by (symmetry; apply Z.ltb_lt; lia).
  reflexivity.
Qed.

(** The packed value is 58 characters longer than twice the number of
    UTF-8 bytes of the text: 0x, the 12 bytes of the IV, the ciphertext
    as long as the text, and the 16 bytes of the tag, two lowercase hex
    digits a byte.  Encrypting consumes 12 bytes of the entropy source
    and nothing else of the world; the IV is written first. *)
Theorem packed_size (m : list Z) (key : CryptoKey) (w : World) :
  Forall (fun u => 0 <= u < 65536) m ->
  hasUsage UsageEncrypt key = true ->
  exists packed,
    AesV1.encryptUtf8AesGcmPacked m key w = (Ok packed, addOp OpEncrypt (advance 12 w)) /\
    String.length packed = (58 + 2 * List.length (TextEncoder_encode m))%nat /\
    (Forall (fun u => 0 <= u < 128) m ->
     String.length packed = (58 + 2 * List.length m)%nat) /\
    firstn 12 (AesV1.hexToBytes packed) = draw 12 w /\
    List.length (AesV1.hexToBytes packed) = (28 + List.length (TextEncoder_encode m))%nat.
Proof.
  intros Hm Hu.
  set (pt := TextEncoder_encode m).
  set (sealed := GCM.seal (key_material key) (draw 12 w) [] 16 pt).
  exists (Aes.bytesToHex (draw 12 w ++ sealed)).
  assert (Forall is_byte pt) as Hpt by (apply TextEncoder_bytes; assumption).
  assert (Forall is_byte sealed) as Hs by (apply seal_range; assumption).
  assert (List.length sealed = (List.length pt + 16)%nat) as Hl
      by (apply length_seal; lia).
  destruct (packed_split (draw 12 w) sealed (length_draw 12 w) (draw_range 12 w) Hs)
    as (H1 & _ & Hf & _).
  assert (String.length (Aes.bytesToHex (draw 12 w ++ sealed))
          = (58 + 2 * List.length pt)%nat) as Hsize.
  { rewrite bytesToHex_hexPairs. cbn [String.append String.length].
    rewrite length_hexPairs
      by (apply Forall_app; split; [apply draw_range | assumption]).
    rewrite length_app, length_draw, Hl. lia. }
  split; [apply encrypt_run; assumption|].
  split; [exact Hsize|].
  split; [intros Ha; rewrite Hsize; subst pt; rewrite (TextEncoder_ascii m Ha);
          reflexivity|].
  split; [rewrite H1; exact Hf|].
  rewrite H1, length_app, length_draw, Hl. lia.
Qed.

Lemma packed_size_witness :
  let w0 := mkWorld (fun _ => 0) 0 [] [] in
  let key := mkCryptoKey (repeat 0 16) false [UsageEncrypt; UsageDecrypt] in
  exists packed,
    fst (AesV1.encryptUtf8AesGcmPacked [104; 101; 108; 108; 111] key w0) = Ok packed /\
    String.length packed = 68%nat.
Proof.
  intros w0 key.
  destruct (packed_size [104; 101; 108; 108; 111] key w0)
    as (packed & Hrun & _ & Hlen & _).
  - repeat constructor; lia.
  - reflexivity.
  - exists packed. split; [rewrite Hrun; reflexivity|].
    apply Hlen. repeat constructor; lia.
Defined.

Lemma decodePairs_hexPairs b : Forall is_byte b -> decodePairs (hexPairs b) = b.
Proof.
  intros Hb. rewrite <- fillFromHex_decodePairs, fillFromHex_map.
  rewrite (length_hexPairs b Hb).
  replace (2 * List.length b / 2)%nat with (List.length b)
    by (rewrite Nat.mul_comm, Nat.div_mul; lia).
  apply read_hexPairs. assumption.
Qed.

Lemma toLowerCase_hexchars d :
  forallb_string isHexChar d = true ->
  forallb_string isHexChar (toLowerCase d) = true /\
  toLowerCase (toLowerCase d) = toLowerCase d.
Proof.
  induction d as [|c r IH]; [split; reflexivity|].
  cbn [forallb_string toLowerCase]. rewrite andb_true_iff. intros [Hc Hr].
  destruct (IH Hr) as [I1 I2].
  pose proof (isHexChar_lower c Hc) as Hl.
  rewrite (isLowerHex_isHexChar _ Hl), I1, (isLowerHex_lower _ Hl), I2.
  split; reflexivity.
Qed.

Lemma decodePairs_lower d :
  forallb_string isHexChar d = true ->
  (String.length d mod 2 = 0)%nat ->
  decodePairs (toLowerCase d) = decodePairs d.
Proof.
  intros Hd Heven.
  destruct (toLowerCase_hexchars d Hd) as [Hl Hll].
  rewrite <- (decodePairs_hexPairs (decodePairs d)) by apply decodePairs_range.
  rewrite <- (decodePairs_hexPairs (decodePairs (toLowerCase d)))
    by apply decodePairs_range.
  rewrite !hexPairs_decodePairs, Hll; try assumption; [reflexivity|].
  rewrite toLowerCase_length. assumption.
Qed.

(** Decrypting does not depend on the case of the hex digits of the
    packed value, and in the second and third copies not on the 0x in
    front of it either. *)
Theorem decrypt_ignores_case_and_prefix (d : string) (key : CryptoKey)
        (aad : option (list Z)) (t : Z) (w : World) :
  forallb_string isHexChar d = true ->
  (String.length d mod 2 = 0)%nat ->
  AesV1.decryptUtf8AesGcmPacked ("0x" +++ toLowerCase d) key w
  = AesV1.decryptUtf8AesGcmPacked ("0x" +++ d) key w /\
  AesV3.decryptUtf8AesGcmPacked ("0x" +++ toLowerCase d) key aad t w
  = AesV3.decryptUtf8AesGcmPacked ("0x" +++ d) key aad t w /\
  AesV3.decryptUtf8AesGcmPacked d key aad t w
  = AesV3.decryptUtf8AesGcmPacked ("0x" +++ d) key aad t w /\
  fst (AesV2.decryptUtf8AesGcmPacked d key aad t w)
  = fst (AesV2.decryptUtf8AesGcmPacked ("0x" +++ d) key aad t w) /\
  fst (AesV2.decryptUtf8AesGcmPacked ("0x" +++ toLowerCase d) key aad t w)
  = fst (AesV2.decryptUtf8AesGcmPacked ("0x" +++ d) key aad t w).
Proof.
  intros Hd Heven.
  destruct (toLowerCase_hexchars d Hd) as [Hl _].
  assert (String.length (toLowerCase d) mod 2 = 0)%nat as Hevenl
      by (rewrite toLowerCase_length; assumption).
  destruct (hexToBytes_bytesToHex_raw d Hd Heven) as (A1 & A2 & A3).
  destruct (hexToBytes_bytesToHex_raw (toLowerCase d) Hl Hevenl) as (B1 & B2 & _).
  rewrite (decodePairs_lower d Hd Heven) in B1, B2.
  repeat apply conj.
  - rewrite !decrypt_v1_run. cbv zeta. rewrite A1, B1. reflexivity.
  - rewrite !decrypt_v3_run, A2, B2. reflexivity.
  - rewrite !decrypt_v3_run, A2, A3. reflexivity.
  - rewrite !decrypt_v2_run. cbv zeta. rewrite A2, A3.
    destruct (key_extractable key); [|reflexivity].
    destruct (AesV23.tooShort (decodePairs d) t); [reflexivity|].
    destruct (aesGcmDecrypt _ _ _ _ _); reflexivity.
  - rewrite !decrypt_v2_run. cbv zeta. rewrite A2, B2.
    destruct (key_extractable key); [|reflexivity].
    destruct (AesV23.tooShort (decodePairs d) t); [reflexivity|].
    destruct (aesGcmDecrypt _ _ _ _ _); reflexivity.
Qed.

Lemma decrypt_ignores_case_and_prefix_witness :
  let w0 := mkWorld (fun _ => 0) 0 [] [] in
  let key := mkCryptoKey (repeat 0 16) false [UsageEncrypt; UsageDecrypt] in
  AesV3.decryptUtf8AesGcmPacked
    "000000000000000000000000EC3365A60915B8126EF9A9CBC3E8F52AB8AFC56CB7" key None 128 w0
  = AesV3.decryptUtf8AesGcmPacked
      "0x000000000000000000000000EC3365A60915B8126EF9A9CBC3E8F52AB8AFC56CB7" key None 128 w0.
Proof.
  intros w0 key.
  apply (decrypt_ignores_case_and_prefix
           "000000000000000000000000EC3365A60915B8126EF9A9CBC3E8F52AB8AFC56CB7"
           key None 128 w0); reflexivity.
Defined.

(** ** What the second copy writes to the console *)

(** The second copy writes the key to the console on every call, for
    every key that can be exported: encrypting adds the line
    "Key (hex):" with the key's bytes in hex, and decrypting adds the
    packed value and then the same line, before anything is decoded or
    checked. *)
Theorem second_copy_logs_every_key (key : CryptoKey) :
  key_extractable key = true ->
  let line := mkEntry LevelLog [ArgText "Key (hex):";
                                ArgText (hexPairs (key_material key))] in
  (forall m w,
      console (snd (AesV2.encryptUtf8AesGcmPacked m key w)) = console w ++ [line]) /\
  (forall packed aad t w,
      exists rest,
        console (snd (AesV2.decryptUtf8AesGcmPacked packed key aad t w))
        = console w ++ [mkEntry LevelLog [ArgText "AES-GCM decrypt:"; ArgText packed];
                        line] ++ rest).
Proof.
  intros He. cbv zeta. split.
  - intros m w. apply encrypt_v2_console. assumption.
  - intros packed aad t w. rewrite decrypt_v2_run, He. cbv zeta.
    assert (forall e w1, exists rest,
               console (snd (AesV23.decryptFailed e w1)) = console w1 ++ rest) as Hfail.
    { intros e w1. unfold AesV23.decryptFailed, bind, console_error, console_write, throw.
      eexists. reflexivity. }
    set (first := mkEntry LevelLog [ArgText "AES-GCM decrypt:"; ArgText packed]).
    set (line := mkEntry LevelLog [ArgText "Key (hex):";
                                   ArgText (hexPairs (key_material key))]).
    set (w2 := addConsole line (addOp OpExportKey (addConsole first w))).
    assert (console w2 = console w ++ [first; line]) as Hc
        by (subst w2; cbn [console addConsole addOp]; rewrite <- app_assoc; reflexivity).
    assert (forall rest, (console w ++ [first; line]) ++ rest
                         = console w ++ [first; line] ++ rest) as Hassoc
        by (intros; rewrite <- app_assoc; reflexivity).
    destruct (AesV23.hexToBytes packed) as [data|e].
    + destruct (AesV23.tooShort data t).
      * destruct (Hfail (Error "cipher too short (missing IV or tag)") w2) as [rest ->].
        exists rest. rewrite Hc. apply Hassoc.
      * destruct (aesGcmDecrypt _ _ _ _ _) as [pt|e].
        -- exists []. cbn [snd console addOp]. rewrite Hc. reflexivity.
        -- destruct (Hfail e (addOp OpDecrypt w2)) as [rest ->].
           exists rest. cbn [console addOp]. rewrite Hc. apply Hassoc.
    + destruct (Hfail e w2) as [rest ->]. exists rest. rewrite Hc. apply Hassoc.
Qed.

Lemma second_copy_logs_every_key_witness :
  let w0 := mkWorld (fun _ => 0) 0 [] [] in
  let key := mkCryptoKey [1; 2; 3; 4; 5; 6; 7; 8; 9; 10; 11; 12; 13; 14; 15; 16] true
                         [UsageEncrypt; UsageDecrypt] in
  console (snd (AesV2.encryptUtf8AesGcmPacked (codeUnits "hi") key w0))
  = [mkEntry LevelLog [ArgText "Key (hex):"; ArgText "0102030405060708090a0b0c0d0e0f10"]].
Proof.
  intros w0 key.
  destruct (second_copy_logs_every_key key eq_refl) as [H _].
  apply (H (codeUnits "hi") w0).
Defined.

(** * The SDK loader: what [load()] comes to *)

(** [_patchWasmLoading] touches nothing of the page but the two
    primitives. *)
Lemma patchWasmLoading_page this h page :
  window h = Some page ->
  exists page',
    window (snd (patchWasmLoading this h)) = Some page' /\
    location_pathname page' = location_pathname page /\
    location_origin page' = location_origin page /\
    document_baseURI page' = document_baseURI page /\
    window_relayerSDK page' = window_relayerSDK page /\
    script_srcs page' = script_srcs page /\
    NODE_ENV (snd (patchWasmLoading this h)) = NODE_ENV h /\
    host_console (snd (patchWasmLoading this h)) = host_console h /\
    host_traced (snd (patchWasmLoading this h)) = host_traced h.
Proof.
  intros Hw. unfold patchWasmLoading.
  destruct (wasmPatchApplied this).
  - exists page. cbn [snd]. repeat split; assumption.
  - destruct (String.eqb (getBasePath h) EmptyString).
    + exists page. cbn [snd]. repeat split; assumption.
    + rewrite Hw. cbn [snd setWindow window]. eexists. split; [reflexivity|].
      repeat split.
Qed.

Lemma getBasePath_page h h' page page' :
  window h = Some page -> window h' = Some page' ->
  location_pathname page' = location_pathname page ->
  getBasePath h' = getBasePath h /\ getSDKCDNUrl h' = getSDKCDNUrl h.
Proof.
  intros H H' Hp. unfold getSDKCDNUrl, getBasePath. rewrite H, H', Hp.
  split; reflexivity.
Qed.

Lemma patchWasmLoading_loader this h :
  wasmPatchApplied (fst (patchWasmLoading this h)) = true /\
  has_trace (fst (patchWasmLoading this h)) = has_trace this.
Proof.
  unfold patchWasmLoading. destruct (wasmPatchApplied this) eqn:Hf.
  - cbn [fst]. split; [assumption | reflexivity].
  - destruct (String.eqb (getBasePath h) EmptyString); [split; reflexivity|].
    destruct (window h); split; reflexivity.
Qed.

(** [load()] where there is a [window], step by step *)
Lemma load_browser this h page :
  window h = Some page ->
  exists this' h2 page2,
    patchWasmLoading this (logLine "[RelayerSDKLoader] load..." h) = (this', h2) /\
    wasmPatchApplied this' = true /\
    has_trace this' = has_trace this /\
    window h2 = Some page2 /\
    location_pathname page2 = location_pathname page /\
    window_relayerSDK page2 = window_relayerSDK page /\
    script_srcs page2 = script_srcs page /\
    load this h =
    match window_relayerSDK page with
    | Some sdk =>
        let h3 := traceAll (has_trace this') (snd (isFhevmRelayerSDKType sdk)) h2 in
        if fst (isFhevmRelayerSDKType sdk) then (Resolved, this', h3)
        else (Thrown "RelayerSDKLoader: Unable to load FHEVM Relayer SDK", this',
              logLine "[RelayerSDKLoader] window.relayerSDK === undefined" h3)
    | None =>
        if existsb (String.eqb (getSDKCDNUrl h)) (script_srcs page)
        then (Rejected "RelayerSDKLoader: window object does not contain a valid relayerSDK object.",
              this',
              traceAll (has_trace this')
                       ["RelayerSDKLoader: window does not contain 'relayerSDK' property"] h2)
        else (ScriptPending (getSDKCDNUrl h), this',
              logLine "[RelayerSDKLoader] script added!"
                (setWindow (mkPage (location_pathname page2) (location_origin page2)
                                   (document_baseURI page2) (window_fetch page2)
                                   (instantiateStreaming page2) (window_relayerSDK page2)
                                   (script_srcs page2 ++ [getSDKCDNUrl h]))
                           (logLine "[RelayerSDKLoader] add script to DOM..." h2)))
    end.
Proof.
  intros Hw.
  set (h1 := logLine "[RelayerSDKLoader] load..." h).
  assert (window h1 = Some page) as Hw1 by exact Hw.
  destruct (patchWasmLoading_page this h1 page Hw1)
    as (page2 & Hw2 & Hpath & _ & _ & Hsdk & Hsrc & _).
  destruct (patchWasmLoading_loader this h1) as [Hflag Htrace].
  destruct (patchWasmLoading this h1) as [this' h2] eqn:Hpatch. cbn [fst snd] in *.
  exists this', h2, page2. repeat (split; [assumption || reflexivity|]).
  destruct (getBasePath_page h1 h2 page page2 Hw1 Hw2 Hpath) as [_ Hurl].
  change (getSDKCDNUrl h1) with (getSDKCDNUrl h) in Hurl.
  unfold load. fold h1. rewrite Hw1, Hpatch. cbv beta iota zeta.
  rewrite Hw2. cbv beta iota. rewrite Hsdk.
  destruct (window_relayerSDK page) as [sdk|] eqn:Hs.
  - destruct (isFhevmRelayerSDKType sdk) as [ok ms]. cbn [fst snd]. cbv zeta.
    destruct ok; reflexivity.
  - rewrite Hurl, Hsrc.
    destruct (existsb (String.eqb (getSDKCDNUrl h)) (script_srcs page)); [|reflexivity].
    unfold isFhevmWindowType. rewrite Hsdk. reflexivity.
Qed.

Lemma window_traceAll b ms h : window (traceAll b ms h) = window h.
Proof. destruct b; reflexivity. Qed.

(** What [load()] comes to on a page, by the state of
    [window.relayerSDK] and of the document: it resolves at once when
    the SDK object is there and valid, and throws (it does not reject)
    when it is there and invalid; when it is not there, [load()] rejects
    if the document already has the SDK's script element, and otherwise
    appends that element and stays pending.  The loader has run its
    patch afterwards, and only the last case changes the document. *)
Theorem load_outcomes (this : RelayerSDKLoader) (h : Host) (page : Page) :
  window h = Some page ->
  let r := load this h in
  let scripts := option_map script_srcs (window (snd r)) in
  wasmPatchApplied (snd (fst r)) = true /\
  option_map window_relayerSDK (window (snd r)) = Some (window_relayerSDK page) /\
  option_map location_pathname (window (snd r)) = Some (location_pathname page) /\
  (forall sdk,
      window_relayerSDK page = Some sdk ->
      fst (isFhevmRelayerSDKType sdk) = true ->
      fst (fst r) = Resolved /\ scripts = Some (script_srcs page)) /\
  (forall sdk,
      window_relayerSDK page = Some sdk ->
      fst (isFhevmRelayerSDKType sdk) = false ->
      fst (fst r) = Thrown "RelayerSDKLoader: Unable to load FHEVM Relayer SDK" /\
      scripts = Some (script_srcs page)) /\
  (window_relayerSDK page = None ->
   existsb (String.eqb (getSDKCDNUrl h)) (script_srcs page) = true ->
   fst (fst r)
   = Rejected "RelayerSDKLoader: window object does not contain a valid relayerSDK object." /\
   scripts = Some (script_srcs page)) /\
  (window_relayerSDK page = None ->
   existsb (String.eqb (getSDKCDNUrl h)) (script_srcs page) = false ->
   fst (fst r) = ScriptPending (getSDKCDNUrl h) /\
   scripts = Some (script_srcs page ++ [getSDKCDNUrl h])).
Proof.
  intros Hw r scripts. subst scripts r.
  destruct (load_browser this h page Hw)
    as (this' & h2 & page2 & _ & Hflag & _ & Hw2 & Hpath & Hsdk & Hsrc & ->).
  destruct (window_relayerSDK page) as [sdk|] eqn:Hs.
  - cbv zeta. destruct (fst (isFhevmRelayerSDKType sdk)) eqn:Hok;
      cbn [fst snd]; cbn [logLine window]; rewrite window_traceAll, Hw2;
      cbn [option_map]; rewrite Hsdk, Hpath, Hsrc;
      (repeat apply conj; try assumption; try reflexivity; try discriminate);
      intros sdk' E; inversion E; subst sdk'; intros Hok'; try congruence;
      split; reflexivity.
  - destruct (existsb (String.eqb (getSDKCDNUrl h)) (script_srcs page)) eqn:Hex;
      cbn [fst snd]; cbn [logLine setWindow window]; rewrite ?window_traceAll, ?Hw2;
      cbn [option_map window_relayerSDK location_pathname script_srcs];
      rewrite Hsdk, Hpath, ?Hsrc;
      (repeat apply conj; try assumption; try reflexivity; try discriminate);
      intros; try discriminate; split; reflexivity.
Qed.

Lemma load_outcomes_witness :
  let page := mkPage "/farewell/app/" "https://example.org" "https://example.org/farewell/app/"
                     NativeFetch NativeInstantiate None [] in
  let h := mkHost "production" (Some page) [] [] in
  fst (fst (load (newLoader false) h))
  = ScriptPending "/farewell/relayer-sdk/relayer-sdk-js.umd.cjs".
Proof.
  intros page h.
  destruct (load_outcomes (newLoader false) h page eq_refl) as (_ & _ & _ & _ & _ & _ & H).
  apply H; reflexivity.
Defined.

Lemma existsb_last {A} (f : A -> bool) l x : f x = true -> existsb f (l ++ [x]) = true.
Proof.
  intros H. rewrite existsb_app. cbn [existsb]. rewrite H.
  rewrite orb_true_r. reflexivity.
Qed.

(** Calling [load()] again before the script has run fails.  On a page
    without the SDK object and without its script element, the first
    [load()] appends the element and stays pending; any [load()] after
    it and before the SDK object appears, on the same loader or on
    another, finds the element and rejects, and leaves the document with
    that one element. *)
Theorem load_again_before_the_script_runs (this : RelayerSDKLoader) (h : Host)
        (page : Page) :
  window h = Some page ->
  window_relayerSDK page = None ->
  existsb (String.eqb (getSDKCDNUrl h)) (script_srcs page) = false ->
  let h1 := snd (load this h) in
  fst (fst (load this h)) = ScriptPending (getSDKCDNUrl h) /\
  forall other,
    fst (fst (load other h1))
    = Rejected "RelayerSDKLoader: window object does not contain a valid relayerSDK object." /\
    option_map script_srcs (window (snd (load other h1)))
    = Some (script_srcs page ++ [getSDKCDNUrl h]).
Proof.
  intros Hw Hs Hex h1. subst h1.
  destruct (load_browser this h page Hw)
    as (this' & h2 & page2 & _ & _ & _ & Hw2 & Hpath & Hsdk & Hsrc & E).
  rewrite Hs, Hex in E. rewrite E. cbn [fst snd]. split; [reflexivity|].
  intros other.
  set (page3 := mkPage (location_pathname page2) (location_origin page2)
                       (document_baseURI page2) (window_fetch page2)
                       (instantiateStreaming page2) (window_relayerSDK page2)
                       (script_srcs page2 ++ [getSDKCDNUrl h])).
  set (h3 := logLine "[RelayerSDKLoader] script added!"
               (setWindow page3 (logLine "[RelayerSDKLoader] add script to DOM..." h2))).
  assert (window h3 = Some page3) as Hw3 by reflexivity.
  assert (getSDKCDNUrl h3 = getSDKCDNUrl h) as Hurl.
  { apply (getBasePath_page h h3 page page3 Hw Hw3). exact Hpath. }
  destruct (load_browser other h3 page3 Hw3)
    as (o' & h4 & page4 & _ & _ & _ & Hw4 & _ & _ & Hsrc4 & E4).
  rewrite E4. cbn [window_relayerSDK page3]. rewrite Hsdk, Hs, Hurl.
  cbn [script_srcs page3].
  rewrite (existsb_last _ _ _ (String.eqb_refl _)).
  cbn [fst snd]. rewrite window_traceAll, Hw4. cbn [option_map].
  rewrite Hsrc4. cbn [script_srcs page3]. rewrite Hsrc. split; reflexivity.
Qed.

Lemma load_again_before_the_script_runs_witness :
  let page := mkPage "/" "http://localhost:3000" "http://localhost:3000/"
                     NativeFetch NativeInstantiate None [] in
  let h := mkHost "development" (Some page) [] [] in
  let this := newLoader false in
  fst (fst (load this h)) = ScriptPending "/relayer-sdk/relayer-sdk-js.umd.cjs" /\
  fst (fst (load (snd (fst (load this h))) (snd (load this h))))
  = Rejected "RelayerSDKLoader: window object does not contain a valid relayerSDK object.".
Proof.
  intros page h this.
  destruct (load_again_before_the_script_runs this h page eq_refl eq_refl eq_refl)
    as [H1 H2].
  split; [exact H1 | apply H2].
Defined.

(** * The SDK loader: the shape check and the entry points *)

Lemma typeOf_function v : String.eqb (typeOf v) "function" = true -> v = JsFunction.
Proof. destruct v; cbn; intros H; first [reflexivity | discriminate H]. Qed.

Lemma objHasProperty_function props name :
  fst (objHasProperty (JsObject props) name "function") = true <->
  lookupProp name props = Some JsFunction.
Proof.
  unfold objHasProperty. destruct (lookupProp name props) as [v|].
  - destruct v; cbn; split; intros H; first [reflexivity | discriminate H].
  - cbn. split; intros H; discriminate H.
Qed.

Lemma objHasProperty_object props name :
  fst (objHasProperty (JsObject props) name "object") = true <->
  exists fields, lookupProp name props = Some (JsObject fields).
Proof.
  unfold objHasProperty. destruct (lookupProp name props) as [v|].
  - destruct v; cbn;
      (split; [ intros H; first [discriminate H | eexists; reflexivity]
              | intros (fields & H); first [discriminate H | reflexivity] ]).
  - cbn. split; [intros H; discriminate H | intros (fields & H); discriminate H].
Qed.

Lemma isFhevmRelayerSDKType_silent o :
  fst (isFhevmRelayerSDKType o) = true -> snd (isFhevmRelayerSDKType o) = [].
Proof.
  destruct o as [| | b | n | s | | props]; try (cbn; intros H; discriminate H).
  unfold isFhevmRelayerSDKType.
  destruct (objHasProperty (JsObject props) "initSDK" "function") as [ok1 t1].
  destruct ok1; cbn [negb]; [|intros H; discriminate H].
  destruct (objHasProperty (JsObject props) "createInstance" "function") as [ok2 t2].
  destruct ok2; cbn [negb]; [|intros H; discriminate H].
  destruct (objHasProperty (JsObject props) "SepoliaConfig" "object") as [ok3 t3].
  destruct ok3; cbn [negb]; [|intros H; discriminate H].
  destruct (lookupProp "__initialized__" props) as [v|]; [|reflexivity].
  destruct v; intros H; first [discriminate H | reflexivity].
Qed.

(** What [isFhevmRelayerSDKType] accepts: an object with [initSDK] and
    [createInstance] functions and a [SepoliaConfig] object, whose
    [__initialized__], if there is one, is a boolean.  Nothing is traced
    for a value it accepts. *)
Theorem isFhevmRelayerSDKType_accepts (o : JsValue) :
  (fst (isFhevmRelayerSDKType o) = true <->
   exists props,
     o = JsObject props /\
     lookupProp "initSDK" props = Some JsFunction /\
     lookupProp "createInstance" props = Some JsFunction /\
     (exists fields, lookupProp "SepoliaConfig" props = Some (JsObject fields)) /\
     (lookupProp "__initialized__" props = None \/
      exists b, lookupProp "__initialized__" props = Some (JsBoolean b))) /\
  (fst (isFhevmRelayerSDKType o) = true -> snd (isFhevmRelayerSDKType o) = []).
Proof.
  split; [|apply isFhevmRelayerSDKType_silent].
  split.
  - destruct o as [| | b | n | s | | props]; try (cbn; intros H; discriminate H).
    unfold isFhevmRelayerSDKType.
    destruct (objHasProperty (JsObject props) "initSDK" "function") as [ok1 t1] eqn:E1.
    destruct ok1; cbn [negb]; [|intros H; discriminate H].
    destruct (objHasProperty (JsObject props) "createInstance" "function")
      as [ok2 t2] eqn:E2.
    destruct ok2; cbn [negb]; [|intros H; discriminate H].
    destruct (objHasProperty (JsObject props) "SepoliaConfig" "object")
      as [ok3 t3] eqn:E3.
    destruct ok3; cbn [negb]; [|intros H; discriminate H].
    intros H. exists props. split; [reflexivity|].
    split; [apply objHasProperty_function; rewrite E1; reflexivity|].
    split; [apply objHasProperty_function; rewrite E2; reflexivity|].
    split; [apply objHasProperty_object; rewrite E3; reflexivity|].
    destruct (lookupProp "__initialized__" props) as [v|]; [|left; reflexivity].
    destruct v; try discriminate H. right. eexists. reflexivity.
  - intros (props & -> & H1 & H2 & H3 & H4).
    apply objHasProperty_function in H1, H2. apply objHasProperty_object in H3.
    unfold isFhevmRelayerSDKType.
    destruct (objHasProperty (JsObject props) "initSDK" "function") as [ok1 t1].
    cbn [fst] in H1. subst ok1. cbn [negb].
    destruct (objHasProperty (JsObject props) "createInstance" "function") as [ok2 t2].
    cbn [fst] in H2. subst ok2. cbn [negb].
    destruct (objHasProperty (JsObject props) "SepoliaConfig" "object") as [ok3 t3].
    cbn [fst] in H3. subst ok3. cbn [negb].
    destruct H4 as [-> | [b ->]]; reflexivity.
Qed.

(** [isLoaded()], [load()] and the script's [onload] handler agree: on
    a page, [isLoaded()] returns true exactly when [load()] resolves at
    once, and exactly when the [onload] handler resolves; all three
    hold exactly when [window.relayerSDK] is there and passes the shape
    check. *)
Theorem isLoaded_iff_load_resolves (this other : RelayerSDKLoader) (h : Host)
        (page : Page) (sdkUrl : string) :
  window h = Some page ->
  let valid := match window_relayerSDK page with
               | Some sdk => fst (isFhevmRelayerSDKType sdk)
               | None => false
               end in
  fst (isLoaded this h) = Ok valid /\
  (fst (fst (load other h)) = Resolved <-> valid = true) /\
  (fst (scriptOnLoad this sdkUrl h) = Resolved <-> valid = true) /\
  (valid = false ->
   fst (scriptOnLoad this sdkUrl h)
   = Rejected ("RelayerSDKLoader: Relayer SDK script has been successfully loaded from "
                 +++ sdkUrl +++ ", however, the window.relayerSDK object is invalid.")).
Proof.
  intros Hw valid.
  assert (fst (isFhevmWindowType (window h)) = valid) as Hwin.
  { unfold isFhevmWindowType. rewrite Hw. subst valid.
    destruct (window_relayerSDK page); reflexivity. }
  split; [|split; [|split]].
  - unfold isLoaded. rewrite Hw. rewrite <- Hw.
    destruct (isFhevmWindowType (window h)) as [ok ms]. cbn [fst] in *.
    rewrite Hwin. reflexivity.
  - destruct (load_browser other h page Hw)
      as (o' & h2 & page2 & _ & _ & _ & _ & _ & _ & _ & ->).
    subst valid. destruct (window_relayerSDK page) as [sdk|].
    + cbv zeta. destruct (fst (isFhevmRelayerSDKType sdk)); cbn [fst];
        split; intros H; first [reflexivity | discriminate H].
    + destruct (existsb _ _); cbn [fst]; split; intros H; discriminate H.
  - unfold scriptOnLoad. destruct (isFhevmWindowType (window h)) as [ok ms].
    cbn [fst] in Hwin. rewrite Hwin.
    destruct valid; cbn [negb fst]; split; intros H; first [reflexivity | discriminate H].
  - intros Hv. unfold scriptOnLoad. destruct (isFhevmWindowType (window h)) as [ok ms].
    cbn [fst] in Hwin. rewrite Hwin, Hv. reflexivity.
Qed.

Lemma isLoaded_iff_load_resolves_witness :
  let sdk := JsObject [("initSDK", JsFunction); ("createInstance", JsFunction);
                       ("SepoliaConfig", JsObject []); ("__initialized__", JsBoolean false)] in
  let page := mkPage "/farewell/" "https://example.org" "https://example.org/farewell/"
                     NativeFetch NativeInstantiate (Some sdk) [] in
  let h := mkHost "production" (Some page) [] [] in
  fst (isLoaded (newLoader false) h) = Ok true /\
  fst (fst (load (newLoader false) h)) = Resolved.
Proof.
  intros sdk page h.
  destruct (isLoaded_iff_load_resolves (newLoader false) (newLoader false) h page
                                       EmptyString eq_refl) as (H1 & H2 & _).
  split; [exact H1 | apply H2; reflexivity].
Defined.

(** ** Where there is no window, and the base path at build time *)



(** * The wrappers around the two primitives *)

Lemma startsWith_append p s : startsWith (p +++ s) p = true.
Proof.
  induction p as [|c r IH]; [destruct s; reflexivity|].
  cbn [String.append startsWith]. rewrite Ascii.eqb_refl. exact IH.
Qed.

Lemma slice_append p s : slice (String.length p) (p +++ s) = s.
Proof. induction p as [|c r IH]; [reflexivity | exact IH]. Qed.

Lemma replaceFirst_prefix p s r : replaceFirst (p +++ s) p r = r +++ s.
Proof.
  destruct (p +++ s) as [|c t] eqn:E; cbn [replaceFirst]; rewrite <- E;
    rewrite startsWith_append, slice_append; reflexivity.
Qed.

Lemma includes_empty s : includes s EmptyString = true.
Proof. destruct s; reflexivity. Qed.

Lemma replaceFirst_absent s : forall p r,
  includes s p = false -> replaceFirst s p r = s.
Proof.
  induction s as [|c t IH]; intros p r H.
  - cbn [includes] in H. apply orb_false_iff in H as [H _].
    cbn [replaceFirst]. rewrite H. reflexivity.
  - cbn [includes] in H. apply orb_false_iff in H as [H Ht].
    cbn [replaceFirst]. rewrite H, (IH p r Ht). reflexivity.
Qed.

Section WrapperFacts.

Variable URL_new : string -> option string -> option URLRecord.
Variable RequestInit : Type.

(** A request already under the base path passes a wrapper unchanged. *)
Lemma callFetch_under_base_path basePath origin baseURI url urlObj :
  URL_new url (Some origin) = Some urlObj ->
  startsWith (url_pathname urlObj) basePath = true ->
  forall n init log,
    callFetch URL_new RequestInit (Nat.iter n (PatchedFetch basePath) NativeFetch)
              origin baseURI (InputString url) init log
    = CallNative (InputString url) init log.
Proof.
  intros Hu Hp n. induction n as [|n IH]; intros init log; [reflexivity|].
  cbn [Nat.iter nat_rect callFetch]. unfold patchedFetchStep. cbn [inputUrl].
  destruct (isWasmUrl url); [|apply IH].
  rewrite Hu, Hp, andb_false_r. apply IH.
Qed.


End WrapperFacts.


(** The wrapper around [instantiateStreaming] fetches a WASM response
    anew when its URL does not hold the base path anywhere: for a
    response from the page's origin, from the base path followed by the
    response's path, query and fragment; for a response from another
    origin, from the base path followed by the whole URL.  A response
    whose URL holds the base path, or does not hold ".wasm", is used as
    it is. *)
Theorem instantiate_wrapper_refetch (basePath origin : string) :
  (forall url,
      isWasmUrl url = true ->
      includes url basePath = false ->
      exists target, patchedInstantiateRefetch basePath origin url = Some target) /\
  (forall rest,
      isWasmUrl (origin +++ "/" +++ rest) = true ->
      includes (origin +++ "/" +++ rest) basePath = false ->
      patchedInstantiateRefetch basePath origin (origin +++ "/" +++ rest)
      = Some (basePath +++ "/" +++ rest)) /\
  (forall url,
      isWasmUrl url = true ->
      includes url basePath = false ->
      includes url origin = false ->
      patchedInstantiateRefetch basePath origin url
      = Some (basePath +++ "/" +++ dropLeadingSlash url)) /\
  (forall url,
      includes url basePath = true ->
      patchedInstantiateRefetch basePath origin url = None) /\
  (forall url,
      isWasmUrl url = false ->
      patchedInstantiateRefetch basePath origin url = None).
Proof.
  unfold patchedInstantiateRefetch. repeat apply conj.
  - intros url Hw Hb. rewrite Hw, Hb. cbn [negb]. eexists. reflexivity.
  - intros rest Hw Hb. rewrite Hw, Hb. cbn [negb].
    rewrite replaceFirst_prefix. reflexivity.
  - intros url Hw Hb Ho. rewrite Hw, Hb. cbn [negb].
    rewrite (replaceFirst_absent url origin EmptyString Ho). reflexivity.
  - intros url Hb. rewrite Hb. destruct (isWasmUrl url); reflexivity.
  - intros url Hw. rewrite Hw. reflexivity.
Qed.

Lemma instantiate_wrapper_refetch_witness :
  patchedInstantiateRefetch "/farewell" "https://example.org"
                            "https://example.org/tfhe_bg.wasm?v=2"
  = Some "/farewell/tfhe_bg.wasm?v=2" /\
  patchedInstantiateRefetch "/farewell" "https://example.org"
                            "https://cdn.example.net/kms_lib_bg.wasm"
  = Some "/farewell/https://cdn.example.net/kms_lib_bg.wasm".
Proof.
  destruct (instantiate_wrapper_refetch "/farewell" "https://example.org")
    as (_ & H1 & H2 & _).
  split.
  - apply (H1 "tfhe_bg.wasm?v=2"); reflexivity.
  - apply H2; reflexivity.
Defined.

(** * The SDK loader: what is traced *)

Lemma objHasProperty_refusal o name ty :
  fst (objHasProperty (JsObject o) name ty) = false ->
  snd (objHasProperty (JsObject o) name ty) <> [].
Proof.
  unfold objHasProperty. destruct (lookupProp name o) as [v|]; [|discriminate].
  destruct v; try discriminate;
    destruct (negb (String.eqb _ ty)); cbn [fst snd]; intros H;
      first [discriminate | discriminate H].
Qed.

Lemma isFhevmRelayerSDKType_refusal sdk :
  fst (isFhevmRelayerSDKType sdk) = false -> snd (isFhevmRelayerSDKType sdk) <> [].
Proof.
  destruct sdk as [| | b | n | s | | props]; try (cbn; discriminate).
  unfold isFhevmRelayerSDKType.
  destruct (objHasProperty (JsObject props) "initSDK" "function") as [ok1 t1].
  destruct ok1; cbn [negb]; [|cbn [snd]; intros _ E; apply app_eq_nil in E as [_ E];
                              discriminate E].
  destruct (objHasProperty (JsObject props) "createInstance" "function") as [ok2 t2].
  destruct ok2; cbn [negb]; [|cbn [snd]; intros _ E; apply app_eq_nil in E as [_ E];
                              discriminate E].
  destruct (objHasProperty (JsObject props) "SepoliaConfig" "object") as [ok3 t3].
  destruct ok3; cbn [negb]; [|cbn [snd]; intros _ E; apply app_eq_nil in E as [_ E];
                              discriminate E].
  destruct (lookupProp "__initialized__" props) as [v|]; [|discriminate].
  destruct v; cbn [fst snd]; intros H; first [discriminate | discriminate H].
Qed.

(** [isLoaded()] never says why the SDK object fails the shape check:
    it passes its [trace] function to the check of the window but the
    check of the SDK object is made without it, so that where
    [window.relayerSDK] is there nothing is traced, valid or not.
    [load()] on the same page traces the reasons when it has a [trace]
    function, and there is at least one reason when the object is
    refused. *)
Theorem isLoaded_does_not_trace_the_shape (this : RelayerSDKLoader) (h : Host)
        (page : Page) (sdk : JsValue) :
  window h = Some page ->
  window_relayerSDK page = Some sdk ->
  host_traced (snd (isLoaded this h)) = host_traced h /\
  host_console (snd (isLoaded this h)) = host_console h /\
  host_traced (snd (load this h))
  = host_traced h ++ (if has_trace this then snd (isFhevmRelayerSDKType sdk) else []) /\
  (fst (isFhevmRelayerSDKType sdk) = false -> snd (isFhevmRelayerSDKType sdk) <> []).
Proof.
  intros Hw Hs.
  split; [|split; [|split]].
  - unfold isLoaded, isFhevmWindowType. rewrite Hw, Hs. cbn [snd].
    unfold traceAll. destruct (has_trace this); [|reflexivity].
    cbn [host_traced]. apply app_nil_r.
  - unfold isLoaded, isFhevmWindowType. rewrite Hw, Hs. cbn [snd].
    unfold traceAll. destruct (has_trace this); reflexivity.
  - destruct (load_browser this h page Hw)
      as (this' & h2 & page2 & Hpatch & _ & Htr & _ & _ & _ & _ & ->).
    destruct (patchWasmLoading_page this (logLine "[RelayerSDKLoader] load..." h) page Hw)
      as (p' & _ & _ & _ & _ & _ & _ & _ & _ & Ht).
    rewrite Hpatch in Ht. cbn [snd logLine host_traced] in Ht.
    rewrite Hs. cbv zeta. rewrite Htr.
    destruct (fst (isFhevmRelayerSDKType sdk)); cbn [snd logLine host_traced];
      unfold traceAll; destruct (has_trace this); cbn [host_traced]; rewrite Ht;
      rewrite ?app_nil_r; reflexivity.
  - apply isFhevmRelayerSDKType_refusal.
Qed.

Lemma isLoaded_does_not_trace_the_shape_witness :
  let sdk := JsObject [("initSDK", JsFunction)] in
  let page := mkPage "/" "http://localhost:3000" "http://localhost:3000/"
                     NativeFetch NativeInstantiate (Some sdk) [] in
  let h := mkHost "development" (Some page) [] [] in
  host_traced (snd (isLoaded (newLoader true) h)) = [] /\
  host_traced (snd (load (newLoader true) h))
  = ["RelayerSDKLoader: missing createInstance.";
     "RelayerSDKLoader: relayerSDK.createInstance is invalid"].
Proof.
  intros sdk page h.
  destruct (isLoaded_does_not_trace_the_shape (newLoader true) h page sdk eq_refl eq_refl)
    as (H1 & _ & H3 & _).
  split; [exact H1 | exact H3].
Defined.

(** * The SDK URL as a constant *)

(** The constant [SDK_CDN_URL] is [getSDKCDNUrl()] where the module is
    loaded in a browser.  Loaded without a window it is the URL without
    base path whatever NODE_ENV is, so that it differs from
    [getSDKCDNUrl()] exactly in production, where the function puts the
    base path in front. *)
Theorem SDK_CDN_URL_and_getSDKCDNUrl (h : Host) :
  (forall page, window h = Some page -> SDK_CDN_URL h = getSDKCDNUrl h) /\
  (window h = None ->
   SDK_CDN_URL h = "/relayer-sdk/relayer-sdk-js.umd.cjs" /\
   (SDK_CDN_URL h = getSDKCDNUrl h <-> NODE_ENV h <> "production") /\
   (NODE_ENV h = "production" ->
    getSDKCDNUrl h = "/farewell/relayer-sdk/relayer-sdk-js.umd.cjs")).
Proof.
  unfold SDK_CDN_URL, getSDKCDNUrl, getBasePath. split.
  - intros page Hw. rewrite Hw. reflexivity.
  - intros Hw. rewrite Hw. split; [reflexivity|]. split.
    + destruct (String.eqb (NODE_ENV h) "production") eqn:E.
      * apply String.eqb_eq in E. split; [intros H; discriminate H | intros H; contradiction].
      * apply String.eqb_neq in E. split; [intros _; assumption | reflexivity].
    + intros ->. reflexivity.
Qed.

Lemma SDK_CDN_URL_and_getSDKCDNUrl_witness :
  let h := mkHost "production" None [] [] in
  SDK_CDN_URL h = "/relayer-sdk/relayer-sdk-js.umd.cjs" /\
  getSDKCDNUrl h = "/farewell/relayer-sdk/relayer-sdk-js.umd.cjs".
Proof.
  intros h. destruct (SDK_CDN_URL_and_getSDKCDNUrl h) as [_ H].
  destruct (H eq_refl) as (H1 & _ & H3).
  split; [exact H1 | apply H3; reflexivity].
Defined.
